(** * limda frame analysis: neighbor-list front end and statistics

    A shallow embedding of [limda/analyze_frame.py] (class
    [AnalyzeFrame]) and of its predecessor [limda/analize_frame.py]
    (class [AnalizeFrame]).  Python exceptions are values of [exn] and
    every method returns in the [result] monad; dictionaries are [gmap]s,
    except the intermediate composition tally, whose insertion order the
    code observes and which is therefore an association list. *)

From Stdlib Require Import Floats.PrimFloat Floats.FloatAxioms QArith.
From stdpp Require Import gmap strings list sorting pretty.

#[local] Open Scope nat_scope.
#[local] Set Warnings "-inexact-float,-clear-no-such-hyp".

(** ** Exceptions and the error monad *)

Inductive exn : Type :=
  | AssertionError (msg : string)
  | TypeError
  | ValueError
  | IndexError
  | KeyError.

Inductive result (A : Type) : Type :=
  | Ok (a : A)
  | Err (e : exn).
Arguments Ok {A} a.
Arguments Err {A} e.

#[global] Instance result_ret : MRet result := λ A, Ok.
#[global] Instance result_bind : MBind result := λ A B f r,
  match r with Ok a => f a | Err e => Err e end.
#[global] Instance result_fmap : FMap result := λ A B f r,
  match r with Ok a => Ok (f a) | Err e => Err e end.

(** [assert b, msg] *)
Definition py_assert (b : bool) (msg : string) : result unit :=
  if b then Ok () else Err (AssertionError msg).

(** [for x in l: state = f state x], stopping at the first exception. *)
Fixpoint foldM {A B : Type} (f : B → A → result B) (b : B) (l : list A)
  : result B :=
  match l with
  | [] => Ok b
  | x :: l => b' ← f b x; foldM f b' l
  end.

(** ** Indexing *)

(** [l[i]] for an index known to be a non-negative integer (a loop
    counter or an atom index): [IndexError] past the end. *)
Definition py_get {A : Type} (l : list A) (i : nat) : result A :=
  match l !! i with
  | Some x => Ok x
  | None => Err IndexError
  end.

(** Position denoted by a signed index into a sequence of length [n]:
    negative indices count from the end, everything else out of range
    raises [IndexError]. *)
Definition py_index (n : nat) (i : Z) : result nat :=
  if bool_decide (0 ≤ i < Z.of_nat n)%Z then Ok (Z.to_nat i)
  else if bool_decide (- Z.of_nat n ≤ i < 0)%Z
       then Ok (Z.to_nat (Z.of_nat n + i))
  else Err IndexError.

(** [d[k]] on a dictionary. *)
Definition dict_get `{Countable K} {V : Type} (d : gmap K V) (k : K)
  : result V :=
  match d !! k with
  | Some v => Ok v
  | None => Err KeyError
  end.

(** ** Numbers

    The floating-point operations the code uses.  [nlt x y] is [x < y];
    Python's [x > y] is [nlt y x]. *)

Class PyNum (num : Type) : Type := {
  nzero : num;
  nadd : num → num → num;
  nmul : num → num → num;
  ndiv : num → num → num;
  nlt : num → num → bool;
  lit_3 : num;       (* the literal [3] *)
  lit_0_01 : num     (* the literal [0.01] *)
}.

(** IEEE 754 binary64, as CPython's [float]. *)
Definition float_PyNum : PyNum float := {|
  nzero := 0%float;
  nadd := PrimFloat.add;
  nmul := PrimFloat.mul;
  ndiv := PrimFloat.div;
  nlt := PrimFloat.ltb;
  lit_3 := 3%float;
  lit_0_01 := 0.01%float
|}.

(** Exact rational arithmetic. *)
Definition Q_PyNum : PyNum Q := {|
  nzero := 0%Q;
  nadd := Qplus;
  nmul := Qmult;
  ndiv := Qdiv;
  nlt := λ x y, negb (Qle_bool y x);
  lit_3 := 3%Q;
  lit_0_01 := (1 # 100)%Q
|}.

Section builtins.
Context {num : Type} `{PyNum num}.

(** [a > b]; [None] is not ordered. *)
Definition py_gt (a b : option num) : result bool :=
  match a, b with
  | Some x, Some y => Ok (nlt y x)
  | _, _ => Err TypeError
  end.

(** [max(l)]: the first item, replaced by each later item that
    compares greater; no comparison for a one-item list. *)
Definition py_max (l : list (option num)) : result (option num) :=
  match l with
  | [] => Err ValueError
  | x :: l =>
      foldM (λ maxitem item,
               b ← py_gt item maxitem;
               Ok (if b : bool then item else maxitem)) x l
  end.

(** [min(l)] on an array of numbers. *)
Definition py_min (l : list num) : result num :=
  match l with
  | [] => Err ValueError
  | x :: l =>
      Ok (fold_left (λ minitem item,
                       if nlt item minitem then item else minitem) l x)
  end.

(** [a + b] with [b] a float literal. *)
Definition py_add (a : option num) (b : num) : result num :=
  match a with
  | Some x => Ok (nadd x b)
  | None => Err TypeError
  end.

(** ** [np.sum] along the contiguous axis

    NumPy's add-reduction of a float row: the result starts at the
    identity and receives the pairwise sum of the row
    ([*out += pairwise_sum(row, n)]).  The pairwise sum adds fewer than
    8 items in index order; it sends up to 128 items through 8
    accumulators, [r[j] += a[i + j]] for each full group of 8, combines
    them as a tree and adds the items past the last full group in index
    order; it splits a longer row at [n/2] rounded down to a multiple
    of 8 and adds the sums of the two parts.  The order matters where
    [nadd] rounds (binary64); where it is associative and commutative
    (an integer dtype, whose additions wrap) every order gives the same
    sum. *)

(** [r[j] += a[i + j]] for [k] further groups of 8. *)
Fixpoint accumulate (r rest : list num) (k : nat) : list num :=
  match k with
  | 0 => r
  | S k => accumulate (zip_with nadd r (take 8 rest)) (drop 8 rest) k
  end.

(** [((r0 + r1) + (r2 + r3)) + ((r4 + r5) + (r6 + r7))] *)
Definition combine8 (r : list num) : num :=
  match r with
  | [r0; r1; r2; r3; r4; r5; r6; r7] =>
      nadd (nadd (nadd r0 r1) (nadd r2 r3))
           (nadd (nadd r4 r5) (nadd r6 r7))
  | _ => nzero
  end.

(** The branch for 8 to 128 items. *)
Definition pairwise_block (a : list num) : num :=
  let n := length a in
  let m := n - n mod 8 in
  let r := accumulate (take 8 a) (drop 8 a) (m / 8 - 1) in
  fold_left nadd (drop m a) (combine8 r).

(** The recursion, at most [depth] splits deep; [pairwise_sum] starts it
    with a depth no row exhausts. *)
Fixpoint pairwise_sum_rec (depth : nat) (a : list num) : num :=
  let n := length a in
  if n <? 8 then fold_left nadd a nzero
  else if n <=? 128 then pairwise_block a
  else
    match depth with
    | 0 => fold_left nadd a nzero
    | S depth =>
        let n2 := n / 2 - (n / 2) mod 8 in
        nadd (pairwise_sum_rec depth (take n2 a))
             (pairwise_sum_rec depth (drop n2 a))
    end.

Definition pairwise_sum (a : list num) : num :=
  pairwise_sum_rec (length a) a.

Definition np_sum (l : list num) : num := nadd nzero (pairwise_sum l).
End builtins.

(** ** The frame *)

Section frame.
Context {num : Type}.

(** One row of the [atoms] data frame. *)
Record Atom : Type := {
  a_type : Z;
  a_x : num; a_y : num; a_z : num;
  a_vx : num; a_vy : num; a_vz : num
}.

(** [limda_default]: the keys the code looks for. *)
Record Defaults : Type := {
  default_bond_length : option (list (list num));
  default_cut_off : option num
}.

Record Frame : Type := {
  atoms : list Atom;
  cell : list num;
  atom_symbol_to_type : gmap string Z;
  atom_type_to_symbol : gmap Z string;
  atom_type_to_mass : gmap Z num;
  limda_default : Defaults
}.

(** Keyword arguments of [get_neighbor_list_using_cython]. *)
Record NeighborArgs : Type := {
  arg_atoms_type : list Z;
  arg_atoms_pos : list (list num);
  arg_mesh_length : num;
  arg_atom_num : nat;
  arg_bond_length : list (list (option num));
  arg_cell : list num
}.

(** Modelled from the spec: [get_total_atoms] and [__len__] are defined
    outside the two source files; the spec's AtomSet has N positions and
    N types, and both calls return that N. *)
Definition get_total_atoms (self : Frame) : nat := length (atoms self).
End frame.
Arguments Atom : clear implicits.
Arguments Defaults : clear implicits.
Arguments Frame : clear implicits.
Arguments NeighborArgs : clear implicits.

(** In-place dictionary update [if k not in d: d[k] = 0] followed by
    [d[k] += 1], on a dictionary kept in insertion order. *)
Fixpoint dict_incr (k : list nat) (d : list (list nat * nat))
  : list (list nat * nat) :=
  match d with
  | [] => [(k, 1)]
  | (k', c) :: d' =>
      if decide (k = k') then (k', S c) :: d' else (k', c) :: dict_incr k d'
  end.

(** In-place dictionary update [if k not in d: d[k] = []] followed by
    [d[k].append(mol)], on a dictionary kept in insertion order. *)
Fixpoint dict_append (k : list nat) (mol : list nat)
    (d : list (list nat * list (list nat)))
  : list (list nat * list (list nat)) :=
  match d with
  | [] => [(k, [mol])]
  | (k', mols) :: d' =>
      if decide (k = k') then (k', mols ++ [mol]) :: d'
      else (k', mols) :: dict_append k mol d'
  end.

(** [m[a][b] += 1] with signed indices. *)
Definition incr_at (m : list (list nat)) (a b : Z)
  : result (list (list nat)) :=
  r ← py_index (length m) a;
  row ← py_get m r;
  c ← py_index (length row) b;
  Ok (<[r := alter S c row]> m).

(** [v[a] += 1] with a signed index. *)
Definition incr_at1 (v : list nat) (a : Z) : result (list nat) :=
  c ← py_index (length v) a;
  Ok (alter S c v).

(** * The current class, [analyze_frame.py] *)

Module AnalyzeFrame.
Section methods.
Context {num : Type} `{PyNum num}.

(** The two compiled routines the class imports; their sources are not
    part of the two files. *)
Variable get_neighbor_list_using_cython :
  NeighborArgs num → result (list (list nat)).
Variable get_mols_list_using_cython :
  list (list nat) → nat → result (list (list nat)).

Definition get_neighbor_list (self : Frame num) (mode : string)
    (cut_off : option num) (bond_length : option (list (list num)))
  : result (list (list nat)) :=
  py_assert (bool_decide (mode = "bond_length")
             || bool_decide (mode = "cut_off")) "Please configure mode";;
  let atom_type_num := size (atom_symbol_to_type self) in
  bond_length ←
    (if bool_decide (mode = "bond_length") then
       let bond_length :=
         match bond_length with
         | None => default_bond_length (limda_default self)
         | Some b => Some b
         end in
       match bond_length with
       | None => Err TypeError (* len(None) *)
       | Some bond_length =>
           py_assert (length bond_length =? atom_type_num)
             "Incorrect format of bond length";;
           foldM (λ _ bond_list,
                    py_assert (length bond_list =? atom_type_num)
                      "Incorrect format of bond length") () bond_length;;
           Ok (map (map Some) bond_length)
       end
     else if bool_decide (mode = "cut_off") then
       let cut_off :=
         match cut_off with
         | None => default_cut_off (limda_default self)
         | Some c => Some c
         end in
       Ok (replicate atom_type_num (replicate atom_type_num cut_off))
     else (* no branch taken: excluded by the first assertion *)
       match bond_length with
       | None => Err TypeError
       | Some bond_length => Ok (map (map Some) bond_length)
       end);
  row_max ← mapM py_max bond_length;
  m ← py_max row_max;
  mesh_length ← py_add m lit_0_01;
  min_cell ← py_min (cell self);
  let mesh_length :=
    if nlt min_cell (nmul mesh_length lit_3)
    then ndiv min_cell lit_3 else mesh_length in
  get_neighbor_list_using_cython
    {| arg_atoms_type := a_type <$> atoms self;
       arg_atoms_pos :=
         [a_x <$> atoms self; a_y <$> atoms self; a_z <$> atoms self];
       arg_mesh_length := mesh_length;
       arg_atom_num := get_total_atoms self;
       arg_bond_length := bond_length;
       arg_cell := cell self |}.

Definition get_mols_list (self : Frame num) (mode : string)
    (cut_off : option num) (bond_length : option (list (list num)))
  : result (list (list nat)) :=
  neighbor_list ← get_neighbor_list self mode cut_off bond_length;
  get_mols_list_using_cython neighbor_list (get_total_atoms self).

(** The loop over [mol]: one counter per type, bumped at
    [atom_types[atom_idx] - 1]. *)
Definition atom_type_count (self : Frame num) (mol : list nat)
  : result (list nat) :=
  let atom_types := a_type <$> atoms self in
  foldM (λ atom_type_count atom_idx,
           t ← py_get atom_types atom_idx;
           incr_at1 atom_type_count (t - 1)%Z)
        (replicate (size (atom_type_to_symbol self)) 0) mol.

(** The loop that renders one composition: [<Symbol><Count>] for each
    type with a non-zero count, appended in ascending type order. *)
Definition mol_str (self : Frame num) (atom_type_count : list nat)
  : result string :=
  foldM (λ mol_str atom_type,
           c ← py_get atom_type_count atom_type;
           if c =? 0 then Ok mol_str
           else
             sym ← dict_get (atom_type_to_symbol self)
                     (Z.of_nat atom_type + 1)%Z;
             Ok (mol_str +:+ sym +:+ pretty c))
        "" (seq 0 (size (atom_type_to_symbol self))).

(** The same two loops as [count_mols], collecting the components
    instead of counting them. *)
Definition get_mols_dict (self : Frame num) (mode : string)
    (cut_off : option num) (bond_length : option (list (list num)))
  : result (gmap string (list (list nat))) :=
  mols_list ← get_mols_list self mode cut_off bond_length;
  mols_dict_tmp ←
    foldM (λ mols_dict_tmp mol,
             atom_type_count_tuple ← atom_type_count self mol;
             Ok (dict_append atom_type_count_tuple mol mols_dict_tmp))
          [] mols_list;
  foldM (λ (mols_dict : gmap string (list (list nat)))
           '(atom_type_count, mols),
           mol_str ← mol_str self atom_type_count;
           Ok (<[mol_str := mols]> mols_dict))
        ∅ mols_dict_tmp.

Definition count_mols (self : Frame num) (mode : string)
    (cut_off : option num) (bond_length : option (list (list num)))
  : result (gmap string nat) :=
  mols_list ← get_mols_list self mode cut_off bond_length;
  mols_count_tmp ←
    foldM (λ mols_count_tmp mol,
             atom_type_count_tuple ← atom_type_count self mol;
             Ok (dict_incr atom_type_count_tuple mols_count_tmp))
          [] mols_list;
  foldM (λ (mols_count : gmap string nat) '(atom_type_count, count),
           mol_str ← mol_str self atom_type_count;
           Ok (<[mol_str := count]> mols_count))
        ∅ mols_count_tmp.

Definition count_bonds (self : Frame num) (mode : string)
    (cut_off : option num) (bond_length : option (list (list num)))
  : result (gmap string nat) :=
  neighbor_list ← get_neighbor_list self mode cut_off bond_length;
  let atom_types := a_type <$> atoms self in
  let n_types := size (atom_symbol_to_type self) in
  count_bonds_list ←
    foldM (λ count_bonds_list atom_i_idx,
             atom_i_type ← py_get atom_types atom_i_idx;
             neighbors ← py_get neighbor_list atom_i_idx;
             foldM (λ count_bonds_list atom_j_idx,
                      if atom_i_idx <? atom_j_idx then
                        atom_j_type ← py_get atom_types atom_j_idx;
                        incr_at count_bonds_list
                          (atom_i_type - 1)%Z (atom_j_type - 1)%Z
                      else Ok count_bonds_list)
                   count_bonds_list neighbors)
          (replicate n_types (replicate n_types 0))
          (seq 0 (get_total_atoms self));
  foldM (λ count_bonds_dict atom_i_type,
           foldM (λ (count_bonds_dict : gmap string nat) atom_j_type,
                    sym_i ← dict_get (atom_type_to_symbol self)
                              (Z.of_nat atom_i_type);
                    sym_j ← dict_get (atom_type_to_symbol self)
                              (Z.of_nat atom_j_type);
                    let bond := sym_i +:+ "-" +:+ sym_j in
                    row ← py_get count_bonds_list (atom_i_type - 1);
                    v ← py_get row (atom_j_type - 1);
                    Ok (<[bond := v]> count_bonds_dict))
                 count_bonds_dict
                 (seq atom_i_type (n_types + 1 - atom_i_type)))
        ∅ (seq 1 n_types).

Definition get_edge_index (self : Frame num) (cut_off : num)
  : result (list nat * list nat) :=
  neighbor_list ← get_neighbor_list self "cut_off" (Some cut_off) None;
  foldM (λ edge_index atom_idx,
           neighbors ← py_get neighbor_list atom_idx;
           Ok (fold_left
                 (λ (edge_index : list nat * list nat) neighbor_atom_idx,
                    if atom_idx <? neighbor_atom_idx
                    then (edge_index.1 ++ [atom_idx],
                          edge_index.2 ++ [neighbor_atom_idx])
                    else edge_index)
                 neighbors edge_index))
        ([], []) (seq 0 (get_total_atoms self)).

Definition get_sum_of_momentums (self : Frame num) : result (list num) :=
  mass ← mapM (dict_get (atom_type_to_mass self)) (a_type <$> atoms self);
  let momentums :=
    (λ column, zip_with nmul column mass)
      <$> [a_vx <$> atoms self; a_vy <$> atoms self; a_vz <$> atoms self] in
  Ok (np_sum <$> momentums).

End methods.
End AnalyzeFrame.

(** * The earlier class, [analize_frame.py] *)

Module AnalizeFrame.
Section methods.
Context {num : Type} `{PyNum num}.

Variable get_neighbor_list_using_cython :
  NeighborArgs num → result (list (list nat)).
Variable get_mols_list_using_cython :
  list (list nat) → nat → result (list (list nat)).

Definition get_neighbor_list (self : Frame num) (mode : string)
    (cut_off : option num) (bond_length : option (list (list num)))
  : result (list (list nat)) :=
  py_assert (bool_decide (mode = "bond_length")
             || bool_decide (mode = "cut_off")) "Please configure mode";;
  let atom_type_num := size (atom_symbol_to_type self) in
  bond_length ←
    (if bool_decide (mode = "bond_length") then
       let bond_length :=
         match bond_length with
         | None => default_bond_length (limda_default self)
         | Some b => Some b
         end in
       match bond_length with
       | None => Err TypeError (* len(None) *)
       | Some bond_length =>
           py_assert (length bond_length =? atom_type_num)
             "Incorrect format of bond length";;
           foldM (λ _ bond_list,
                    py_assert (length bond_list =? atom_type_num)
                      "Incorrect format of bond length") () bond_length;;
           Ok (map (map Some) bond_length)
       end
     else if bool_decide (mode = "cut_off") then
       let cut_off :=
         match cut_off with
         | None => default_cut_off (limda_default self)
         | Some c => Some c
         end in
       Ok (replicate atom_type_num (replicate atom_type_num cut_off))
     else (* no branch taken: excluded by the first assertion *)
       match bond_length with
       | None => Err TypeError
       | Some bond_length => Ok (map (map Some) bond_length)
       end);
  row_max ← mapM py_max bond_length;
  m ← py_max row_max;
  mesh_length ← py_add m lit_0_01;
  min_cell ← py_min (cell self);
  let mesh_length :=
    if nlt min_cell (nmul mesh_length lit_3)
    then ndiv min_cell lit_3 else mesh_length in
  get_neighbor_list_using_cython
    {| arg_atoms_type := a_type <$> atoms self;
       arg_atoms_pos :=
         [a_x <$> atoms self; a_y <$> atoms self; a_z <$> atoms self];
       arg_mesh_length := mesh_length;
       arg_atom_num := get_total_atoms self;
       arg_bond_length := bond_length;
       arg_cell := cell self |}.

Definition get_mols_list (self : Frame num) (mode : string)
    (cut_off : option num) (bond_length : option (list (list num)))
  : result (list (list nat)) :=
  neighbor_list ← get_neighbor_list self mode cut_off bond_length;
  get_mols_list_using_cython neighbor_list (get_total_atoms self).

Definition atom_type_count (self : Frame num) (mol : list nat)
  : result (list nat) :=
  let atom_types := a_type <$> atoms self in
  foldM (λ atom_type_count atom_idx,
           t ← py_get atom_types atom_idx;
           incr_at1 atom_type_count (t - 1)%Z)
        (replicate (size (atom_type_to_symbol self)) 0) mol.

(** Here the groups are separated by one space: the first group is
    assigned, each later one appended after [" "]. *)
Definition mol_str (self : Frame num) (atom_type_count : list nat)
  : result string :=
  foldM (λ mol_str atom_type,
           c ← py_get atom_type_count atom_type;
           if c =? 0 then Ok mol_str
           else if bool_decide (mol_str = "") then
             sym ← dict_get (atom_type_to_symbol self)
                     (Z.of_nat atom_type + 1)%Z;
             Ok (sym +:+ pretty c)
           else
             sym ← dict_get (atom_type_to_symbol self)
                     (Z.of_nat atom_type + 1)%Z;
             Ok (mol_str +:+ " " +:+ sym +:+ pretty c))
        "" (seq 0 (size (atom_type_to_symbol self))).

Definition count_mols (self : Frame num) (mode : string)
    (cut_off : option num) (bond_length : option (list (list num)))
  : result (gmap string nat) :=
  mols_list ← get_mols_list self mode cut_off bond_length;
  mols_count_tmp ←
    foldM (λ mols_count_tmp mol,
             atom_type_count_tuple ← atom_type_count self mol;
             Ok (dict_incr atom_type_count_tuple mols_count_tmp))
          [] mols_list;
  foldM (λ (mols_count : gmap string nat) '(atom_type_count, count),
           mol_str ← mol_str self atom_type_count;
           Ok (<[mol_str := count]> mols_count))
        ∅ mols_count_tmp.

End methods.
End AnalizeFrame.


(** * Vocabulary of the specification *)

Section vocabulary.
Context {num : Type} `{PyNum num}.
Implicit Types (self : Frame num) (cut_off : option num).
Implicit Types (bond_length : option (list (list num))).

(** The value of an optional argument once [limda_default] has been
    consulted. *)
Definition resolved {A : Type} (arg dflt : option A) : option A :=
  match arg with
  | None => dflt
  | Some a => Some a
  end.

(** T, the number of atom types. *)
Definition n_types self : nat := size (atom_symbol_to_type self).

Definition is_square {A : Type} (n : nat) (M : list (list A)) : Prop :=
  length M = n ∧ Forall (λ row, length row = n) M.

Definition entry_of (M : list (list num)) (x : num) : Prop :=
  ∃ row, row ∈ M ∧ x ∈ row.

(** Some entry of the matrix is below zero. *)
Definition has_negative (M : list (list num)) : Prop :=
  ∃ x, entry_of M x ∧ nlt x nzero = true.

(** The threshold matrix of a call, following the spec: the resolved
    scalar broadcast into a uniform T×T matrix in mode ["cut_off"], the
    resolved T×T matrix in mode ["bond_length"]. *)
Inductive threshold_matrix self
  : string → option num → option (list (list num)) → list (list num)
    → Prop :=
  | tm_cut_off cut_off bond_length c :
      resolved cut_off (default_cut_off (limda_default self)) = Some c →
      threshold_matrix self "cut_off" cut_off bond_length
        (replicate (n_types self) (replicate (n_types self) c))
  | tm_bond_length cut_off bond_length M :
      resolved bond_length (default_bond_length (limda_default self))
      = Some M →
      is_square (n_types self) M →
      threshold_matrix self "bond_length" cut_off bond_length M.

(** [<] is a strict weak order on the values satisfying [P]; IEEE
    comparison is one away from NaN. *)
Record strict_weak_on (P : num → Prop) : Prop := {
  swo_irrefl : ∀ x, P x → nlt x x = false;
  swo_trans : ∀ x y z, P x → P y → P z →
    nlt x y = true → nlt y z = true → nlt x z = true;
  swo_negtrans : ∀ x y z, P x → P y → P z →
    nlt x y = false → nlt y z = false → nlt x z = false
}.

(** The same, decided on the members of a list. *)
Definition strict_weak_check (l : list num) : bool :=
  forallb (λ x, negb (nlt x x)) l
  && forallb (λ x, forallb (λ y, forallb (λ z,
       implb (nlt x y && nlt y z) (nlt x z)
       && implb (negb (nlt x y) && negb (nlt y z)) (negb (nlt x z)))
     l) l) l.

(** An entry of [M] that no entry exceeds. *)
Definition is_max_entry (M : list (list num)) (m : num) : Prop :=
  entry_of M m ∧ ∀ x, entry_of M x → nlt m x = false.

(** A member of [l] that is not above any other. *)
Definition is_min_of (l : list num) (m : num) : Prop :=
  m ∈ l ∧ ∀ x, x ∈ l → nlt x m = false.

(** The spec's mesh length: the margin added, then the clamp. *)
Definition clamped_mesh_length (max_threshold min_cell : num) : num :=
  let mesh_length := nadd max_threshold lit_0_01 in
  if nlt min_cell (nmul mesh_length lit_3)
  then ndiv min_cell lit_3
  else mesh_length.

(** ** Momentum *)

(** The sum over the atoms i = 0, ..., n-1 of [f i]. *)
Definition sum_over (n : nat) (f : nat → num) : num :=
  fold_left (λ acc i, nadd acc (f i)) (seq 0 n) nzero.

(** One component of the total momentum: over all atoms, the velocity
    component of the atom times the mass of the atom's type. *)
Definition momentum_component (mass : Z → num) (types : list Z)
    (velocities : list num) : num :=
  sum_over (length types)
    (λ i, nmul (nth i velocities nzero) (mass (nth i types 0%Z))).

(** ** Molecules and formulas *)

(** The number of atom types as [count_mols] takes it. *)
Definition n_symbols self : nat := size (atom_type_to_symbol self).

(** The AtomSet invariant, and a symbol for each of the types 1..T. *)
Record frame_wf self : Prop := {
  types_in_range :
    ∀ a, a ∈ atoms self → (1 ≤ a_type a ≤ Z.of_nat (n_symbols self))%Z;
  symbols_total :
    ∀ t, (1 ≤ t ≤ Z.of_nat (n_symbols self))%Z →
         is_Some (atom_type_to_symbol self !! t)
}.

(** A MoleculeGrouping: every atom index in exactly one component. *)
Definition is_partition (n : nat) (mols : list (list nat)) : Prop :=
  concat mols ≡ₚ seq 0 n.

Definition type_of self (i : nat) : option Z := (a_type <$> atoms self) !! i.

(** Atoms of type [t] in a component. *)
Definition count_type self (mol : list nat) (t : Z) : nat :=
  length (filter (λ i, type_of self i = Some t) mol).

(** The composition of a component: its atom count for each of the
    types 1, ..., T. *)
Definition composition self (mol : list nat) : list nat :=
  (λ t, count_type self mol (Z.of_nat t)) <$> seq 1 (n_symbols self).

Definition symbol_of self (t : Z) : string :=
  default "" (atom_type_to_symbol self !! t).

(** The [<Symbol><Count>] groups of a composition: ascending type id,
    zero counts left out. *)
Definition groups self (c : list nat) : list string :=
  (λ p, symbol_of self (Z.of_nat p.1) +:+ pretty p.2)
    <$> filter (λ p, p.2 ≠ 0) (zip (seq 1 (length c)) c).

(** The formula string: the groups concatenated without separator. *)
Definition formula self (c : list nat) : string :=
  String.concat "" (groups self c).

(** The formula string of the earlier class: the groups joined by one
    space. *)
Definition spaced_formula self (c : list nat) : string :=
  String.concat " " (groups self c).

(** Distinct compositions present in the grouping have distinct formula
    strings. *)
Definition formula_injective_on self (mols : list (list nat)) : Prop :=
  ∀ mol1 mol2, mol1 ∈ mols → mol2 ∈ mols →
    formula self (composition self mol1)
    = formula self (composition self mol2) →
    composition self mol1 = composition self mol2.

(** The number of components whose formula string is [s]. *)
Definition components_with_formula self (mols : list (list nat)) (s : string)
  : nat :=
  length (filter (λ mol, formula self (composition self mol) = s) mols).

(** [sum(d.values())] *)
Definition sum_values (d : gmap string nat) : nat :=
  sum_list (map_to_list d).*2.

(** One step of the counting loop: the counter of the atom's type, at
    position type - 1, goes up by one. *)
Definition bump self (cnt : list nat) (atom_idx : nat) : list nat :=
  match type_of self atom_idx with
  | Some t => alter S (Z.to_nat (t - 1)) cnt
  | None => cnt
  end.

(** The tally of a sequence of compositions, in first-occurrence
    order. *)
Definition tally_of (cs : list (list nat)) : list (list nat * nat) :=
  foldl (λ tally c, dict_incr c tally) [] cs.

(** The composition tally of a grouping. *)
Definition composition_tally self (mols : list (list nat))
  : list (list nat * nat) :=
  tally_of (composition self <$> mols).

(** A table of counts with its keys formatted. *)
Definition keyed {K : Type} (fmt : K → string) (d : list (K * nat))
  : list (string * nat) :=
  (λ p, (fmt p.1, p.2)) <$> d.

(** The dictionary built from a table of counts under a key format,
    later entries overwriting earlier ones. *)
Definition render {K : Type} (fmt : K → string) (d : list (K * nat))
  : gmap string nat :=
  foldl (λ m p, <[fmt p.1 := p.2]> m) ∅ d.

(** ** Bond types *)

(** The key of the type pair (a, b). *)
Definition bond_key self (p : nat * nat) : string :=
  symbol_of self (Z.of_nat p.1) +:+ "-" +:+ symbol_of self (Z.of_nat p.2).

(** The type pairs (a, b), 1 ≤ a ≤ b ≤ T, in the order of the output
    loops. *)
Definition type_pairs (T : nat) : list (nat * nat) :=
  seq 1 T ≫= λ a, (λ b, (a, b)) <$> seq a (T + 1 - a).

(** The pairs of [es] whose first atom has type [a] and whose second atom
    has type [b], in this order. *)
Definition typed_pairs self (es : list (nat * nat)) (a b : nat) : nat :=
  length (filter (λ e, type_of self e.1 = Some (Z.of_nat a)
                       ∧ type_of self e.2 = Some (Z.of_nat b)) es).

(** Entry (a, b) of a matrix of counters, 0 outside. *)
Definition cell_of (M : list (list nat)) (a b : nat) : nat :=
  default 0 (M !! a ≫= λ row, row !! b).

(** One step of the bond loop on the pair (i, j): the counter at
    (type of i - 1, type of j - 1) goes up by one. *)
Definition bump_pair self (M : list (list nat)) (e : nat * nat)
  : list (list nat) :=
  match type_of self e.1, type_of self e.2 with
  | Some ti, Some tj =>
      <[Z.to_nat (ti - 1) :=
          alter S (Z.to_nat (tj - 1))
            (default [] (M !! Z.to_nat (ti - 1)))]> M
  | _, _ => M
  end.

(** The frame as [count_bonds] needs it: types within 1..T, a symbol
    for each type, and distinct keys for distinct type pairs. *)
Record bond_frame_wf self : Prop := {
  bond_types_in_range :
    ∀ a, a ∈ atoms self → (1 ≤ a_type a ≤ Z.of_nat (n_types self))%Z;
  bond_symbols_total :
    ∀ t, (1 ≤ t ≤ Z.of_nat (n_types self))%Z →
         is_Some (atom_type_to_symbol self !! t);
  bond_keys_distinct :
    ∀ p q, p ∈ type_pairs (n_types self) → q ∈ type_pairs (n_types self) →
           bond_key self p = bond_key self q → p = q
}.

End vocabulary.

(** ** Bond graphs *)

(** N(i), empty outside the list. *)
Definition neighbors_of (nl : list (list nat)) (i : nat) : list nat :=
  default [] (nl !! i).

(** j ∈ N(i) *)
Definition bonded (nl : list (list nat)) (i j : nat) : Prop :=
  j ∈ neighbors_of nl i.

(** A NeighborList over [n] atoms: one set of neighbors per atom,
    symmetric and without self-loops. *)
Record neighbor_list_wf (n : nat) (nl : list (list nat)) : Prop := {
  nl_length : length nl = n;
  nl_sets : ∀ i, NoDup (neighbors_of nl i);
  nl_symmetric : ∀ i j, bonded nl i j → bonded nl j i;
  nl_irreflexive : ∀ i, ¬ bonded nl i i
}.

(** The pairs (i, j), i < j, that atom [i] contributes, in the order of
    its neighbor row. *)
Definition row_edges (i : nat) (row : list nat) : list (nat * nat) :=
  (λ j, (i, j)) <$> filter (λ j, i < j) row.

(** The ascending pairs of the atoms [k], ..., [k + m - 1]. *)
Definition edges_from (nl : list (list nat)) (k m : nat) : list (nat * nat) :=
  seq k m ≫= λ i, row_edges i (neighbors_of nl i).

(** The count stored for key [k] in an insertion-ordered dictionary, 0
    when the key is absent. *)
Fixpoint stored (k : list nat) (d : list (list nat * nat)) : nat :=
  match d with
  | [] => 0
  | (k', n) :: d' => if decide (k = k') then n else stored k d'
  end.

(** * Example frames *)

Definition no_defaults {num : Type} : Defaults num :=
  {| default_bond_length := None; default_cut_off := None |}.

(** An atom at the origin with velocity [(vx, vy, vz)]. *)
Definition atom_of {num : Type} `{PyNum num} (t : Z) (vx vy vz : num)
  : Atom num :=
  {| a_type := t; a_x := nzero; a_y := nzero; a_z := nzero;
     a_vx := vx; a_vy := vy; a_vz := vz |}.

(** One water molecule, the oxygen listed first, and one hydrogen
    molecule; type 1 is H, type 2 is O; masses [mH] and [mO]; every
    atom moves with velocity [(vx, vy, vz)]. *)
Definition water_h2 {num : Type} `{PyNum num} (cell : list num)
    (mH mO vx vy vz : num) : Frame num :=
  {| atoms := [atom_of 2 vx vy vz; atom_of 1 vx vy vz; atom_of 1 vx vy vz;
               atom_of 1 vx vy vz; atom_of 1 vx vy vz];
     cell := cell;
     atom_symbol_to_type := {[ "H" := 1%Z; "O" := 2%Z ]};
     atom_type_to_symbol := {[ 1%Z := "H"; 2%Z := "O" ]};
     atom_type_to_mass := {[ 1%Z := mH; 2%Z := mO ]};
     limda_default := no_defaults |}.

(** Its bond graph (O-H, O-H, H-H) and its two components, as the
    compiled routines would return them. *)
Definition water_h2_bonds : list (list nat) := [[1; 2]; [0]; [0]; [4]; [3]].
Definition water_h2_neighbors {num : Type}
  : NeighborArgs num → result (list (list nat)) :=
  λ _, Ok water_h2_bonds.
Definition water_h2_mols
  : list (list nat) → nat → result (list (list nat)) :=
  λ _ _, Ok [[0; 1; 2]; [3; 4]].

(** That frame over the rationals: cubic cell of side 10, masses 1 and
    16, velocity (1, -2, 1/2). *)
Definition sample : Frame Q :=
  @water_h2 Q Q_PyNum [10; 10; 10]%Q 1%Q 16%Q 1%Q (-2)%Q (1 # 2)%Q.

(** And over binary64, at rest in a 4.5 × 12 × 14 cell. *)
Definition sample64 : Frame float :=
  @water_h2 float float_PyNum [4.5; 12; 14]%float 1%float 16%float
    0%float 0%float 0%float.

(** Eleven atoms of a type named "H" in one component and one atom of a
    type named "H1" in another. *)
Definition colliding : Frame Q :=
  {| atoms := replicate 11 (@atom_of Q Q_PyNum 1%Z 0%Q 0%Q 0%Q)
              ++ [@atom_of Q Q_PyNum 2%Z 0%Q 0%Q 0%Q];
     cell := [10; 10; 10]%Q;
     atom_symbol_to_type := {[ "H" := 1%Z; "H1" := 2%Z ]};
     atom_type_to_symbol := {[ 1%Z := "H"; 2%Z := "H1" ]};
     atom_type_to_mass := {[ 1%Z := 1%Q; 2%Z := 1%Q ]};
     limda_default := no_defaults |}.
Definition colliding_neighbors
  : NeighborArgs Q → result (list (list nat)) :=
  λ _, Ok (replicate 12 []).
Definition colliding_mols
  : list (list nat) → nat → result (list (list nat)) :=
  λ _ _, Ok [seq 0 11; [11]].

(** ** Groups of components *)

(** The components stored for key [k] in an insertion-ordered
    dictionary, none when the key is absent. *)
Fixpoint stored_group (k : list nat) (d : list (list nat * list (list nat)))
  : list (list nat) :=
  match d with
  | [] => []
  | (k', mols) :: d' => if decide (k = k') then mols else stored_group k d'
  end.

(** The dictionary of groups with each group replaced by its size. *)
Definition sizes (d : list (list nat * list (list nat)))
  : list (list nat * nat) :=
  (λ p, (p.1, length p.2)) <$> d.

(** The components of a grouping collected by composition, in
    first-occurrence order. *)
Definition group_tally {num : Type} (self : Frame num)
    (mols : list (list nat)) : list (list nat * list (list nat)) :=
  foldl (λ d mol, dict_append (composition self mol) mol d) [] mols.

(** The type of atom [i] is one that indexes the counter list without
    an exception: within 1..T, or within 1-T..0, which Python's negative
    indexing accepts. *)
Definition type_indexes {num : Type} (self : Frame num) (i : nat) : Prop :=
  ∃ t, type_of self i = Some t
       ∧ (1 - Z.of_nat (n_symbols self) ≤ t ≤ Z.of_nat (n_symbols self))%Z.

(** The counter a type id lands on. *)
Definition slot (T : nat) (t : Z) : nat :=
  if bool_decide (1 ≤ t)%Z then Z.to_nat (t - 1)
  else Z.to_nat (Z.of_nat T + (t - 1)).

(** The counters as the loop leaves them: counter k (for type k) holds
    the atoms of type k and those of type k - T. *)
Definition wrapped_composition {num : Type} (self : Frame num)
    (mol : list nat) : list nat :=
  (λ k, length (filter (λ i, type_of self i = Some (Z.of_nat k)
                             ∨ type_of self i
                               = Some (Z.of_nat k - Z.of_nat (n_symbols self))%Z)
                  mol))
    <$> seq 1 (n_symbols self).

(** The body of the counting loop. *)
Definition count_step {num : Type} (self : Frame num)
    (atom_type_count : list nat) (atom_idx : nat) : result (list nat) :=
  py_get (a_type <$> atoms self) atom_idx ≫= λ t,
  incr_at1 atom_type_count (t - 1)%Z.

(** One step of the counting loop with the wrap-around. *)
Definition bump_wrapped {num : Type} (self : Frame num) (cnt : list nat)
    (atom_idx : nat) : list nat :=
  match type_of self atom_idx with
  | Some t => alter S (slot (n_symbols self) t) cnt
  | None => cnt
  end.

(** [{key: len(group) for key, group in d.items()}] *)
Definition group_sizes (d : gmap string (list (list nat)))
  : gmap string nat :=
  length <$> d.

(** The dictionary built from a table of values under a key format,
    later entries overwriting earlier ones. *)
Definition render_values {K V : Type} (fmt : K → string) (d : list (K * V))
  : gmap string V :=
  foldl (λ m p, <[fmt p.1 := p.2]> m) ∅ d.

(** A frame without atoms and without atom types. *)
Definition bare : Frame Q :=
  {| atoms := [];
     cell := [10; 10; 10]%Q;
     atom_symbol_to_type := ∅;
     atom_type_to_symbol := ∅;
     atom_type_to_mass := ∅;
     limda_default :=
       {| default_bond_length := None; default_cut_off := Some (3 # 2)%Q |} |}.

(** The frame with its atoms removed; the tables stay. *)
Definition without_atoms {num : Type} (self : Frame num) : Frame num :=
  {| atoms := [];
     cell := cell self;
     atom_symbol_to_type := atom_symbol_to_type self;
     atom_type_to_symbol := atom_type_to_symbol self;
     atom_type_to_mass := atom_type_to_mass self;
     limda_default := limda_default self |}.

(** Two atoms without a bond, each a component of its own. *)
Definition apart_neighbors
  : NeighborArgs Q → result (list (list nat)) :=
  λ _, Ok [[]; []].
Definition apart_mols
  : list (list nat) → nat → result (list (list nat)) :=
  λ _ _, Ok [[0]; [1]].

(** An atom of type 0 and an atom of type 1 under the types H (1) and
    O (2). *)
Definition zero_typed : Frame Q :=
  {| atoms := [@atom_of Q Q_PyNum 0%Z 0%Q 0%Q 0%Q;
               @atom_of Q Q_PyNum 1%Z 0%Q 0%Q 0%Q];
     cell := [10; 10; 10]%Q;
     atom_symbol_to_type := {[ "H" := 1%Z; "O" := 2%Z ]};
     atom_type_to_symbol := {[ 1%Z := "H"; 2%Z := "O" ]};
     atom_type_to_mass := {[ 1%Z := 1%Q; 2%Z := 16%Q ]};
     limda_default := no_defaults |}.

(** An atom of type 1 and an atom of type 2 under tables that know the
    types 1 and 3 only. *)
Definition gapped : Frame Q :=
  {| atoms := [@atom_of Q Q_PyNum 1%Z 1%Q 0%Q 0%Q;
               @atom_of Q Q_PyNum 2%Z 1%Q 0%Q 0%Q];
     cell := [10; 10; 10]%Q;
     atom_symbol_to_type := {[ "H" := 1%Z; "O" := 3%Z ]};
     atom_type_to_symbol := {[ 1%Z := "H"; 3%Z := "O" ]};
     atom_type_to_mass := {[ 1%Z := 1%Q; 3%Z := 16%Q ]};
     limda_default := no_defaults |}.

(** A grouping of the sample frame that names an atom index past the
    end, and a bond graph of it that lacks the last two rows. *)
Definition overrun_mols
  : list (list nat) → nat → result (list (list nat)) :=
  λ _ _, Ok [[0; 1; 2]; [3; 4; 7]].
Definition short_neighbors
  : NeighborArgs Q → result (list (list nat)) :=
  λ _, Ok [[1; 2]; [0]; [0]].

(** The stored pairs (i, j), j ∈ N(i), of the atoms 0, ..., n-1. *)
Definition directed_pairs (nl : list (list nat)) (n : nat)
  : list (nat * nat) :=
  seq 0 n ≫= λ i, (λ j, (i, j)) <$> neighbors_of nl i.

(** The type of the first atom of a pair is not above the type of the
    second. *)
Definition type_ascending {num : Type} (self : Frame num) (e : nat * nat)
  : bool :=
  match type_of self e.1, type_of self e.2 with
  | Some a, Some b => bool_decide (a ≤ b)%Z
  | _, _ => false
  end.

(** The pairs of [es] that [count_bonds] reports. *)
Definition ascending_pairs {num : Type} (self : Frame num)
    (es : list (nat * nat)) : list (nat * nat) :=
  filter (λ e, Is_true (type_ascending self e)) es.

(** The pairs of [es] that join an atom of type [a] and an atom of type
    [b], in either order. *)
Definition bonds_between {num : Type} (self : Frame num)
    (es : list (nat * nat)) (a b : nat) : nat :=
  length (filter (λ e, (type_of self e.1 = Some (Z.of_nat a)
                        ∧ type_of self e.2 = Some (Z.of_nat b))
                       ∨ (type_of self e.1 = Some (Z.of_nat b)
                          ∧ type_of self e.2 = Some (Z.of_nat a))) es).

(** The water and hydrogen molecules with the atoms of each molecule in
    ascending type: H, H, O, then H, H. *)
Definition sorted_water : Frame Q :=
  {| atoms := [@atom_of Q Q_PyNum 1%Z 0%Q 0%Q 0%Q;
               @atom_of Q Q_PyNum 1%Z 0%Q 0%Q 0%Q;
               @atom_of Q Q_PyNum 2%Z 0%Q 0%Q 0%Q;
               @atom_of Q Q_PyNum 1%Z 0%Q 0%Q 0%Q;
               @atom_of Q Q_PyNum 1%Z 0%Q 0%Q 0%Q];
     cell := [10; 10; 10]%Q;
     atom_symbol_to_type := {[ "H" := 1%Z; "O" := 2%Z ]};
     atom_type_to_symbol := {[ 1%Z := "H"; 2%Z := "O" ]};
     atom_type_to_mass := {[ 1%Z := 1%Q; 2%Z := 16%Q ]};
     limda_default := no_defaults |}.
Definition sorted_water_bonds : list (list nat) :=
  [[2]; [2]; [0; 1]; [4]; [3]].
Definition sorted_water_neighbors
  : NeighborArgs Q → result (list (list nat)) :=
  λ _, Ok sorted_water_bonds.

(** Two runs end alike: both return, or both raise the same
    exception. *)
Definition alike {A B : Type} (r1 : result A) (r2 : result B) : Prop :=
  match r1, r2 with
  | Ok _, Ok _ => True
  | Err e1, Err e2 => e1 = e2
  | _, _ => False
  end.

(** A bond graph of the sample frame whose first row also names an atom
    index past the end. *)
Definition dangling_bonds : list (list nat) :=
  [[1; 2; 9]; [0]; [0]; [4]; [3]].
Definition dangling_neighbors
  : NeighborArgs Q → result (list (list nat)) :=
  λ _, Ok dangling_bonds.

(** ** Exact sums *)

Section exact.
Context {num : Type} `{PyNum num}.

(** The products one velocity column contributes, in atom order. *)
Definition momentum_terms (mass : Z → num) (types : list Z)
    (velocities : list num) : list num :=
  zip_with nmul velocities (mass <$> types).

(** No addition rounds up to the bound [B]: under the integer reading
    [val] of the numbers, zero reads 0, the sum of two numbers reads the
    sum of their readings as long as their magnitudes together stay
    within [B], and a number within [B] is determined by its reading.
    On binary64 the integers up to 2^53 are read this way, and so is
    any set of numbers on a common power-of-two grid. *)
Record exact_within (val : num → Z) (B : Z) : Prop := {
  ew_zero : val nzero = 0%Z;
  ew_add : ∀ x y, (Z.abs (val x) + Z.abs (val y) ≤ B)%Z →
                  val (nadd x y) = (val x + val y)%Z;
  ew_inj : ∀ x y, (Z.abs (val x) ≤ B)%Z → (Z.abs (val y) ≤ B)%Z →
                  val x = val y → x = y
}.

(** The magnitudes of the items of a row, added up. *)
Definition weight (val : num → Z) (l : list num) : Z :=
  foldr (λ x w, (Z.abs (val x) + w)%Z) 0%Z l.

(** The readings of the items of a row, added up. *)
Definition total (val : num → Z) (l : list num) : Z :=
  foldr (λ x s, (val x + s)%Z) 0%Z l.

End exact.

(** The binary64 number of a small integer, and the integer a binary64
    number stands for when it is one of -B, ..., B ([B + 1]
    otherwise). *)
Definition float_of_Z (k : Z) : float :=
  match k with
  | Z0 => 0%float
  | Zpos p => Nat.iter (Pos.to_nat p) (λ x, PrimFloat.add x 1%float) 0%float
  | Zneg p => Nat.iter (Pos.to_nat p) (λ x, PrimFloat.sub x 1%float) 0%float
  end.

Definition int_value (B : Z) (x : float) : Z :=
  match List.find (λ k, PrimFloat.Leibniz.eqb x (float_of_Z k))
          (seqZ (- B) (2 * B + 1)) with
  | Some k => k
  | None => (B + 1)%Z
  end.

(** The same check on every pair of integers within the bound. *)
Definition int_value_check (B : Z) : bool :=
  forallb (λ k, forallb (λ j,
      implb (Z.abs k + Z.abs j <=? B)%Z
        (int_value B (PrimFloat.add (float_of_Z k) (float_of_Z j))
         =? k + j)%Z)
    (seqZ (- B) (2 * B + 1))) (seqZ (- B) (2 * B + 1)).

(** Ten atoms over binary64, types H (mass 1) and O (mass 4), with
    small integer velocities. *)
Definition drift64 : Frame float :=
  {| atoms :=
       [@atom_of float float_PyNum 2%Z 1%float 1%float (-1)%float;
        @atom_of float float_PyNum 1%Z (-1)%float 1%float 0%float;
        @atom_of float float_PyNum 1%Z 2%float 1%float 3%float;
        @atom_of float float_PyNum 2%Z 0%float 1%float 1%float;
        @atom_of float float_PyNum 1%Z 1%float 1%float (-2)%float;
        @atom_of float float_PyNum 1%Z 1%float 1%float 0%float;
        @atom_of float float_PyNum 1%Z (-2)%float 1%float 1%float;
        @atom_of float float_PyNum 1%Z 1%float 1%float 1%float;
        @atom_of float float_PyNum 2%Z 1%float 1%float (-1)%float;
        @atom_of float float_PyNum 1%Z (-1)%float 1%float 2%float];
     cell := [10; 10; 10]%float;
     atom_symbol_to_type := {[ "H" := 1%Z; "O" := 2%Z ]};
     atom_type_to_symbol := {[ 1%Z := "H"; 2%Z := "O" ]};
     atom_type_to_mass := {[ 1%Z := 1%float; 2%Z := 4%float ]};
     limda_default := no_defaults |}.

(** Eight atoms of mass 1 over binary64, the first moving at 1e16 along
    x and the others at 1. *)
Definition heavy64 : Frame float :=
  {| atoms :=
       @atom_of float float_PyNum 1%Z 1e16%float 0%float 0%float
       :: replicate 7 (@atom_of float float_PyNum 1%Z 1%float 0%float 0%float);
     cell := [10; 10; 10]%float;
     atom_symbol_to_type := {[ "H" := 1%Z ]};
     atom_type_to_symbol := {[ 1%Z := "H" ]};
     atom_type_to_mass := {[ 1%Z := 1%float ]};
     limda_default := no_defaults |}.

(** * Generic facts about the monad and the built-ins *)

Lemma bind_Ok {A B : Type} (a : A) (f : A → result B) : (Ok a ≫= f) = f a.
Proof. reflexivity. Qed.

Lemma foldM_app {A B : Type} (f : B → A → result B) (b : B) (l k : list A) :
  foldM f b (l ++ k) = (foldM f b l ≫= λ b', foldM f b' k).
Proof.
  revert b. induction l as [|x l IH]; intros b; simpl; [done|].
  destruct (f b x) as [b'|e]; simpl; [apply IH | done].
Qed.

(** A loop whose body cannot raise is a plain left fold. *)
Lemma foldM_pure {A B : Type} (f : B → A → result B) (g : B → A → B)
    (b : B) (l : list A) :
  (∀ b x, x ∈ l → f b x = Ok (g b x)) → foldM f b l = Ok (foldl g b l).
Proof.
  revert b. induction l as [|x l IH]; intros b Hf; simpl; [done|].
  rewrite Hf by left. simpl. apply IH. intros b' y Hy. apply Hf. by right.
Qed.

Lemma py_get_Ok {A : Type} (l : list A) (i : nat) (x : A) :
  l !! i = Some x → py_get l i = Ok x.
Proof. unfold py_get. by intros ->. Qed.

Lemma py_index_Ok (n : nat) (i : nat) :
  i < n → py_index n (Z.of_nat i) = Ok i.
Proof.
  intros Hi. unfold py_index. rewrite bool_decide_eq_true_2 by lia.
  by rewrite Nat2Z.id.
Qed.

Lemma dict_get_Ok `{Countable K} {V : Type} (d : gmap K V) (k : K) (v : V) :
  d !! k = Some v → dict_get d k = Ok v.
Proof. unfold dict_get. by intros ->. Qed.

(** The row-by-row shape assertion of [get_neighbor_list]. *)
Lemma shape_loop {A : Type} (n : nat) (msg : string) (rows : list (list A)) :
  foldM (λ (_ : unit) row, py_assert (length row =? n) msg) () rows
  = if forallb (λ row, length row =? n) rows
    then Ok () else Err (AssertionError msg).
Proof.
  induction rows as [|row rows IH]; simpl; [done|].
  destruct (length row =? n); simpl; [apply IH | done].
Qed.

Lemma forallb_length {A : Type} (n : nat) (rows : list (list A)) :
  forallb (λ row, length row =? n) rows = true
  ↔ Forall (λ row, length row = n) rows.
Proof.
  rewrite forallb_forall, Forall_forall. setoid_rewrite Nat.eqb_eq.
  by setoid_rewrite list_elem_of_In.
Qed.

Section order.
Context {num : Type} `{PyNum num}.
Implicit Types P : num → Prop.

Lemma strict_weak_on_impl P P' :
  (∀ x, P' x → P x) → strict_weak_on P → strict_weak_on P'.
Proof. intros HP [Hi Ht Hn]. split; eauto. Qed.

Lemma strict_weak_check_sound (l : list num) :
  strict_weak_check l = true → strict_weak_on (.∈ l).
Proof.
  unfold strict_weak_check.
  intros [Hi Hall]%andb_true_iff.
  rewrite forallb_forall in Hi.
  assert (∀ x y z, x ∈ l → y ∈ l → z ∈ l →
            implb (nlt x y && nlt y z) (nlt x z)
            && implb (negb (nlt x y) && negb (nlt y z)) (negb (nlt x z))
            = true) as Htriple.
  { intros x y z Hx%list_elem_of_In Hy%list_elem_of_In Hz%list_elem_of_In.
    rewrite forallb_forall in Hall. specialize (Hall x Hx).
    rewrite forallb_forall in Hall. specialize (Hall y Hy).
    rewrite forallb_forall in Hall. by apply Hall. }
  split.
  - intros x Hx%list_elem_of_In. by apply negb_true_iff, Hi.
  - intros x y z Hx Hy Hz Hxy Hyz.
    specialize (Htriple x y z Hx Hy Hz). rewrite Hxy, Hyz in Htriple.
    by destruct (nlt x z).
  - intros x y z Hx Hy Hz Hxy Hyz.
    specialize (Htriple x y z Hx Hy Hz). rewrite Hxy, Hyz in Htriple.
    by destruct (nlt x z).
Qed.

Lemma py_max_loop P (seen rest : list num) (cur : num) :
  strict_weak_on P → (∀ x, x ∈ seen ++ rest → P x) →
  cur ∈ seen → (∀ x, x ∈ seen → nlt cur x = false) →
  ∃ m, foldM (λ maxitem item,
                py_gt item maxitem ≫= λ b : bool,
                Ok (if b then item else maxitem))
             (Some cur) (Some <$> rest) = Ok (Some m)
       ∧ m ∈ seen ++ rest
       ∧ ∀ x, x ∈ seen ++ rest → nlt m x = false.
Proof.
  intros [Hirr Htrans _]. revert seen cur.
  induction rest as [|item rest IH]; intros seen cur HP Hin Hub.
  - exists cur. rewrite app_nil_r. done.
  - assert (P cur) by (apply HP, elem_of_app; by left).
    assert (P item) by (apply HP, elem_of_app; right; by left).
    assert (∀ x, x ∈ (seen ++ [item]) ++ rest → P x) as HP'
      by (intros x Hx; apply HP; by rewrite <-(assoc_L (++)) in Hx).
    simpl.
    destruct (nlt cur item) eqn:Hlt.
    + destruct (IH (seen ++ [item]) item) as (m & Hm & Hmin & Hmub).
      * done.
      * apply elem_of_app. right. by left.
      * intros x [Hx|Hx]%elem_of_app.
        -- destruct (nlt item x) eqn:Hix; [|done].
           assert (P x) by (apply HP, elem_of_app; by left).
           rewrite <-(Hub x Hx). symmetry. by apply (Htrans cur item x).
        -- apply list_elem_of_singleton in Hx as ->. by apply Hirr.
      * exists m. rewrite <-(assoc_L (++)) in Hmin, Hmub. done.
    + destruct (IH (seen ++ [item]) cur) as (m & Hm & Hmin & Hmub).
      * done.
      * apply elem_of_app. by left.
      * intros x [Hx|Hx]%elem_of_app; [by apply Hub|].
        by apply list_elem_of_singleton in Hx as ->.
      * exists m. rewrite <-(assoc_L (++)) in Hmin, Hmub. done.
Qed.

(** On comparable numbers, [max] returns an item that no item
    exceeds. *)
Lemma py_max_spec P (x : num) (l : list num) :
  strict_weak_on P → (∀ y, y ∈ x :: l → P y) →
  ∃ m, py_max (Some <$> x :: l) = Ok (Some m)
       ∧ m ∈ x :: l ∧ ∀ y, y ∈ x :: l → nlt m y = false.
Proof.
  intros Hswo HP.
  destruct (py_max_loop P [x] l x) as (m & Hm & Hin & Hub); try done.
  - by left.
  - intros y ->%list_elem_of_singleton.
    apply (swo_irrefl _ Hswo), HP. by left.
  - by exists m.
Qed.

Lemma py_min_loop P (seen rest : list num) (cur : num) :
  strict_weak_on P → (∀ x, x ∈ seen ++ rest → P x) →
  cur ∈ seen → (∀ x, x ∈ seen → nlt x cur = false) →
  ∃ m, fold_left (λ minitem item,
                    if nlt item minitem then item else minitem) rest cur = m
       ∧ m ∈ seen ++ rest
       ∧ ∀ x, x ∈ seen ++ rest → nlt x m = false.
Proof.
  intros [Hirr Htrans _]. revert seen cur.
  induction rest as [|item rest IH]; intros seen cur HP Hin Hlb.
  - exists cur. rewrite app_nil_r. done.
  - assert (P cur) by (apply HP, elem_of_app; by left).
    assert (P item) by (apply HP, elem_of_app; right; by left).
    assert (∀ x, x ∈ (seen ++ [item]) ++ rest → P x) as HP'
      by (intros x Hx; apply HP; by rewrite <-(assoc_L (++)) in Hx).
    simpl.
    destruct (nlt item cur) eqn:Hlt.
    + destruct (IH (seen ++ [item]) item) as (m & Hm & Hmin & Hmlb).
      * done.
      * apply elem_of_app. right. by left.
      * intros x [Hx|Hx]%elem_of_app.
        -- destruct (nlt x item) eqn:Hxi; [|done].
           assert (P x) by (apply HP, elem_of_app; by left).
           rewrite <-(Hlb x Hx). symmetry. by apply (Htrans x item cur).
        -- apply list_elem_of_singleton in Hx as ->. by apply Hirr.
      * exists m. rewrite <-(assoc_L (++)) in Hmin, Hmlb. done.
    + destruct (IH (seen ++ [item]) cur) as (m & Hm & Hmin & Hmlb).
      * done.
      * apply elem_of_app. by left.
      * intros x [Hx|Hx]%elem_of_app; [by apply Hlb|].
        by apply list_elem_of_singleton in Hx as ->.
      * exists m. rewrite <-(assoc_L (++)) in Hmin, Hmlb. done.
Qed.

Lemma py_min_spec (x : num) (l : list num) :
  strict_weak_on (.∈ x :: l) →
  ∃ m, py_min (x :: l) = Ok m
       ∧ m ∈ x :: l ∧ ∀ y, y ∈ x :: l → nlt y m = false.
Proof.
  intros Hswo.
  destruct (py_min_loop (.∈ x :: l) [x] l x) as (m & Hm & Hin & Hlb);
    try done.
  - by left.
  - intros y ->%list_elem_of_singleton.
    apply (swo_irrefl _ Hswo). by left.
  - exists m. unfold py_min. by rewrite Hm.
Qed.

End order.

(** * The neighbor-list front end, [get_neighbor_list] *)

Section neighbor_front_end.
Context {num : Type} `{PyNum num}.
Implicit Types (self : Frame num) (cut_off : option num).
Implicit Types (bond_length : option (list (list num))).
Implicit Types cy : NeighborArgs num → result (list (list nat)).

Lemma resolved_unfold {A : Type} (arg dflt : option A) :
  match arg with None => dflt | Some a => Some a end = resolved arg dflt.
Proof. done. Qed.

(** C4: when no threshold source is resolvable -- mode ["cut_off"] with
    no [cut_off] argument and none in [limda_default], or mode
    ["bond_length"] with no matrix argument and none in [limda_default] --
    [get_neighbor_list] raises; the exception does not depend on the
    search routine, which is not reached. *)
Theorem get_neighbor_list_unresolvable self mode cut_off bond_length :
  (mode = "cut_off" ∧ cut_off = None
   ∧ default_cut_off (limda_default self) = None)
  ∨ (mode = "bond_length" ∧ bond_length = None
     ∧ default_bond_length (limda_default self) = None) →
  ∃ e, ∀ cy,
    AnalyzeFrame.get_neighbor_list cy self mode cut_off bond_length = Err e.
Proof.
  intros [(-> & -> & Hd)|(-> & -> & Hd)].
  - exists (match n_types self with 0 => ValueError | _ => TypeError end).
    intros cy. unfold AnalyzeFrame.get_neighbor_list. rewrite Hd.
    cbn [py_assert bool_decide orb]. simpl.
    fold (n_types self).
    destruct (n_types self) as [|[|n]]; done.
  - exists TypeError. intros cy.
    unfold AnalyzeFrame.get_neighbor_list. by rewrite Hd.
Qed.

(** C3, amended: in mode ["bond_length"], a supplied or default-resolved
    matrix that is not T×T makes [get_neighbor_list] fail its shape
    assertion; the exception is the same for every search routine, so
    it is raised before the search and nothing is returned. *)
Theorem get_neighbor_list_rejects_bad_shape
    cy self cut_off bond_length (M : list (list num)) :
  resolved bond_length (default_bond_length (limda_default self)) = Some M →
  ¬ is_square (n_types self) M →
  AnalyzeFrame.get_neighbor_list cy self "bond_length" cut_off bond_length
  = Err (AssertionError "Incorrect format of bond length").
Proof.
  intros Hres Hshape. unfold AnalyzeFrame.get_neighbor_list.
  rewrite resolved_unfold, Hres. cbn [py_assert bool_decide orb]. simpl.
  fold (n_types self).
  destruct (length M =? n_types self) eqn:Hlen; simpl; [|done].
  rewrite shape_loop.
  destruct (forallb _ M) eqn:Hrows; simpl; [|done].
  destruct Hshape. split; [by apply Nat.eqb_eq | by apply forallb_length].
Qed.

(** Row maxima of a matrix of comparable numbers without empty rows. *)
Lemma mapM_py_max_rows (M M' : list (list num)) :
  strict_weak_on (entry_of M') → (∀ row, row ∈ M → row ∈ M') →
  Forall (λ row, row ≠ []) M →
  ∃ ms : list num, mapM py_max (map (map Some) M) = Ok (Some <$> ms)
        ∧ Forall2 (λ row m, m ∈ row ∧ ∀ x, x ∈ row → nlt m x = false) M ms.
Proof.
  intros Hswo Hsub Hrows. induction Hrows as [|row M Hrow _ IH].
  - by exists [].
  - destruct IH as (ms & Hms & Hall).
    { intros r Hr. apply Hsub. by right. }
    destruct row as [|x row]; [done|].
    destruct (py_max_spec (entry_of M') x row Hswo) as (m & Hm & Hin & Hub).
    { intros y Hy. exists (x :: row). split; [|done]. apply Hsub. by left. }
    exists (m :: ms). split; [|by constructor].
    transitivity (py_max (Some <$> x :: row) ≫= λ y,
                  mapM py_max (map (map Some) M) ≫= λ k, Ok (y :: k));
      [reflexivity|].
    by rewrite Hm, bind_Ok, Hms.
Qed.

Lemma matrix_max (M : list (list num)) :
  strict_weak_on (entry_of M) →
  M ≠ [] → Forall (λ row, row ≠ []) M →
  ∃ m : num, (mapM py_max (map (map Some) M) ≫= py_max) = Ok (Some m)
       ∧ is_max_entry M m.
Proof.
  intros Hswo HM Hrows.
  destruct (mapM_py_max_rows M M Hswo) as (ms & -> & Hall); [done..|].
  assert (∀ r, r ∈ ms → entry_of M r) as Hms.
  { intros r [i Hi]%list_elem_of_lookup.
    destruct (Forall2_lookup_r _ _ _ _ _ Hall Hi) as (row & Hrow & Hr & _).
    exists row. split; [|done]. by eapply list_elem_of_lookup_2. }
  destruct ms as [|r ms].
  { apply Forall2_nil_inv_r in Hall. done. }
  destruct (py_max_spec (entry_of M) r ms Hswo Hms) as (m & Hm & Hin & Hub).
  exists m. rewrite bind_Ok. split; [done|]. split; [by apply Hms|].
  intros x (row & Hrow & Hx).
  pose proof Hrow as [i Hi]%list_elem_of_lookup.
  destruct (Forall2_lookup_l _ _ _ _ _ Hall Hi) as (r' & Hr' & _ & Hr'ub).
  assert (r' ∈ r :: ms) as Hr'in by by eapply list_elem_of_lookup_2.
  apply (swo_negtrans _ Hswo m r' x); auto.
  by exists row.
Qed.

Lemma threshold_matrix_nonempty self mode cut_off bond_length M :
  0 < n_types self →
  threshold_matrix self mode cut_off bond_length M →
  M ≠ [] ∧ Forall (λ row, row ≠ []) M.
Proof.
  intros HT [co bl c _|co bl M' _ [Hlen Hrows]].
  - split.
    + intros Hnil%(f_equal length). rewrite length_replicate in Hnil. simpl in Hnil. lia.
    + apply Forall_replicate.
      intros Hnil%(f_equal length). rewrite length_replicate in Hnil. simpl in Hnil. lia.
  - split.
    + intros ->. simpl in Hlen. lia.
    + eapply Forall_impl; [exact Hrows|]. intros row Hrow ->.
      simpl in Hrow. lia.
Qed.

(** The working matrix of the code is the spec's threshold matrix. *)
Lemma threshold_matrix_resolved cy self mode cut_off bond_length M :
  threshold_matrix self mode cut_off bond_length M →
  AnalyzeFrame.get_neighbor_list cy self mode cut_off bond_length
  = (mapM py_max (map (map Some) M) ≫= py_max) ≫= λ m,
    py_add m lit_0_01 ≫= λ mesh_length,
    py_min (cell self) ≫= λ min_cell,
    cy {| arg_atoms_type := a_type <$> atoms self;
          arg_atoms_pos :=
            [a_x <$> atoms self; a_y <$> atoms self; a_z <$> atoms self];
          arg_mesh_length :=
            if nlt min_cell (nmul mesh_length lit_3)
            then ndiv min_cell lit_3 else mesh_length;
          arg_atom_num := get_total_atoms self;
          arg_bond_length := map (map Some) M;
          arg_cell := cell self |}.
Proof.
  intros [co bl c Hres|co bl M' Hres [Hlen Hrows]];
    unfold AnalyzeFrame.get_neighbor_list; unfold resolved in Hres;
    cbn [py_assert bool_decide orb]; simpl; rewrite Hres; simpl;
    fold (n_types self).
  - replace (map (map Some) (replicate (n_types self)
                                (replicate (n_types self) c)))
      with (replicate (n_types self) (replicate (n_types self) (Some c))).
    2:{ change (map (map Some))
          with (fmap (M:=list) (fmap (M:=list) (@Some num))).
        by rewrite !fmap_replicate. }
    by destruct (mapM py_max _) as [row_max|e].
  - apply Nat.eqb_eq in Hlen as ->. simpl. rewrite shape_loop.
    apply forallb_length in Hrows as ->. simpl.
    by destruct (mapM py_max _) as [row_max|e].
Qed.

(** C5: for thresholds and cell lengths that are comparable (no NaN),
    at least one atom type and a cell of three axes, the mesh length
    handed to the neighbor search is a maximal entry of the threshold
    matrix plus 0.01, replaced by min(Lx,Ly,Lz)/3 when three times that
    value exceeds min(Lx,Ly,Lz); in mode ["cut_off"] the threshold
    matrix is the scalar broadcast into a uniform T×T matrix
    ([threshold_matrix]). *)
Theorem mesh_length_of_thresholds
    cy self mode cut_off bond_length (M : list (list num)) (Lx Ly Lz : num) :
  cell self = [Lx; Ly; Lz] →
  0 < n_types self →
  threshold_matrix self mode cut_off bond_length M →
  strict_weak_on (entry_of M) →
  strict_weak_on (.∈ [Lx; Ly; Lz]) →
  ∃ max_threshold min_cell,
    is_max_entry M max_threshold
    ∧ is_min_of [Lx; Ly; Lz] min_cell
    ∧ AnalyzeFrame.get_neighbor_list cy self mode cut_off bond_length
      = cy {| arg_atoms_type := a_type <$> atoms self;
              arg_atoms_pos :=
                [a_x <$> atoms self; a_y <$> atoms self; a_z <$> atoms self];
              arg_mesh_length := clamped_mesh_length max_threshold min_cell;
              arg_atom_num := length (atoms self);
              arg_bond_length := map (map Some) M;
              arg_cell := [Lx; Ly; Lz] |}.
Proof.
  intros Hcell HT HM HswoM Hswoc.
  destruct (threshold_matrix_nonempty _ _ _ _ _ HT HM) as [Hne Hrows].
  destruct (matrix_max M HswoM Hne Hrows) as (mx & Hmx & Hmax).
  destruct (py_min_spec Lx [Ly; Lz] Hswoc) as (mn & Hmn & Hmin).
  exists mx, mn. split; [done|]. split; [done|].
  rewrite (threshold_matrix_resolved cy _ _ _ _ _ HM), Hmx, Hcell, Hmn.
  reflexivity.
Qed.

End neighbor_front_end.

(** ** The front end on the sample frame *)

(** C3 as stated fails: a 2×2 matrix with negative entries passes the
    front end, which hands it to the search routine unchanged (with the
    mesh length 4.5 / 3, the clamp of 1.5 + 0.01). *)
Lemma negative_bond_length_reaches_search :
  @has_negative float float_PyNum [[1.5; -1]; [-1; 1.5]]%float
  ∧ ∀ cy : NeighborArgs float → result (list (list nat)),
      @AnalyzeFrame.get_neighbor_list float float_PyNum cy
        sample64 "bond_length" None
        (Some [[1.5; -1]; [-1; 1.5]]%float)
      = cy {| arg_atoms_type := [2; 1; 1; 1; 1]%Z;
              arg_atoms_pos :=
                [[0; 0; 0; 0; 0]; [0; 0; 0; 0; 0]; [0; 0; 0; 0; 0]]%float;
              arg_mesh_length := 1.5%float;
              arg_atom_num := 5;
              arg_bond_length :=
                [[Some 1.5; Some (-1)]; [Some (-1); Some 1.5]]%float;
              arg_cell := [4.5; 12; 14]%float |}.
Proof.
  split.
  - exists (-1)%float. split; [|reflexivity].
    exists [1.5; -1]%float. split; [left | right; left].
  - intros cy. reflexivity.
Qed.

Lemma get_neighbor_list_rejects_bad_shape_witness :
  @AnalyzeFrame.get_neighbor_list Q Q_PyNum water_h2_neighbors
    sample "bond_length" None
    (Some [[3 # 2; 1]; [1]]%Q)
  = Err (AssertionError "Incorrect format of bond length").
Proof.
  apply (@get_neighbor_list_rejects_bad_shape Q Q_PyNum water_h2_neighbors
           sample None (Some [[3 # 2; 1]; [1]]%Q)
           [[3 # 2; 1]; [1]]%Q).
  - reflexivity.
  - intros [_ Hrows]. apply Forall_inv_tail, Forall_inv in Hrows.
    vm_compute in Hrows. discriminate.
Defined.

Lemma get_neighbor_list_unresolvable_witness :
  ∃ e, ∀ cy,
    @AnalyzeFrame.get_neighbor_list Q Q_PyNum cy
      sample "cut_off" None None = Err e.
Proof.
  apply (@get_neighbor_list_unresolvable Q Q_PyNum
           sample "cut_off" None None).
  left. repeat split; reflexivity.
Defined.

Lemma mesh_length_of_thresholds_witness :
  ∃ max_threshold min_cell,
    @is_max_entry float float_PyNum [[1.2; 1.5]; [1.5; 1.8]]%float
      max_threshold
    ∧ @is_min_of float float_PyNum [4.5; 12; 14]%float min_cell
    ∧ @AnalyzeFrame.get_neighbor_list float float_PyNum water_h2_neighbors
        sample64 "bond_length" None (Some [[1.2; 1.5]; [1.5; 1.8]]%float)
      = water_h2_neighbors
          {| arg_atoms_type := [2; 1; 1; 1; 1]%Z;
             arg_atoms_pos :=
               [[0; 0; 0; 0; 0]; [0; 0; 0; 0; 0]; [0; 0; 0; 0; 0]]%float;
             arg_mesh_length :=
               @clamped_mesh_length float float_PyNum max_threshold min_cell;
             arg_atom_num := 5;
             arg_bond_length :=
               [[Some 1.2; Some 1.5]; [Some 1.5; Some 1.8]]%float;
             arg_cell := [4.5; 12; 14]%float |}.
Proof.
  apply (@mesh_length_of_thresholds float float_PyNum water_h2_neighbors
           sample64 "bond_length" None (Some [[1.2; 1.5]; [1.5; 1.8]]%float)
           [[1.2; 1.5]; [1.5; 1.8]]%float 4.5%float 12%float 14%float).
  - reflexivity.
  - vm_compute. lia.
  - apply tm_bond_length; [reflexivity|].
    split; [reflexivity|]. by repeat constructor.
  - apply (strict_weak_on_impl (.∈ [1.2; 1.5; 1.5; 1.8]%float)).
    + intros x (row & Hrow & Hx).
      repeat (apply elem_of_cons in Hrow as [->|Hrow]);
        [set_solver..|by apply elem_of_nil in Hrow].
    + by apply (@strict_weak_check_sound float float_PyNum).
  - by apply (@strict_weak_check_sound float float_PyNum).
Defined.

(** * The edge index, [get_edge_index] *)

Section edge_index.
Implicit Types (nl : list (list nat)) (e : list nat * list nat).

Lemma edge_row_loop (i : nat) (row s d : list nat) :
  fold_left (λ (edge_index : list nat * list nat) neighbor_atom_idx,
               if i <? neighbor_atom_idx
               then (edge_index.1 ++ [i], edge_index.2 ++ [neighbor_atom_idx])
               else edge_index) row (s, d)
  = (s ++ (row_edges i row).*1, d ++ (row_edges i row).*2).
Proof.
  revert s d. induction row as [|j row IH]; intros s d; simpl.
  - by rewrite !app_nil_r.
  - unfold row_edges. rewrite filter_cons.
    destruct (Nat.ltb_spec i j) as [Hij|Hij].
    + rewrite decide_True by done. simpl. rewrite IH.
      by rewrite <-!(assoc_L (++)).
    + rewrite decide_False by lia. apply IH.
Qed.

Lemma edge_atom_loop nl (k m : nat) (s d : list nat) :
  k + m ≤ length nl →
  foldM (λ edge_index atom_idx,
           py_get nl atom_idx ≫= λ neighbors,
           Ok (fold_left
                 (λ (edge_index : list nat * list nat) neighbor_atom_idx,
                    if atom_idx <? neighbor_atom_idx
                    then (edge_index.1 ++ [atom_idx],
                          edge_index.2 ++ [neighbor_atom_idx])
                    else edge_index)
                 neighbors edge_index))
        (s, d) (seq k m)
  = Ok (s ++ (edges_from nl k m).*1, d ++ (edges_from nl k m).*2).
Proof.
  revert k s d. induction m as [|m IH]; intros k s d Hk; simpl.
  - by rewrite !app_nil_r.
  - destruct (lookup_lt_is_Some_2 nl k) as [row Hrow]; [lia|].
    rewrite (py_get_Ok _ _ _ Hrow), bind_Ok, edge_row_loop, bind_Ok.
    rewrite IH by lia. unfold edges_from. cbn [seq].
    rewrite bind_cons, !fmap_app.
    assert (neighbors_of nl k = row) as ->
      by (unfold neighbors_of; by rewrite Hrow).
    by rewrite <-!(assoc_L (++)).
Qed.

Lemma elem_of_row_edges (i : nat) (row : list nat) (a b : nat) :
  (a, b) ∈ row_edges i row ↔ a = i ∧ i < b ∧ b ∈ row.
Proof.
  unfold row_edges. rewrite list_elem_of_fmap. split.
  - intros (j & [= -> ->] & [Hj Hin]%list_elem_of_filter). done.
  - intros (-> & Hib & Hin). exists b. split; [done|].
    by apply list_elem_of_filter.
Qed.

Lemma elem_of_edges_from nl (k m a b : nat) :
  (a, b) ∈ edges_from nl k m ↔ k ≤ a < k + m ∧ a < b ∧ bonded nl a b.
Proof.
  unfold edges_from. rewrite list_elem_of_bind. split.
  - intros (i & (-> & Hib & Hin)%elem_of_row_edges & Hi%elem_of_seq). done.
  - intros (Ha & Hab & Hb). exists a. split; [|by apply elem_of_seq].
    by apply elem_of_row_edges.
Qed.

Lemma NoDup_edges_from nl (k m : nat) :
  (∀ i, NoDup (neighbors_of nl i)) → NoDup (edges_from nl k m).
Proof.
  intros Hsets. apply NoDup_bind; [| |apply NoDup_seq].
  - intros i1 i2 [a b] _ _ (-> & _)%elem_of_row_edges
      (-> & _)%elem_of_row_edges. done.
  - intros i _. apply NoDup_fmap_2; [|by apply NoDup_filter].
    by intros j1 j2 [= ->].
Qed.

Lemma constant_sorted (k : nat) (l : list nat) :
  (∀ x, x ∈ l → x = k) → StronglySorted le l.
Proof.
  induction l as [|x l IH]; intros Hl; constructor.
  - apply IH. intros y Hy. apply Hl. by right.
  - apply Forall_forall. intros y Hy.
    rewrite (Hl x) by left. rewrite (Hl y); [done | by right].
Qed.

Lemma sources_sorted nl (k m : nat) :
  StronglySorted le (edges_from nl k m).*1.
Proof.
  revert k. induction m as [|m IH]; intros k; [constructor|].
  unfold edges_from. cbn [seq]. rewrite bind_cons, fmap_app.
  apply StronglySorted_app_2; [| |apply IH].
  - intros a1 a2 ([a b] & -> & (-> & _)%elem_of_row_edges)%list_elem_of_fmap
      ([a' b'] & -> & ((Ha' & _) & _)%elem_of_edges_from)%list_elem_of_fmap.
    simpl. lia.
  - apply (constant_sorted k).
    by intros a ([a' b] & -> & (-> & _)%elem_of_row_edges)%list_elem_of_fmap.
Qed.

Lemma bonded_lt nl (i j : nat) : bonded nl i j → i < length nl.
Proof.
  unfold bonded, neighbors_of. destruct (nl !! i) as [row|] eqn:Hrow; simpl.
  - intros _. by eapply lookup_lt_Some.
  - by intros ?%elem_of_nil.
Qed.

End edge_index.

Section edge_index_of_frame.
Context {num : Type} `{PyNum num}.

(** C6: on a symmetric, self-loop-free neighbor list (one set of
    neighbors per atom), [get_edge_index] returns two sequences of equal
    length whose pairs are without repetition, contain (min(i,j),
    max(i,j)) for every bonded pair, contain nothing but bonded pairs
    with source < destination, and come in ascending source order. *)
Theorem get_edge_index_covers_bonds
    (cy : NeighborArgs num → result (list (list nat)))
    (self : Frame num) (cut_off : num) (nl : list (list nat)) :
  AnalyzeFrame.get_neighbor_list cy self "cut_off" (Some cut_off) None = Ok nl →
  neighbor_list_wf (get_total_atoms self) nl →
  ∃ sources destinations,
    AnalyzeFrame.get_edge_index cy self cut_off = Ok (sources, destinations)
    ∧ length sources = length destinations
    ∧ NoDup (zip sources destinations)
    ∧ (∀ i j, bonded nl i j → (i `min` j, i `max` j) ∈ zip sources destinations)
    ∧ (∀ a b, (a, b) ∈ zip sources destinations → a < b ∧ bonded nl a b)
    ∧ StronglySorted le sources.
Proof.
  intros Hnl [Hlen Hsets Hsym Hirr].
  exists (edges_from nl 0 (get_total_atoms self)).*1,
         (edges_from nl 0 (get_total_atoms self)).*2.
  rewrite zip_fst_snd. split_and!.
  - unfold AnalyzeFrame.get_edge_index. rewrite Hnl, bind_Ok.
    by rewrite edge_atom_loop by (rewrite Hlen; lia).
  - by rewrite !length_fmap.
  - by apply NoDup_edges_from.
  - intros i j Hij. pose proof (Hsym _ _ Hij) as Hji.
    pose proof (bonded_lt _ _ _ Hij). pose proof (bonded_lt _ _ _ Hji).
    assert (i ≠ j) by (intros ->; by eapply Hirr).
    apply elem_of_edges_from.
    destruct (decide (i < j)).
    + rewrite Nat.min_l, Nat.max_r by lia. split_and!; [lia..|done].
    + rewrite Nat.min_r, Nat.max_l by lia. split_and!; [lia..|done].
  - intros a b (_ & Hab & Hb)%elem_of_edges_from. done.
  - apply sources_sorted.
Qed.

End edge_index_of_frame.

(** The bond graph of the sample frame is a well-formed neighbor list. *)
Lemma water_h2_bonds_wf : neighbor_list_wf 5 water_h2_bonds.
Proof.
  split.
  - reflexivity.
  - intros [|[|[|[|[|i]]]]]; unfold neighbors_of; simpl;
      repeat (constructor; [set_solver|]); constructor.
  - intros i j. unfold bonded, neighbors_of.
    destruct i as [|[|[|[|[|i]]]]]; simpl;
      rewrite ?elem_of_cons, ?elem_of_nil;
      intros Hj; destruct_or?; subst; simpl; set_solver.
  - intros [|[|[|[|[|i]]]]]; unfold bonded, neighbors_of; simpl; set_solver.
Qed.

Lemma get_edge_index_covers_bonds_witness :
  ∃ sources destinations,
    @AnalyzeFrame.get_edge_index Q Q_PyNum water_h2_neighbors
      sample (3 # 2)%Q = Ok (sources, destinations)
    ∧ length sources = length destinations
    ∧ NoDup (zip sources destinations)
    ∧ (∀ i j, bonded water_h2_bonds i j →
              (i `min` j, i `max` j) ∈ zip sources destinations)
    ∧ (∀ a b, (a, b) ∈ zip sources destinations →
              a < b ∧ bonded water_h2_bonds a b)
    ∧ StronglySorted le sources.
Proof.
  apply (@get_edge_index_covers_bonds Q Q_PyNum water_h2_neighbors
           sample (3 # 2)%Q water_h2_bonds).
  - reflexivity.
  - exact water_h2_bonds_wf.
Defined.

(** * The momentum sum, [get_sum_of_momentums] *)

Lemma mapM_Ok {A B : Type} (f : A → result B) (g : A → B) (l : list A) :
  (∀ x, x ∈ l → f x = Ok (g x)) → mapM f l = Ok (g <$> l).
Proof.
  induction l as [|x l IH]; intros Hf; [done|].
  transitivity (f x ≫= λ y, mapM f l ≫= λ k, Ok (y :: k)); [done|].
  rewrite Hf by left. rewrite IH; [done|].
  intros y Hy. apply Hf. by right.
Qed.

Lemma fold_left_seq_shift {A : Type} (f : A → nat → A) (k n : nat) (a : A) :
  fold_left f (seq (S k) n) a = fold_left (λ acc i, f acc (S i)) (seq k n) a.
Proof.
  revert k a. induction n as [|n IH]; intros k a; simpl; [done|]. apply IH.
Qed.

(** ** The pairwise sum *)

Section pairwise.
Context {num : Type} `{PyNum num}.
Implicit Types (a l : list num).

Lemma split_point (n : nat) :
  128 < n → 1 ≤ n / 2 - (n / 2) mod 8 ∧ n / 2 - (n / 2) mod 8 < n.
Proof.
  intros Hn.
  pose proof (Nat.div_mod_eq n 2) as Hd.
  pose proof (Nat.mod_upper_bound n 2) as Hm2.
  pose proof (Nat.mod_upper_bound (n / 2) 8) as Hm8. lia.
Qed.

(** A depth of [length a - 128] is enough for [a]: deeper recursions
    return the same number. *)
Lemma pairwise_sum_rec_enough (d1 d2 : nat) a :
  length a ≤ 128 + d1 → length a ≤ 128 + d2 →
  pairwise_sum_rec d1 a = pairwise_sum_rec d2 a.
Proof.
  revert d2 a. induction d1 as [|d1 IH]; intros [|d2] a H1 H2;
    cbn [pairwise_sum_rec];
    destruct (length a <? 8); try done;
    destruct (Nat.leb_spec (length a) 128) as [|Hbig]; try done; try lia.
  destruct (split_point _ Hbig) as [Hlo Hhi].
  f_equal; apply IH; rewrite ?length_take, ?length_drop; lia.
Qed.

(** The recursion of NumPy's routine, as [pairwise_sum] satisfies it. *)
Lemma pairwise_sum_unfold a :
  pairwise_sum a
  = if length a <? 8 then fold_left nadd a nzero
    else if length a <=? 128 then pairwise_block a
    else nadd (pairwise_sum
                 (take (length a / 2 - (length a / 2) mod 8) a))
              (pairwise_sum
                 (drop (length a / 2 - (length a / 2) mod 8) a)).
Proof.
  unfold pairwise_sum at 1.
  rewrite (pairwise_sum_rec_enough (length a) (S (length a))) by lia.
  cbn [pairwise_sum_rec].
  destruct (length a <? 8); [done|].
  destruct (Nat.leb_spec (length a) 128) as [|Hbig]; [done|].
  destruct (split_point _ Hbig) as [Hlo Hhi].
  unfold pairwise_sum.
  f_equal; apply pairwise_sum_rec_enough;
    rewrite ?length_take, ?length_drop; lia.
Qed.

End pairwise.

(** ** Sums without rounding *)

Section exact_sums.
Context {num : Type} `{PyNum num}.
Variables (val : num → Z) (B : Z).
Hypothesis Hex : exact_within val B.
Implicit Types (a l r c : list num).

Lemma weight_cons (x : num) l :
  weight val (x :: l) = (Z.abs (val x) + weight val l)%Z.
Proof. reflexivity. Qed.

Lemma total_cons (x : num) l :
  total val (x :: l) = (val x + total val l)%Z.
Proof. reflexivity. Qed.

Lemma weight_nonneg l : (0 ≤ weight val l)%Z.
Proof.
  induction l as [|x l IH]; [done|]. rewrite weight_cons. lia.
Qed.

Lemma total_le_weight l : (Z.abs (total val l) ≤ weight val l)%Z.
Proof.
  induction l as [|x l IH]; [done|]. rewrite weight_cons, total_cons. lia.
Qed.

Lemma weight_app l k :
  weight val (l ++ k) = (weight val l + weight val k)%Z.
Proof.
  induction l as [|x l IH]; [done|].
  rewrite <-app_comm_cons, !weight_cons, IH. lia.
Qed.

Lemma total_app l k : total val (l ++ k) = (total val l + total val k)%Z.
Proof.
  induction l as [|x l IH]; [done|].
  rewrite <-app_comm_cons, !total_cons, IH. lia.
Qed.

Lemma weight_take_drop (n : nat) l :
  (weight val (take n l) + weight val (drop n l))%Z = weight val l.
Proof. by rewrite <-weight_app, take_drop. Qed.

Lemma total_take_drop (n : nat) l :
  (total val (take n l) + total val (drop n l))%Z = total val l.
Proof. by rewrite <-total_app, take_drop. Qed.

(** Accumulation in index order. *)
Lemma fold_left_exact l (acc : num) :
  (Z.abs (val acc) + weight val l ≤ B)%Z →
  val (fold_left nadd l acc) = (val acc + total val l)%Z.
Proof.
  revert acc. induction l as [|x l IH]; intros acc Hb.
  - simpl. unfold total. simpl. lia.
  - rewrite weight_cons in Hb. pose proof (weight_nonneg l).
    assert (val (nadd acc x) = (val acc + val x)%Z) as Hadd
      by (apply (ew_add _ _ Hex); lia).
    cbn [fold_left]. rewrite IH, Hadd, total_cons by lia. lia.
Qed.

(** One round of the 8 accumulators. *)
Lemma zip_add_exact r c :
  length r = length c →
  (weight val r + weight val c ≤ B)%Z →
  total val (zip_with nadd r c) = (total val r + total val c)%Z
  ∧ (weight val (zip_with nadd r c) ≤ weight val r + weight val c)%Z.
Proof.
  revert c. induction r as [|x r IH]; intros [|y c] Hlen Hb; try done.
  cbn [zip_with]. rewrite !weight_cons, !total_cons in *.
  pose proof (weight_nonneg r). pose proof (weight_nonneg c).
  assert (val (nadd x y) = (val x + val y)%Z) as Hadd
    by (apply (ew_add _ _ Hex); lia).
  destruct (IH c) as [Ht Hw]; [by injection Hlen | lia |].
  rewrite Hadd, Ht. lia.
Qed.

Lemma accumulate_exact (k : nat) r l :
  length r = 8 → 8 * k ≤ length l →
  (weight val r + weight val l ≤ B)%Z →
  length (accumulate r l k) = 8
  ∧ (total val (accumulate r l k) + total val (drop (8 * k) l))%Z
    = (total val r + total val l)%Z
  ∧ (weight val (accumulate r l k) + weight val (drop (8 * k) l)
     ≤ weight val r + weight val l)%Z.
Proof.
  revert r l. induction k as [|k IH]; intros r l Hr Hl Hb.
  - rewrite Nat.mul_0_r, drop_0. cbn [accumulate]. split_and!; [done..|lia].
  - cbn [accumulate].
    pose proof (weight_take_drop 8 l) as Hw.
    pose proof (total_take_drop 8 l) as Ht.
    pose proof (weight_nonneg (drop 8 l)).
    assert (length (take 8 l) = 8) as Htake by (rewrite length_take; lia).
    destruct (zip_add_exact r (take 8 l)) as [Hzt Hzw]; [lia..|].
    destruct (IH (zip_with nadd r (take 8 l)) (drop 8 l))
      as (Hlen & Htot & Hwt).
    + rewrite length_zip_with. lia.
    + rewrite length_drop. lia.
    + lia.
    + rewrite drop_drop in Htot, Hwt.
      replace (8 * S k) with (8 + 8 * k) by lia.
      split_and!; [done|lia..].
Qed.

(** The tree that combines the accumulators. *)
Lemma combine8_exact r :
  length r = 8 → (weight val r ≤ B)%Z →
  val (combine8 r) = total val r.
Proof.
  intros Hlen Hb.
  destruct r as [|r0 [|r1 [|r2 [|r3 [|r4 [|r5 [|r6 [|r7 [|]]]]]]]]];
    try done.
  rewrite !weight_cons in Hb. rewrite !total_cons.
  change (weight val []) with 0%Z in Hb.
  change (total val []) with 0%Z. cbn [combine8].
  assert (val (nadd r0 r1) = (val r0 + val r1)%Z) as H01
    by (apply (ew_add _ _ Hex); lia).
  assert (val (nadd r2 r3) = (val r2 + val r3)%Z) as H23
    by (apply (ew_add _ _ Hex); lia).
  assert (val (nadd r4 r5) = (val r4 + val r5)%Z) as H45
    by (apply (ew_add _ _ Hex); lia).
  assert (val (nadd r6 r7) = (val r6 + val r7)%Z) as H67
    by (apply (ew_add _ _ Hex); lia).
  assert (val (nadd (nadd r0 r1) (nadd r2 r3))
          = (val r0 + val r1 + (val r2 + val r3))%Z) as H03
    by (rewrite (ew_add _ _ Hex), H01, H23; lia).
  assert (val (nadd (nadd r4 r5) (nadd r6 r7))
          = (val r4 + val r5 + (val r6 + val r7))%Z) as H47
    by (rewrite (ew_add _ _ Hex), H45, H67; lia).
  rewrite (ew_add _ _ Hex), H03, H47; lia.
Qed.

Lemma pairwise_block_exact a :
  8 ≤ length a → (weight val a ≤ B)%Z →
  val (pairwise_block a) = total val a.
Proof.
  intros Hlen Hb. unfold pairwise_block.
  pose proof (Nat.div_mod_eq (length a) 8) as Hd.
  pose proof (Nat.mod_upper_bound (length a) 8) as Hm.
  assert (length a - length a mod 8 = 8 * (length a / 8)) as -> by lia.
  rewrite (Nat.mul_comm 8), Nat.div_mul by done.
  pose proof (weight_take_drop 8 a) as Hw.
  pose proof (total_take_drop 8 a) as Ht.
  destruct (accumulate_exact (length a / 8 - 1) (take 8 a) (drop 8 a))
    as (Hr & Htot & Hwt).
  { rewrite length_take. lia. }
  { rewrite length_drop. lia. }
  { lia. }
  rewrite drop_drop in Htot, Hwt.
  replace (8 + 8 * (length a / 8 - 1)) with (length a / 8 * 8)
    in Htot, Hwt by lia.
  pose proof (weight_nonneg (drop (length a / 8 * 8) a)).
  pose proof (weight_nonneg (accumulate (take 8 a) (drop 8 a)
                               (length a / 8 - 1))).
  pose proof (total_le_weight (accumulate (take 8 a) (drop 8 a)
                                 (length a / 8 - 1))).
  rewrite fold_left_exact; rewrite combine8_exact; lia || done.
Qed.

Lemma pairwise_sum_rec_exact (depth : nat) a :
  (weight val a ≤ B)%Z → val (pairwise_sum_rec depth a) = total val a.
Proof.
  revert a. induction depth as [|depth IH]; intros a Hb;
    cbn [pairwise_sum_rec];
    pose proof (weight_nonneg a); pose proof (ew_zero _ _ Hex);
    (destruct (Nat.ltb_spec (length a) 8);
     [rewrite fold_left_exact; lia|]);
    (destruct (length a <=? 128); [by apply pairwise_block_exact|]).
  - rewrite fold_left_exact; lia.
  - set (n2 := length a / 2 - (length a / 2) mod 8).
    pose proof (weight_take_drop n2 a). pose proof (total_take_drop n2 a).
    pose proof (weight_nonneg (take n2 a)).
    pose proof (weight_nonneg (drop n2 a)).
    pose proof (total_le_weight (take n2 a)).
    pose proof (total_le_weight (drop n2 a)).
    rewrite (ew_add _ _ Hex); rewrite !IH by lia; lia.
Qed.

(** Without rounding, [np.sum] is the accumulation in index order. *)
Lemma np_sum_exact l :
  (weight val l ≤ B)%Z → np_sum l = fold_left nadd l nzero.
Proof.
  intros Hb. pose proof (weight_nonneg l). pose proof (total_le_weight l).
  pose proof (ew_zero _ _ Hex).
  assert (val (np_sum l) = total val l) as Hnp.
  { unfold np_sum, pairwise_sum.
    rewrite (ew_add _ _ Hex); rewrite pairwise_sum_rec_exact by done; lia. }
  assert (val (fold_left nadd l nzero) = total val l) as Hfold
    by (rewrite fold_left_exact; lia).
  apply (ew_inj _ _ Hex); lia.
Qed.

End exact_sums.

Section momentum.
Context {num : Type} `{PyNum num}.

(** The axis-1 sum of one velocity column multiplied by the masses is
    the sum over the atom indices. *)
Lemma np_sum_column (mass : Z → num) (types : list Z) (velocities : list num)
    (acc : num) :
  length velocities = length types →
  fold_left nadd (zip_with nmul velocities (mass <$> types)) acc
  = fold_left (λ acc i, nadd acc (nmul (nth i velocities nzero)
                                       (mass (nth i types 0%Z))))
      (seq 0 (length types)) acc.
Proof.
  revert velocities acc.
  induction types as [|t types IH]; intros [|v velocities] acc Hlen;
    try done.
  cbn [length seq fold_left zip_with fmap list_fmap].
  rewrite fold_left_seq_shift. simpl. apply IH.
  simpl in Hlen. lia.
Qed.


(** The method reads nothing else: positions, cell, symbol tables and
    defaults may differ. *)
Lemma get_sum_of_momentums_reads (self self' : Frame num) :
  a_type <$> atoms self = a_type <$> atoms self' →
  a_vx <$> atoms self = a_vx <$> atoms self' →
  a_vy <$> atoms self = a_vy <$> atoms self' →
  a_vz <$> atoms self = a_vz <$> atoms self' →
  atom_type_to_mass self = atom_type_to_mass self' →
  AnalyzeFrame.get_sum_of_momentums self
  = AnalyzeFrame.get_sum_of_momentums self'.
Proof.
  intros Ht Hx Hy Hz Hm. unfold AnalyzeFrame.get_sum_of_momentums.
  by rewrite Ht, Hx, Hy, Hz, Hm.
Qed.

End momentum.

(** * Molecule formulas, [count_mols] *)

(** A loop whose body cannot raise while an invariant holds. *)
Lemma foldM_inv {A B : Type} (I : B → Prop) (f : B → A → result B)
    (g : B → A → B) (b : B) (l : list A) :
  I b →
  (∀ b x, I b → x ∈ l → f b x = Ok (g b x) ∧ I (g b x)) →
  foldM f b l = Ok (foldl g b l) ∧ I (foldl g b l).
Proof.
  revert b. induction l as [|x l IH]; intros b Hb Hf; simpl; [done|].
  destruct (Hf b x Hb) as [-> Hb']; [by left|]. simpl.
  apply IH; [done|]. intros b' y Hb'' Hy. apply Hf; [done | by right].
Qed.

Section composition.
Context {num : Type} `{PyNum num}.
Implicit Types (self : Frame num) (mol : list nat) (c : list nat).

Lemma type_of_in_range self (i : nat) :
  frame_wf self → i < get_total_atoms self →
  ∃ t, type_of self i = Some t ∧ (1 ≤ t ≤ Z.of_nat (n_symbols self))%Z.
Proof.
  intros [Hty _] Hi. unfold type_of, get_total_atoms in *.
  destruct (lookup_lt_is_Some_2 (atoms self) i Hi) as [a Ha].
  exists (a_type a). rewrite list_lookup_fmap, Ha. split; [done|].
  apply Hty. by eapply list_elem_of_lookup_2.
Qed.

Lemma bump_lookup self mol (cnt : list nat) (k : nat) :
  frame_wf self → (∀ i, i ∈ mol → i < get_total_atoms self) →
  foldl (bump self) cnt mol !! k
  = (λ n, n + count_type self mol (Z.of_nat (1 + k))) <$> cnt !! k.
Proof.
  intros Hwf. revert cnt. induction mol as [|i mol IH]; intros cnt Hmol.
  - simpl. unfold count_type. simpl.
    destruct (cnt !! k); simpl; [f_equal; lia | done].
  - simpl. rewrite IH by (intros j Hj; apply Hmol; by right).
    destruct (type_of_in_range self i Hwf) as (t & Ht & Hrange);
      [apply Hmol; by left|].
    unfold bump, count_type. rewrite Ht, filter_cons.
    destruct (decide (Z.to_nat (t - 1) = k)) as [<-|Hk].
    + rewrite list_lookup_alter, decide_True by done.
      rewrite decide_True by (rewrite Ht; f_equal; lia).
      destruct (cnt !! _); simpl; [f_equal; lia | done].
    + rewrite list_lookup_alter_ne by done.
      rewrite decide_False; [done|].
      rewrite Ht. intros [= ->]. lia.
Qed.

Lemma atom_type_count_spec self mol :
  frame_wf self → (∀ i, i ∈ mol → i < get_total_atoms self) →
  AnalyzeFrame.atom_type_count self mol = Ok (composition self mol).
Proof.
  intros Hwf Hmol. unfold AnalyzeFrame.atom_type_count.
  fold (n_symbols self).
  destruct (foldM_inv (λ cnt, length cnt = n_symbols self)
              (λ cnt atom_idx,
                 py_get (a_type <$> atoms self) atom_idx ≫= λ t,
                 incr_at1 cnt (t - 1)%Z)
              (bump self) (replicate (n_symbols self) 0) mol) as [-> _].
  - by rewrite length_replicate.
  - intros cnt i Hlen Hi.
    destruct (type_of_in_range self i Hwf (Hmol i Hi)) as (t & Ht & Hrange).
    unfold bump. rewrite Ht. rewrite (py_get_Ok _ _ _ Ht), bind_Ok.
    unfold incr_at1. rewrite Hlen.
    replace (t - 1)%Z with (Z.of_nat (Z.to_nat (t - 1))) at 1 by lia.
    rewrite py_index_Ok by lia. by rewrite length_alter.
  - f_equal. apply list_eq. intros k.
    rewrite bump_lookup by done. unfold composition.
    rewrite list_lookup_fmap.
    destruct (decide (k < n_symbols self)) as [Hk|Hk].
    + rewrite lookup_replicate_2, lookup_seq_lt by done. done.
    + rewrite (proj1 (lookup_replicate_None _ _ _)), lookup_seq_ge by lia.
      done.
Qed.

End composition.

(** ** Strings *)

Lemma string_app_cons (a : Ascii.ascii) (s1 s2 : string) :
  String a s1 +:+ s2 = String a (s1 +:+ s2).
Proof. reflexivity. Qed.

Lemma string_app_nil_r (s : string) : s +:+ "" = s.
Proof.
  induction s as [|a s IH]; [done|]. by rewrite string_app_cons, IH.
Qed.

Lemma string_app_assoc (s1 s2 s3 : string) :
  (s1 +:+ s2) +:+ s3 = s1 +:+ (s2 +:+ s3).
Proof.
  induction s1 as [|a s1 IH]; [done|]. by rewrite !string_app_cons, IH.
Qed.

Lemma string_app_nonempty_r (s1 s2 : string) : s2 ≠ "" → s1 +:+ s2 ≠ "".
Proof. by destruct s1, s2. Qed.

Lemma concat_snoc (sep : string) (l : list string) (g : string) :
  String.concat sep (l ++ [g])
  = match l with
    | [] => g
    | _ => String.concat sep l +:+ sep +:+ g
    end.
Proof.
  induction l as [|x l IH]; [done|].
  change (String.concat sep ((x :: l) ++ [g]))
    with (match l ++ [g] with
          | [] => x
          | _ => x +:+ sep +:+ String.concat sep (l ++ [g])
          end).
  rewrite IH. destruct l as [|y l]; [done|].
  change (String.concat sep (x :: y :: l))
    with (x +:+ sep +:+ String.concat sep (y :: l)).
  simpl app. by rewrite !string_app_assoc.
Qed.

Lemma concat_nonempty (sep : string) (l : list string) :
  l ≠ [] → Forall (λ g, g ≠ "") l → String.concat sep l ≠ "".
Proof.
  destruct l as [|x l]; [done|]. intros _ [Hx _]%Forall_cons.
  destruct l; [done|]. by destruct x.
Qed.

Lemma pretty_N_go_nonempty (x : N) (s : string) :
  s ≠ "" → pretty_N_go x s ≠ "".
Proof.
  revert s. induction (N.lt_wf_0 x) as [x _ IH]; intros s Hs.
  assert (x = 0 ∨ 0 < x)%N as [->|Hx] by lia.
  - by rewrite pretty_N_go_0.
  - rewrite pretty_N_go_step by done. apply IH; [|done].
    by apply N.div_lt.
Qed.

Lemma pretty_nat_nonempty (n : nat) : pretty n ≠ "".
Proof.
  unfold pretty, pretty_nat, pretty, pretty_N. case_decide; [done|].
  rewrite pretty_N_go_step by lia. by apply pretty_N_go_nonempty.
Qed.

(** ** The formula of a composition *)

Section formula.
Context {num : Type} `{PyNum num}.
Implicit Types (self : Frame num) (c : list nat).

Lemma groups_snoc self c (x : nat) :
  groups self (c ++ [x])
  = groups self c
    ++ (if decide (x = 0) then []
        else [symbol_of self (Z.of_nat (S (length c))) +:+ pretty x]).
Proof.
  unfold groups. rewrite length_app. simpl length.
  rewrite seq_app, zip_with_app by (by rewrite length_seq).
  rewrite filter_app, fmap_app. f_equal. simpl.
  rewrite filter_cons, filter_nil. simpl.
  destruct (decide (x = 0)) as [->|Hx].
  - by rewrite decide_False by (intros Hne; by apply Hne).
  - by rewrite decide_True by done.
Qed.

Lemma groups_nonempty self c : Forall (λ g, g ≠ "") (groups self c).
Proof.
  apply Forall_forall. intros g (p & -> & _)%list_elem_of_fmap.
  apply string_app_nonempty_r, pretty_nat_nonempty.
Qed.

(** The symbol look-up of the loops succeeds on the types 1..T. *)
Lemma symbol_get self (k : nat) :
  frame_wf self → k < n_symbols self →
  dict_get (atom_type_to_symbol self) (Z.of_nat k + 1)%Z
  = Ok (symbol_of self (Z.of_nat (S k))).
Proof.
  intros [_ Hsym] Hk. unfold symbol_of.
  replace (Z.of_nat (S k)) with (Z.of_nat k + 1)%Z by lia.
  destruct (Hsym (Z.of_nat k + 1)%Z) as [sym Hs]; [lia|].
  by rewrite (dict_get_Ok _ _ _ Hs), Hs.
Qed.

Lemma mol_str_prefix self c (n : nat) :
  frame_wf self → n ≤ length c → length c ≤ n_symbols self →
  foldM (λ mol_str atom_type,
           py_get c atom_type ≫= λ cnt,
           if cnt =? 0 then Ok mol_str
           else
             dict_get (atom_type_to_symbol self) (Z.of_nat atom_type + 1)%Z
             ≫= λ sym, Ok (mol_str +:+ sym +:+ pretty cnt))
        "" (seq 0 n)
  = Ok (formula self (take n c)).
Proof.
  intros Hwf. induction n as [|n IH]; intros Hn Hlen; [done|].
  rewrite seq_S, foldM_app, IH by lia. rewrite bind_Ok. simpl.
  destruct (lookup_lt_is_Some_2 c n) as [x Hx]; [lia|].
  rewrite (py_get_Ok _ _ _ Hx), bind_Ok, (take_S_r _ _ _ Hx).
  unfold formula. rewrite groups_snoc, length_take, Nat.min_l by lia.
  destruct (Nat.eqb_spec x 0) as [->|Hne].
  - by rewrite decide_True, app_nil_r by done.
  - rewrite decide_False by done.
    rewrite symbol_get, bind_Ok by (done || lia).
    rewrite concat_snoc.
    destruct (groups self (take n c)) as [|g gs] eqn:Hg; [done|].
    by rewrite <-Hg.
Qed.

Lemma mol_str_spec self c :
  frame_wf self → length c = n_symbols self →
  AnalyzeFrame.mol_str self c = Ok (formula self c).
Proof.
  intros Hwf Hlen. unfold AnalyzeFrame.mol_str. fold (n_symbols self).
  rewrite <-Hlen, (mol_str_prefix self c (length c)) by (done || lia).
  by rewrite firstn_all.
Qed.

End formula.

(** ** The composition tally *)

Section tally.
Implicit Types (k c : list nat) (d : list (list nat * nat)).
Implicit Types cs : list (list nat).

Lemma dict_incr_keys k d c :
  c ∈ (dict_incr k d).*1 ↔ c = k ∨ c ∈ d.*1.
Proof.
  induction d as [|[k' n] d IH]; simpl.
  - rewrite list_elem_of_singleton, elem_of_nil. naive_solver.
  - destruct (decide (k = k')) as [->|Hne]; simpl;
      rewrite !elem_of_cons, ?IH; naive_solver.
Qed.

Lemma dict_incr_NoDup k d : NoDup d.*1 → NoDup (dict_incr k d).*1.
Proof.
  induction d as [|[k' n] d IH]; simpl.
  - intros _. apply NoDup_singleton.
  - intros [Hk' Hd]%NoDup_cons.
    destruct (decide (k = k')) as [->|Hne]; simpl.
    + by apply NoDup_cons.
    + apply NoDup_cons. split; [|by apply IH].
      rewrite dict_incr_keys. naive_solver.
Qed.

Lemma dict_incr_stored k d c :
  stored c (dict_incr k d)
  = if decide (c = k) then S (stored c d) else stored c d.
Proof.
  induction d as [|[k' n] d IH]; simpl.
  - by destruct (decide (c = k)).
  - destruct (decide (k = k')) as [->|Hne]; simpl.
    + by destruct (decide (c = k')).
    + rewrite IH. destruct (decide (c = k')) as [->|]; [|done].
      by rewrite decide_False by done.
Qed.

Lemma dict_incr_sum k d :
  sum_list (dict_incr k d).*2 = S (sum_list d.*2).
Proof.
  induction d as [|[k' n] d IH]; simpl; [done|].
  destruct (decide (k = k')); simpl; [done|]. unfold fmap in IH. lia.
Qed.

Lemma stored_absent c d : c ∉ d.*1 → stored c d = 0.
Proof.
  induction d as [|[k' n] d IH]; simpl; [done|].
  rewrite not_elem_of_cons. intros [Hne Hc].
  rewrite decide_False by done. by apply IH.
Qed.

Lemma elem_of_dict c (n : nat) d :
  NoDup d.*1 → (c, n) ∈ d ↔ c ∈ d.*1 ∧ stored c d = n.
Proof.
  induction d as [|[k' n'] d IH]; simpl.
  - intros _. rewrite !elem_of_nil. naive_solver.
  - intros [Hk' Hd]%NoDup_cons. rewrite !elem_of_cons, IH by done.
    destruct (decide (c = k')) as [->|Hne]; naive_solver.
Qed.

Lemma tally_of_snoc cs c : tally_of (cs ++ [c]) = dict_incr c (tally_of cs).
Proof. unfold tally_of. by rewrite foldl_snoc. Qed.

Lemma tally_of_keys cs c : c ∈ (tally_of cs).*1 ↔ c ∈ cs.
Proof.
  induction cs as [|c' cs IH] using rev_ind.
  - done.
  - rewrite tally_of_snoc, dict_incr_keys, IH, elem_of_app,
      list_elem_of_singleton. naive_solver.
Qed.

Lemma tally_of_NoDup cs : NoDup (tally_of cs).*1.
Proof.
  induction cs as [|c' cs IH] using rev_ind; [constructor|].
  rewrite tally_of_snoc. by apply dict_incr_NoDup.
Qed.

Lemma tally_of_stored cs c :
  stored c (tally_of cs) = length (filter (c =.) cs).
Proof.
  induction cs as [|c' cs IH] using rev_ind; [done|].
  rewrite tally_of_snoc, dict_incr_stored, IH, filter_app, length_app.
  rewrite filter_cons, filter_nil.
  destruct (decide (c = c')); simpl; lia.
Qed.

Lemma tally_of_sum cs : sum_list (tally_of cs).*2 = length cs.
Proof.
  induction cs as [|c' cs IH] using rev_ind; [done|].
  rewrite tally_of_snoc, dict_incr_sum, IH, length_app. simpl. lia.
Qed.

Lemma elem_of_tally_of cs c (n : nat) :
  (c, n) ∈ tally_of cs ↔ c ∈ cs ∧ n = length (filter (c =.) cs).
Proof.
  rewrite elem_of_dict by apply tally_of_NoDup.
  rewrite tally_of_keys, tally_of_stored. naive_solver.
Qed.

End tally.

(** ** Rendering a table of counts into the result dictionary *)

Section render.
Context {K : Type}.
Implicit Types (fmt : K → string) (d : list (K * nat)).

Lemma render_list_to_map fmt d :
  render fmt d = list_to_map (reverse (keyed fmt d)).
Proof.
  unfold render, keyed. induction d as [|p d IH] using rev_ind; [done|].
  by rewrite foldl_snoc, fmap_app, reverse_app, IH.
Qed.

Lemma keyed_NoDup fmt d :
  NoDup d.*1 →
  (∀ c1 c2, c1 ∈ d.*1 → c2 ∈ d.*1 → fmt c1 = fmt c2 → c1 = c2) →
  NoDup (reverse (keyed fmt d)).*1.
Proof.
  intros Hd Hinj. rewrite fmap_reverse, reverse_Permutation.
  unfold keyed. rewrite <-list_fmap_compose.
  change (NoDup ((fmt ∘ fst) <$> d)). rewrite list_fmap_compose.
  by apply NoDup_fmap_2_strong.
Qed.

Lemma render_lookup fmt d (s : string) (n : nat) :
  NoDup d.*1 →
  (∀ c1 c2, c1 ∈ d.*1 → c2 ∈ d.*1 → fmt c1 = fmt c2 → c1 = c2) →
  render fmt d !! s = Some n ↔ ∃ c, (c, n) ∈ d ∧ fmt c = s.
Proof.
  intros Hd Hinj. rewrite render_list_to_map.
  rewrite <-elem_of_list_to_map by by apply keyed_NoDup.
  rewrite elem_of_reverse. unfold keyed. rewrite list_elem_of_fmap. split.
  - intros ([c n'] & [= -> ->] & Hin). by exists c.
  - intros (c & Hin & <-). by exists (c, n).
Qed.

Lemma render_sum fmt d :
  NoDup d.*1 →
  (∀ c1 c2, c1 ∈ d.*1 → c2 ∈ d.*1 → fmt c1 = fmt c2 → c1 = c2) →
  sum_values (render fmt d) = sum_list d.*2.
Proof.
  intros Hd Hinj. unfold sum_values. rewrite render_list_to_map.
  rewrite map_to_list_to_map by by apply keyed_NoDup.
  rewrite fmap_reverse, sum_list_with_reverse. unfold keyed.
  by rewrite <-list_fmap_compose.
Qed.

Lemma render_size fmt d :
  NoDup d.*1 →
  (∀ c1 c2, c1 ∈ d.*1 → c2 ∈ d.*1 → fmt c1 = fmt c2 → c1 = c2) →
  size (render fmt d) = length d.
Proof.
  intros Hd Hinj. rewrite render_list_to_map, <-length_map_to_list.
  rewrite map_to_list_to_map by by apply keyed_NoDup.
  unfold keyed. by rewrite length_reverse, length_fmap.
Qed.

Lemma render_ext (fmt1 fmt2 : K → string) d :
  (∀ c, c ∈ d.*1 → fmt1 c = fmt2 c) → render fmt1 d = render fmt2 d.
Proof.
  intros Hfmt. rewrite !render_list_to_map. do 2 f_equal.
  unfold keyed. apply list_fmap_ext. intros i [c n] Hi. simpl.
  rewrite Hfmt; [done|]. apply list_elem_of_fmap. exists (c, n).
  split; [done|]. by eapply list_elem_of_lookup_2.
Qed.

End render.

(** ** [count_mols] as a rendered tally *)

Lemma filter_ext_in {A : Type} (P1 P2 : A → Prop)
    `{!∀ x, Decision (P1 x), !∀ x, Decision (P2 x)} (l : list A) :
  (∀ x, x ∈ l → P1 x ↔ P2 x) → filter P1 l = filter P2 l.
Proof.
  induction l as [|a l IH]; intros HP; [done|].
  rewrite !filter_cons, IH by (intros x Hx; apply HP; by right).
  assert (P1 a ↔ P2 a) as Ha by (apply HP; by left).
  destruct (decide (P1 a)), (decide (P2 a)); tauto || done.
Qed.

Lemma length_filter_fmap {A B : Type} `{EqDecision B} (f : A → B) (b : B)
    (l : list A) :
  length (filter (b =.) (f <$> l)) = length (filter (λ x, b = f x) l).
Proof.
  induction l as [|a l IH]; [done|].
  rewrite fmap_cons, !filter_cons. destruct (decide (b = f a)); simpl; lia.
Qed.

Lemma partition_in_range (n : nat) (mols : list (list nat)) (mol : list nat)
    (i : nat) :
  is_partition n mols → mol ∈ mols → i ∈ mol → i < n.
Proof.
  unfold is_partition. intros Hp Hmol Hi.
  assert (i ∈ seq 0 n) as Hin%elem_of_seq; [|lia].
  rewrite <-Hp. apply list_elem_of_In, in_concat. exists mol.
  by rewrite <-!list_elem_of_In.
Qed.

Section count_mols.
Context {num : Type} `{PyNum num}.
Implicit Types (self : Frame num) (mols : list (list nat)).
Implicit Types (cyn : NeighborArgs num → result (list (list nat))).
Implicit Types (cym : list (list nat) → nat → result (list (list nat))).

Lemma composition_length self (mol : list nat) :
  length (composition self mol) = n_symbols self.
Proof. unfold composition. by rewrite length_fmap, length_seq. Qed.

Lemma tally_keys_length self mols (c : list nat) :
  c ∈ (composition_tally self mols).*1 → length c = n_symbols self.
Proof.
  unfold composition_tally. intros Hc. rewrite tally_of_keys in Hc.
  apply list_elem_of_fmap in Hc as (mol & -> & _).
  apply composition_length.
Qed.

(** The first loop of [count_mols]. *)
Lemma tally_loop self mols :
  frame_wf self → is_partition (get_total_atoms self) mols →
  foldM (λ mols_count_tmp mol,
           AnalyzeFrame.atom_type_count self mol ≫= λ atom_type_count_tuple,
           Ok (dict_incr atom_type_count_tuple mols_count_tmp))
        [] mols
  = Ok (composition_tally self mols).
Proof.
  intros Hwf Hpart. unfold composition_tally, tally_of. rewrite foldl_fmap.
  apply foldM_pure. intros tmp mol Hmol.
  rewrite atom_type_count_spec; [done..|].
  intros i Hi. by eapply partition_in_range.
Qed.

(** The second loop, for a key format computed by [str_of]. *)
Lemma render_loop (str_of : list nat → result string)
    (fmt : list nat → string) (tally : list (list nat * nat)) :
  (∀ c, c ∈ tally.*1 → str_of c = Ok (fmt c)) →
  foldM (λ (mols_count : gmap string nat) '(atom_type_count, count),
           str_of atom_type_count ≫= λ mol_str,
           Ok (<[mol_str := count]> mols_count))
        ∅ tally
  = Ok (render fmt tally).
Proof.
  intros Hstr. unfold render. apply foldM_pure. intros m [c n] Hin.
  rewrite Hstr; [done|]. apply list_elem_of_fmap. by exists (c, n).
Qed.

Lemma count_mols_render cyn cym self mode cut_off bond_length mols :
  AnalyzeFrame.get_mols_list cyn cym self mode cut_off bond_length = Ok mols →
  frame_wf self → is_partition (get_total_atoms self) mols →
  AnalyzeFrame.count_mols cyn cym self mode cut_off bond_length
  = Ok (render (formula self) (composition_tally self mols)).
Proof.
  intros Hmols Hwf Hpart. unfold AnalyzeFrame.count_mols.
  rewrite Hmols, bind_Ok, tally_loop, bind_Ok by done.
  apply render_loop. intros c Hc.
  apply mol_str_spec; [done|]. by eapply tally_keys_length.
Qed.

Lemma tally_injective self mols :
  formula_injective_on self mols →
  ∀ c1 c2, c1 ∈ (composition_tally self mols).*1 →
           c2 ∈ (composition_tally self mols).*1 →
           formula self c1 = formula self c2 → c1 = c2.
Proof.
  unfold composition_tally. intros Hinj c1 c2 Hc1 Hc2.
  rewrite tally_of_keys in Hc1, Hc2.
  apply list_elem_of_fmap in Hc1 as (mol1 & -> & Hm1).
  apply list_elem_of_fmap in Hc2 as (mol2 & -> & Hm2).
  by apply Hinj.
Qed.

(** C7, amended: on a well-formed frame and grouping whose distinct
    compositions have distinct formula strings, the string [count_mols]
    builds for a component is [formula] of its composition -- for each
    type in ascending id with a non-zero count, the symbol immediately
    followed by the count, nothing in between -- and the returned map
    sends each such string to the number of components yielding it, and
    has no other key. *)
Theorem count_mols_formula_counts
    cyn cym self mode cut_off bond_length mols :
  AnalyzeFrame.get_mols_list cyn cym self mode cut_off bond_length = Ok mols →
  frame_wf self →
  is_partition (get_total_atoms self) mols →
  formula_injective_on self mols →
  ∃ mols_count,
    AnalyzeFrame.count_mols cyn cym self mode cut_off bond_length
    = Ok mols_count
    ∧ (∀ mol, mol ∈ mols →
         (AnalyzeFrame.atom_type_count self mol ≫= AnalyzeFrame.mol_str self)
         = Ok (formula self (composition self mol)))
    ∧ ∀ s n, mols_count !! s = Some n
             ↔ 0 < n ∧ n = components_with_formula self mols s.
Proof.
  intros Hmols Hwf Hpart Hinj. eexists. split_and!.
  - by apply count_mols_render.
  - intros mol Hmol.
    rewrite atom_type_count_spec, bind_Ok;
      [|done|intros i Hi; by eapply partition_in_range].
    apply mol_str_spec; [done|]. apply composition_length.
  - intros s n.
    rewrite render_lookup
      by (apply tally_of_NoDup || by apply tally_injective).
    unfold composition_tally, components_with_formula.
    setoid_rewrite elem_of_tally_of. setoid_rewrite length_filter_fmap.
    split.
    + intros (c & [(mol & -> & Hmol)%list_elem_of_fmap ->] & <-).
      assert (filter (λ x, composition self mol = composition self x) mols
              = filter (λ x, formula self (composition self x)
                             = formula self (composition self mol)) mols)
        as ->.
      { apply filter_ext_in. intros mol' Hmol'. split.
        - by intros <-.
        - intros Heq. symmetry. by apply Hinj. }
      split; [|done].
      assert (mol ∈ filter (λ x, formula self (composition self x)
                                 = formula self (composition self mol)) mols)
        as Hin by by apply list_elem_of_filter.
      destruct (filter _ mols); [by apply elem_of_nil in Hin | simpl; lia].
    + intros [Hpos ->].
      destruct (filter (λ mol, formula self (composition self mol) = s) mols)
        as [|mol rest] eqn:Hfilter; [simpl in Hpos; lia|].
      assert (mol ∈ filter (λ mol, formula self (composition self mol) = s)
                      mols) as [Hs Hmol]%list_elem_of_filter
        by (rewrite Hfilter; by left).
      exists (composition self mol). split; [|done]. split.
      * apply list_elem_of_fmap. by exists mol.
      * rewrite <-Hfilter. f_equal. apply filter_ext_in.
        intros mol' Hmol'. rewrite <-Hs. split.
        -- intros Heq. symmetry. by apply Hinj.
        -- by intros <-.
Qed.

(** C10: on a well-formed frame, for a grouping that partitions the
    atom indices and a formula mapping that is injective on the
    compositions present, the values of the map returned by
    [count_mols] sum to the number of components. *)
Theorem count_mols_total cyn cym self mode cut_off bond_length mols :
  AnalyzeFrame.get_mols_list cyn cym self mode cut_off bond_length = Ok mols →
  frame_wf self →
  is_partition (get_total_atoms self) mols →
  formula_injective_on self mols →
  ∃ mols_count,
    AnalyzeFrame.count_mols cyn cym self mode cut_off bond_length
    = Ok mols_count
    ∧ sum_values mols_count = length mols.
Proof.
  intros Hmols Hwf Hpart Hinj. eexists. split.
  - by apply count_mols_render.
  - rewrite render_sum by (apply tally_of_NoDup || by apply tally_injective).
    unfold composition_tally. by rewrite tally_of_sum, length_fmap.
Qed.

End count_mols.

(** * The earlier class against the current one *)

Section old_new.
Context {num : Type} `{PyNum num}.
Implicit Types (self : Frame num) (mols : list (list nat)) (c : list nat).
Implicit Types (cyn : NeighborArgs num → result (list (list nat))).
Implicit Types (cym : list (list nat) → nat → result (list (list nat))).

(** The two classes share the neighbor list and the grouping. *)
Lemma get_mols_list_same cyn cym self mode cut_off bond_length :
  AnalizeFrame.get_mols_list cyn cym self mode cut_off bond_length
  = AnalyzeFrame.get_mols_list cyn cym self mode cut_off bond_length.
Proof. reflexivity. Qed.

Lemma spaced_mol_str_prefix self c (n : nat) :
  frame_wf self → n ≤ length c → length c ≤ n_symbols self →
  foldM (λ mol_str atom_type,
           py_get c atom_type ≫= λ cnt,
           if cnt =? 0 then Ok mol_str
           else if bool_decide (mol_str = "") then
             dict_get (atom_type_to_symbol self) (Z.of_nat atom_type + 1)%Z
             ≫= λ sym, Ok (sym +:+ pretty cnt)
           else
             dict_get (atom_type_to_symbol self) (Z.of_nat atom_type + 1)%Z
             ≫= λ sym, Ok (mol_str +:+ " " +:+ sym +:+ pretty cnt))
        "" (seq 0 n)
  = Ok (spaced_formula self (take n c)).
Proof.
  intros Hwf. induction n as [|n IH]; intros Hn Hlen; [done|].
  rewrite seq_S, foldM_app, IH by lia. rewrite bind_Ok. simpl.
  destruct (lookup_lt_is_Some_2 c n) as [x Hx]; [lia|].
  rewrite (py_get_Ok _ _ _ Hx), bind_Ok, (take_S_r _ _ _ Hx).
  unfold spaced_formula. rewrite groups_snoc, length_take, Nat.min_l by lia.
  destruct (Nat.eqb_spec x 0) as [->|Hne].
  - by rewrite decide_True, app_nil_r by done.
  - rewrite decide_False by done.
    rewrite symbol_get by (done || lia). rewrite !bind_Ok, concat_snoc.
    pose proof (groups_nonempty self (take n c)) as Hgs.
    destruct (groups self (take n c)) as [|g gs] eqn:Hg.
    + by rewrite bool_decide_eq_true_2.
    + by rewrite bool_decide_eq_false_2 by by apply concat_nonempty.
Qed.

Lemma spaced_mol_str_spec self c :
  frame_wf self → length c = n_symbols self →
  AnalizeFrame.mol_str self c = Ok (spaced_formula self c).
Proof.
  intros Hwf Hlen. unfold AnalizeFrame.mol_str. fold (n_symbols self).
  rewrite <-Hlen, (spaced_mol_str_prefix self c (length c)) by (done || lia).
  by rewrite firstn_all.
Qed.

Lemma old_count_mols_render cyn cym self mode cut_off bond_length mols :
  AnalyzeFrame.get_mols_list cyn cym self mode cut_off bond_length = Ok mols →
  frame_wf self → is_partition (get_total_atoms self) mols →
  AnalizeFrame.count_mols cyn cym self mode cut_off bond_length
  = Ok (render (spaced_formula self) (composition_tally self mols)).
Proof.
  intros Hmols Hwf Hpart. unfold AnalizeFrame.count_mols.
  rewrite get_mols_list_same, Hmols, bind_Ok.
  change (AnalizeFrame.atom_type_count self)
    with (AnalyzeFrame.atom_type_count self).
  rewrite (tally_loop self mols Hwf Hpart), bind_Ok.
  apply render_loop. intros c Hc.
  apply spaced_mol_str_spec; [done|]. by eapply tally_keys_length.
Qed.

Lemma one_group_formula self c :
  length (groups self c) ≤ 1 → spaced_formula self c = formula self c.
Proof.
  unfold spaced_formula, formula.
  destruct (groups self c) as [|g [|g' gs]]; simpl; [done..|lia].
Qed.

(** C9, amended: for identical inputs on a well-formed frame and
    grouping, the earlier [count_mols] and the current one render the
    same composition tally, in the same order and with the same counts;
    only the keys differ, the earlier class joining the
    [<Symbol><Count>] groups of a composition with single spaces where
    the current one concatenates them.  The two maps are equal when no
    component has more than one group, that is more than one atom
    type. *)
Theorem count_mols_old_new cyn cym self mode cut_off bond_length mols :
  AnalyzeFrame.get_mols_list cyn cym self mode cut_off bond_length = Ok mols →
  frame_wf self →
  is_partition (get_total_atoms self) mols →
  AnalyzeFrame.count_mols cyn cym self mode cut_off bond_length
  = Ok (render (λ c, String.concat "" (groups self c))
          (composition_tally self mols))
  ∧ AnalizeFrame.count_mols cyn cym self mode cut_off bond_length
    = Ok (render (λ c, String.concat " " (groups self c))
            (composition_tally self mols))
  ∧ ((∀ mol, mol ∈ mols → length (groups self (composition self mol)) ≤ 1) →
     AnalizeFrame.count_mols cyn cym self mode cut_off bond_length
     = AnalyzeFrame.count_mols cyn cym self mode cut_off bond_length).
Proof.
  intros Hmols Hwf Hpart. split_and!.
  - by apply count_mols_render.
  - by apply old_count_mols_render.
  - intros Hone.
    rewrite (count_mols_render _ _ _ _ _ _ _ Hmols Hwf Hpart).
    rewrite (old_count_mols_render _ _ _ _ _ _ _ Hmols Hwf Hpart).
    f_equal. apply render_ext. intros c Hc.
    unfold composition_tally in Hc. rewrite tally_of_keys in Hc.
    apply list_elem_of_fmap in Hc as (mol & -> & Hmol).
    by apply one_group_formula, Hone.
Qed.

End old_new.

(** * Bond-type counts, [count_bonds] *)

Lemma foldl_bind {A B C : Type} (g : A → C → A) (f : B → list C) (a : A)
    (l : list B) :
  foldl g a (l ≫= f) = foldl (λ acc x, foldl g acc (f x)) a l.
Proof.
  revert a. induction l as [|x l IH]; intros a; [done|].
  rewrite bind_cons, foldl_app. apply IH.
Qed.

Lemma foldl_ext {A B : Type} (f g : A → B → A) (a : A) (l : list B) :
  (∀ a x, f a x = g a x) → foldl f a l = foldl g a l.
Proof.
  intros Hfg. revert a. induction l as [|x l IH]; intros a; [done|].
  simpl. by rewrite Hfg, IH.
Qed.

Lemma type_pairs_NoDup (T : nat) : NoDup (type_pairs T).
Proof.
  apply NoDup_bind; [| |apply NoDup_seq].
  - intros a1 a2 [a b] _ _ (b1 & [= -> ->] & _)%list_elem_of_fmap
      (b2 & [= -> _] & _)%list_elem_of_fmap. done.
  - intros a _. apply NoDup_fmap_2; [|apply NoDup_seq].
    by intros b1 b2 [= ->].
Qed.

Lemma elem_of_type_pairs (T a b : nat) :
  (a, b) ∈ type_pairs T ↔ 1 ≤ a ∧ a ≤ b ∧ b ≤ T.
Proof.
  unfold type_pairs. rewrite list_elem_of_bind. split.
  - intros (a' & (b' & [= -> ->] & Hb%elem_of_seq)%list_elem_of_fmap
            & Ha%elem_of_seq). lia.
  - intros (Ha & Hab & Hb). exists a. split.
    + apply list_elem_of_fmap. exists b. split; [done|].
      apply elem_of_seq. lia.
    + apply elem_of_seq. lia.
Qed.

Lemma type_pairs_length (T : nat) : 2 * length (type_pairs T) = T * (T + 1).
Proof.
  unfold type_pairs.
  assert (∀ k m, 2 * length (seq k m ≫= λ a, (λ b, (a, b))
                                <$> seq a (k + m - a)) = m * (m + 1)) as Hgen.
  { intros k m. revert k. induction m as [|m IH]; intros k; [done|].
    cbn [seq]. rewrite bind_cons, length_app, length_fmap, length_seq.
    replace (k + S m) with (S k + m) by lia. rewrite Nat.mul_add_distr_l, IH.
    lia. }
  specialize (Hgen 1 T). by replace (1 + T) with (T + 1) in Hgen by lia.
Qed.

Section count_bonds.
Context {num : Type} `{PyNum num}.
Implicit Types (self : Frame num) (M : list (list nat)).
Implicit Types (nl : list (list nat)) (e : nat * nat).

Lemma bond_type_of self (i : nat) :
  bond_frame_wf self → i < get_total_atoms self →
  ∃ t, type_of self i = Some t ∧ (1 ≤ t ≤ Z.of_nat (n_types self))%Z.
Proof.
  intros [Hty _ _] Hi. unfold type_of, get_total_atoms in *.
  destruct (lookup_lt_is_Some_2 (atoms self) i Hi) as [a Ha].
  exists (a_type a). rewrite list_lookup_fmap, Ha. split; [done|].
  apply Hty. by eapply list_elem_of_lookup_2.
Qed.

(** One increment on a T×T matrix, for types within 1..T. *)
Lemma incr_at_square (T : nat) M (ti tj : Z) :
  is_square T M → (1 ≤ ti ≤ Z.of_nat T)%Z → (1 ≤ tj ≤ Z.of_nat T)%Z →
  incr_at M (ti - 1) (tj - 1)
  = Ok (<[Z.to_nat (ti - 1) :=
            alter S (Z.to_nat (tj - 1))
              (default [] (M !! Z.to_nat (ti - 1)))]> M)
  ∧ is_square T
      (<[Z.to_nat (ti - 1) :=
           alter S (Z.to_nat (tj - 1))
             (default [] (M !! Z.to_nat (ti - 1)))]> M).
Proof.
  intros [Hlen Hrows] Hti Htj. unfold incr_at.
  destruct (lookup_lt_is_Some_2 M (Z.to_nat (ti - 1))) as [row Hrow]; [lia|].
  assert (length row = T) as Hrowlen.
  { eapply (proj1 (Forall_lookup _ _) Hrows). exact Hrow. }
  replace (ti - 1)%Z with (Z.of_nat (Z.to_nat (ti - 1))) at 1 by lia.
  rewrite py_index_Ok, bind_Ok by lia.
  rewrite (py_get_Ok _ _ _ Hrow), bind_Ok, Hrow. simpl.
  replace (tj - 1)%Z with (Z.of_nat (Z.to_nat (tj - 1))) at 1 by lia.
  rewrite py_index_Ok, bind_Ok by lia. split; [done|]. split.
  - by rewrite length_insert.
  - apply Forall_insert; [done|]. by rewrite length_alter.
Qed.

Lemma bump_pair_square self M e :
  bond_frame_wf self → is_square (n_types self) M →
  e.1 < get_total_atoms self → e.2 < get_total_atoms self →
  is_square (n_types self) (bump_pair self M e).
Proof.
  intros Hwf HM H1 H2. unfold bump_pair.
  destruct (bond_type_of self e.1 Hwf H1) as (ti & -> & Hti).
  destruct (bond_type_of self e.2 Hwf H2) as (tj & -> & Htj).
  by apply incr_at_square.
Qed.

(** The inner loop of the counting phase, over the neighbors of [i]. *)
Lemma bond_row_loop self M (i : nat) (ti : Z) (row : list nat) :
  bond_frame_wf self → is_square (n_types self) M →
  type_of self i = Some ti → i < get_total_atoms self →
  (∀ j, j ∈ row → j < get_total_atoms self) →
  foldM (λ count_bonds_list atom_j_idx,
           if i <? atom_j_idx then
             py_get (a_type <$> atoms self) atom_j_idx ≫= λ atom_j_type,
             incr_at count_bonds_list (ti - 1)%Z (atom_j_type - 1)%Z
           else Ok count_bonds_list)
        M row
  = Ok (foldl (bump_pair self) M (row_edges i row))
  ∧ is_square (n_types self) (foldl (bump_pair self) M (row_edges i row)).
Proof.
  intros Hwf HM Hti Hi. revert M HM.
  induction row as [|j row IH]; intros M HM Hrow; [done|].
  assert (j < get_total_atoms self) as Hj by (apply Hrow; by left).
  assert (∀ j', j' ∈ row → j' < get_total_atoms self) as Hrow'
    by (intros j' Hj'; apply Hrow; by right).
  cbn [foldM]. unfold row_edges. rewrite filter_cons.
  destruct (Nat.ltb_spec i j) as [Hij|Hij].
  - rewrite decide_True by done.
    destruct (bond_type_of self j Hwf Hj) as (tj & Htj & Htjr).
    destruct (bond_type_of self i Hwf Hi) as (ti' & Hti' & Htir).
    assert (ti' = ti) as -> by congruence.
    rewrite (py_get_Ok _ _ _ Htj), bind_Ok.
    destruct (incr_at_square (n_types self) M ti tj HM Htir Htjr)
      as [-> HM'].
    rewrite bind_Ok. cbn [fmap list_fmap foldl].
    assert (bump_pair self M (i, j)
            = <[Z.to_nat (ti - 1) :=
                  alter S (Z.to_nat (tj - 1))
                    (default [] (M !! Z.to_nat (ti - 1)))]> M) as ->
      by (unfold bump_pair; simpl; by rewrite Hti, Htj).
    by apply IH.
  - rewrite decide_False by lia. rewrite bind_Ok. by apply IH.
Qed.

(** The counting phase: the pairs visited are those of the edge index. *)
Lemma bond_atom_loop self nl M (k m : nat) :
  bond_frame_wf self → is_square (n_types self) M →
  length nl = get_total_atoms self →
  (∀ i j, bonded nl i j → j < get_total_atoms self) →
  k + m ≤ get_total_atoms self →
  foldM (λ count_bonds_list atom_i_idx,
           py_get (a_type <$> atoms self) atom_i_idx ≫= λ atom_i_type,
           py_get nl atom_i_idx ≫= λ neighbors,
           foldM (λ count_bonds_list atom_j_idx,
                    if atom_i_idx <? atom_j_idx then
                      py_get (a_type <$> atoms self) atom_j_idx
                      ≫= λ atom_j_type,
                      incr_at count_bonds_list
                        (atom_i_type - 1)%Z (atom_j_type - 1)%Z
                    else Ok count_bonds_list)
                 count_bonds_list neighbors)
        M (seq k m)
  = Ok (foldl (bump_pair self) M (edges_from nl k m))
  ∧ is_square (n_types self) (foldl (bump_pair self) M (edges_from nl k m)).
Proof.
  intros Hwf HM Hlen Hnl. revert k M HM.
  induction m as [|m IH]; intros k M HM Hk; [done|].
  cbn [seq foldM].
  destruct (bond_type_of self k Hwf) as (ti & Hti & Htir); [lia|].
  destruct (lookup_lt_is_Some_2 nl k) as [row Hrow]; [lia|].
  assert (neighbors_of nl k = row) as Hnk
    by (unfold neighbors_of; by rewrite Hrow).
  rewrite (py_get_Ok _ _ _ Hti), bind_Ok, (py_get_Ok _ _ _ Hrow), bind_Ok.
  destruct (bond_row_loop self M k ti row Hwf HM Hti) as [-> HM'];
    [lia| |].
  { intros j Hj. apply (Hnl k). unfold bonded. by rewrite Hnk. }
  rewrite bind_Ok. unfold edges_from. cbn [seq].
  rewrite bind_cons, foldl_app, Hnk. apply IH; [done | lia].
Qed.

Lemma cell_of_bump_pair self M e (a b : nat) :
  bond_frame_wf self → is_square (n_types self) M →
  e.1 < get_total_atoms self → e.2 < get_total_atoms self →
  cell_of (bump_pair self M e) a b
  = cell_of M a b
    + (if decide (type_of self e.1 = Some (Z.of_nat (S a))
                  ∧ type_of self e.2 = Some (Z.of_nat (S b)))
       then 1 else 0).
Proof.
  intros Hwf [Hlen Hrows] H1 H2. unfold bump_pair, cell_of.
  destruct (bond_type_of self e.1 Hwf H1) as (ti & -> & Hti).
  destruct (bond_type_of self e.2 Hwf H2) as (tj & -> & Htj).
  destruct (lookup_lt_is_Some_2 M (Z.to_nat (ti - 1))) as [row Hrow]; [lia|].
  assert (length row = n_types self) as Hrowlen.
  { eapply (proj1 (Forall_lookup _ _) Hrows). exact Hrow. }
  rewrite Hrow. simpl.
  destruct (decide (a = Z.to_nat (ti - 1))) as [->|Ha].
  - rewrite list_lookup_insert_eq by lia. rewrite Hrow. simpl.
    destruct (decide (b = Z.to_nat (tj - 1))) as [->|Hb].
    + rewrite list_lookup_alter, decide_True by done.
      destruct (lookup_lt_is_Some_2 row (Z.to_nat (tj - 1))) as [n ->];
        [lia|].
      simpl. rewrite decide_True; [lia|]. split; f_equal; lia.
    + rewrite list_lookup_alter_ne by done.
      rewrite decide_False; [lia|]. intros [_ [= Heq]]. lia.
  - rewrite list_lookup_insert_ne by done.
    rewrite decide_False; [lia|]. intros [[= Heq] _]. lia.
Qed.

Lemma cell_of_pairs self M (es : list (nat * nat)) (a b : nat) :
  bond_frame_wf self → is_square (n_types self) M →
  (∀ e, e ∈ es → e.1 < get_total_atoms self ∧ e.2 < get_total_atoms self) →
  cell_of (foldl (bump_pair self) M es) a b
  = cell_of M a b + typed_pairs self es (S a) (S b).
Proof.
  intros Hwf. revert M. induction es as [|e es IH]; intros M HM Hes.
  - unfold typed_pairs. simpl. lia.
  - destruct (Hes e) as [H1 H2]; [by left|].
    cbn [foldl]. rewrite IH.
    + rewrite cell_of_bump_pair by done. unfold typed_pairs.
      rewrite filter_cons. destruct (decide _); simpl; lia.
    + by apply bump_pair_square.
    + intros e' He'. apply Hes. by right.
Qed.

Lemma bond_symbol_get self (a : nat) :
  bond_frame_wf self → 1 ≤ a ≤ n_types self →
  dict_get (atom_type_to_symbol self) (Z.of_nat a)
  = Ok (symbol_of self (Z.of_nat a)).
Proof.
  intros [_ Hsym _] Ha. unfold symbol_of.
  destruct (Hsym (Z.of_nat a)) as [sym Hs]; [lia|].
  by rewrite (dict_get_Ok _ _ _ Hs), Hs.
Qed.

Lemma cell_of_get M (T a b : nat) :
  is_square T M → a < T → b < T →
  (py_get M a ≫= λ row, py_get row b) = Ok (cell_of M a b).
Proof.
  intros [Hlen Hrows] Ha Hb. unfold cell_of.
  destruct (lookup_lt_is_Some_2 M a) as [row Hrow]; [lia|].
  assert (length row = T) as Hrowlen.
  { eapply (proj1 (Forall_lookup _ _) Hrows). exact Hrow. }
  destruct (lookup_lt_is_Some_2 row b) as [v Hv]; [lia|].
  rewrite (py_get_Ok _ _ _ Hrow), bind_Ok, (py_get_Ok _ _ _ Hv), Hrow.
  simpl. by rewrite Hv.
Qed.

(** The output phase: one key for each type pair. *)
Lemma bond_dict_loop self M :
  bond_frame_wf self → is_square (n_types self) M →
  foldM (λ count_bonds_dict atom_i_type,
           foldM (λ (count_bonds_dict : gmap string nat) atom_j_type,
                    dict_get (atom_type_to_symbol self) (Z.of_nat atom_i_type)
                    ≫= λ sym_i,
                    dict_get (atom_type_to_symbol self) (Z.of_nat atom_j_type)
                    ≫= λ sym_j,
                    py_get M (atom_i_type - 1) ≫= λ row,
                    py_get row (atom_j_type - 1) ≫= λ v,
                    Ok (<[sym_i +:+ "-" +:+ sym_j := v]> count_bonds_dict))
                 count_bonds_dict
                 (seq atom_i_type (n_types self + 1 - atom_i_type)))
        ∅ (seq 1 (n_types self))
  = Ok (render (bond_key self)
          ((λ p, (p, cell_of M (p.1 - 1) (p.2 - 1)))
             <$> type_pairs (n_types self))).
Proof.
  intros Hwf HM.
  rewrite (foldM_pure _
    (λ d a, foldl (λ d b, <[bond_key self (a, b)
                             := cell_of M (a - 1) (b - 1)]> d)
              d (seq a (n_types self + 1 - a)))).
  - f_equal. unfold render, type_pairs. rewrite foldl_fmap, foldl_bind.
    apply foldl_ext. intros d a. by rewrite foldl_fmap.
  - intros d a Ha%elem_of_seq. apply foldM_pure.
    intros d' b Hb%elem_of_seq.
    rewrite !bond_symbol_get, !bind_Ok by (done || lia).
    pose proof (cell_of_get M (n_types self) (a - 1) (b - 1) HM) as Hcell.
    destruct (py_get M (a - 1)) as [row|err]; simpl in *;
      [|by (discriminate Hcell; lia)].
    rewrite Hcell by lia. done.
Qed.

Lemma cell_of_zero (T a b : nat) :
  cell_of (replicate T (replicate T 0)) a b = 0.
Proof.
  unfold cell_of.
  destruct (replicate T (replicate T 0) !! a) as [row|] eqn:Hrow; [|done].
  apply lookup_replicate in Hrow as [-> _]. simpl.
  destruct (replicate T 0 !! b) as [v|] eqn:Hv; [|done].
  by apply lookup_replicate in Hv as [-> _].
Qed.

Lemma zero_matrix_square (T : nat) :
  is_square T (replicate T (replicate T 0)).
Proof.
  split; [by rewrite length_replicate|].
  apply Forall_replicate. by rewrite length_replicate.
Qed.

(** What [count_bonds] returns on a well-formed frame and neighbor
    list: one key for each of the T(T+1)/2 type pairs a ≤ b, holding the
    number of bonded pairs i < j in which atom i has type a and atom j
    has type b.  A bond whose lower-indexed atom has the higher type is
    in none of the counts. *)
Lemma count_bonds_ascending_pairs
    (cy : NeighborArgs num → result (list (list nat))) self mode
    (cut_off : option num) (bond_length : option (list (list num))) nl :
  AnalyzeFrame.get_neighbor_list cy self mode cut_off bond_length = Ok nl →
  neighbor_list_wf (get_total_atoms self) nl →
  bond_frame_wf self →
  ∃ count_bonds_dict,
    AnalyzeFrame.count_bonds cy self mode cut_off bond_length
    = Ok count_bonds_dict
    ∧ 2 * size count_bonds_dict = n_types self * (n_types self + 1)
    ∧ ∀ a b, 1 ≤ a → a ≤ b → b ≤ n_types self →
        count_bonds_dict !! bond_key self (a, b)
        = Some (typed_pairs self
                  (edges_from nl 0 (get_total_atoms self)) a b).
Proof.
  intros Hnl [Hlen Hsets Hsym Hirr] Hwf.
  assert (∀ i j, bonded nl i j → j < get_total_atoms self) as Hrange.
  { intros i j Hij%Hsym%bonded_lt. lia. }
  unfold AnalyzeFrame.count_bonds. rewrite Hnl, bind_Ok.
  fold (n_types self).
  destruct (bond_atom_loop self nl
              (replicate (n_types self) (replicate (n_types self) 0))
              0 (get_total_atoms self) Hwf (zero_matrix_square _) Hlen
              Hrange) as [-> HM]; [lia|].
  rewrite bind_Ok, (bond_dict_loop self _ Hwf HM).
  eexists. split; [done|].
  assert (((λ p : nat * nat,
              (p, cell_of
                    (foldl (bump_pair self)
                       (replicate (n_types self)
                          (replicate (n_types self) 0))
                       (edges_from nl 0 (get_total_atoms self)))
                    (p.1 - 1) (p.2 - 1)))
             <$> type_pairs (n_types self)).*1
          = type_pairs (n_types self)) as Hkeys.
  { rewrite <-list_fmap_compose. apply list_fmap_id. }
  split.
  - rewrite render_size, length_fmap.
    + apply type_pairs_length.
    + rewrite Hkeys. apply type_pairs_NoDup.
    + rewrite Hkeys. by destruct Hwf.
  - intros a b Ha Hab Hb. apply render_lookup.
    + rewrite Hkeys. apply type_pairs_NoDup.
    + rewrite Hkeys. by destruct Hwf.
    + exists (a, b). split; [|done].
      apply list_elem_of_fmap. exists (a, b). split.
      * simpl. f_equal.
        rewrite cell_of_pairs, cell_of_zero; [|done|apply zero_matrix_square|].
        -- simpl. by replace (S (a - 1)) with a by lia;
             replace (S (b - 1)) with b by lia.
        -- intros [i j] (Hi & _ & Hij)%elem_of_edges_from. simpl.
           split; [lia | by eapply Hrange].
      * by apply elem_of_type_pairs.
Qed.

End count_bonds.

(** * The statistics on the sample frames *)

Lemma sample_wf : frame_wf sample.
Proof.
  assert (n_symbols sample = 2) as Hn by reflexivity.
  split; rewrite Hn.
  - intros a Ha. unfold sample, water_h2 in Ha. simpl in Ha.
    repeat (apply elem_of_cons in Ha as [->|Ha]; [simpl; lia|]).
    by apply elem_of_nil in Ha.
  - intros t Ht. assert (t = 1 ∨ t = 2)%Z as [-> | ->] by lia; by eexists.
Qed.

Lemma sample_partition :
  is_partition (get_total_atoms sample) [[0; 1; 2]; [3; 4]].
Proof. unfold is_partition. reflexivity. Qed.

Lemma sample_formulas_distinct :
  formula_injective_on sample [[0; 1; 2]; [3; 4]].
Proof.
  intros mol1 mol2 H1 H2 Heq.
  repeat (apply elem_of_cons in H1 as [->|H1]);
    repeat (apply elem_of_cons in H2 as [->|H2]);
    try (by apply elem_of_nil in H1); try (by apply elem_of_nil in H2);
    try reflexivity; vm_compute in Heq; discriminate.
Qed.

(** C7 as stated fails when two compositions share a formula string:
    with symbols "H" and "H1", eleven H atoms and one H1 atom both read
    "H11"; two components yield that string and the map holds 1. *)
Lemma formula_collision_loses_a_component :
  @AnalyzeFrame.count_mols Q Q_PyNum colliding_neighbors colliding_mols
    colliding "cut_off" (Some (3 # 2)%Q) None
  = Ok {[ "H11" := 1 ]}
  ∧ (AnalyzeFrame.atom_type_count colliding (seq 0 11)
       ≫= AnalyzeFrame.mol_str colliding) = Ok "H11"
  ∧ (AnalyzeFrame.atom_type_count colliding [11]
       ≫= AnalyzeFrame.mol_str colliding) = Ok "H11".
Proof. split_and!; vm_compute; reflexivity. Qed.

Lemma count_mols_formula_counts_witness :
  ∃ mols_count,
    @AnalyzeFrame.count_mols Q Q_PyNum water_h2_neighbors water_h2_mols
      sample "cut_off" (Some (3 # 2)%Q) None = Ok mols_count
    ∧ (∀ mol, mol ∈ [[0; 1; 2]; [3; 4]] →
         (AnalyzeFrame.atom_type_count sample mol
            ≫= AnalyzeFrame.mol_str sample)
         = Ok (formula sample (composition sample mol)))
    ∧ ∀ s n, mols_count !! s = Some n
             ↔ 0 < n
               ∧ n = components_with_formula sample [[0; 1; 2]; [3; 4]] s.
Proof.
  apply (@count_mols_formula_counts Q Q_PyNum water_h2_neighbors
           water_h2_mols sample "cut_off" (Some (3 # 2)%Q) None
           [[0; 1; 2]; [3; 4]]).
  - reflexivity.
  - exact sample_wf.
  - exact sample_partition.
  - exact sample_formulas_distinct.
Defined.

Lemma count_mols_total_witness :
  ∃ mols_count,
    @AnalyzeFrame.count_mols Q Q_PyNum water_h2_neighbors water_h2_mols
      sample "cut_off" (Some (3 # 2)%Q) None = Ok mols_count
    ∧ sum_values mols_count = 2.
Proof.
  apply (@count_mols_total Q Q_PyNum water_h2_neighbors water_h2_mols
           sample "cut_off" (Some (3 # 2)%Q) None [[0; 1; 2]; [3; 4]]).
  - reflexivity.
  - exact sample_wf.
  - exact sample_partition.
  - exact sample_formulas_distinct.
Defined.

(** C9 as stated fails on any component with two atom types: the
    current class writes "H2O1" where the earlier one wrote "H2 O1". *)
Lemma old_and_new_keys_differ :
  @AnalyzeFrame.count_mols Q Q_PyNum water_h2_neighbors water_h2_mols
    sample "cut_off" (Some (3 # 2)%Q) None
  = Ok {[ "H2O1" := 1; "H2" := 1 ]}
  ∧ @AnalizeFrame.count_mols Q Q_PyNum water_h2_neighbors water_h2_mols
      sample "cut_off" (Some (3 # 2)%Q) None
    = Ok {[ "H2 O1" := 1; "H2" := 1 ]}
  ∧ @AnalyzeFrame.count_mols Q Q_PyNum water_h2_neighbors water_h2_mols
      sample "cut_off" (Some (3 # 2)%Q) None
    ≠ @AnalizeFrame.count_mols Q Q_PyNum water_h2_neighbors water_h2_mols
        sample "cut_off" (Some (3 # 2)%Q) None.
Proof.
  split_and!; [vm_compute; reflexivity..|].
  intros Heq.
  apply (f_equal (λ r, match r with
                       | Ok d => d !! "H2O1"
                       | Err _ => None
                       end)) in Heq.
  vm_compute in Heq. discriminate.
Qed.

Lemma count_mols_old_new_witness :
  @AnalyzeFrame.count_mols Q Q_PyNum water_h2_neighbors water_h2_mols
    sample "cut_off" (Some (3 # 2)%Q) None
  = Ok (render (λ c, String.concat "" (groups sample c))
          (composition_tally sample [[0; 1; 2]; [3; 4]]))
  ∧ @AnalizeFrame.count_mols Q Q_PyNum water_h2_neighbors water_h2_mols
      sample "cut_off" (Some (3 # 2)%Q) None
    = Ok (render (λ c, String.concat " " (groups sample c))
            (composition_tally sample [[0; 1; 2]; [3; 4]]))
  ∧ ((∀ mol, mol ∈ [[0; 1; 2]; [3; 4]] →
             length (groups sample (composition sample mol)) ≤ 1) →
     @AnalizeFrame.count_mols Q Q_PyNum water_h2_neighbors water_h2_mols
       sample "cut_off" (Some (3 # 2)%Q) None
     = @AnalyzeFrame.count_mols Q Q_PyNum water_h2_neighbors water_h2_mols
         sample "cut_off" (Some (3 # 2)%Q) None).
Proof.
  apply (@count_mols_old_new Q Q_PyNum water_h2_neighbors water_h2_mols
           sample "cut_off" (Some (3 # 2)%Q) None [[0; 1; 2]; [3; 4]]).
  - reflexivity.
  - exact sample_wf.
  - exact sample_partition.
Defined.

(** ** [get_sum_of_momentums] over binary64 *)

(** The integers within the bound are read back from their binary64
    numbers. *)
Lemma int_value_inv (B : Z) (x : float) :
  (Z.abs (int_value B x) ≤ B)%Z →
  ∃ k, x = float_of_Z k ∧ int_value B x = k
       ∧ In k (seqZ (- B) (2 * B + 1)).
Proof.
  unfold int_value.
  destruct (List.find _ _) as [k|] eqn:Hfind; [|lia].
  intros _. apply List.find_some in Hfind as [Hin Heq].
  apply FloatAxioms.Leibniz.eqb_spec in Heq. by exists k.
Qed.

(** Binary64 adds the integers up to 32 without rounding. *)
Lemma int_value_exact : @exact_within float float_PyNum (int_value 32) 32.
Proof.
  split.
  - vm_compute. reflexivity.
  - intros x y Hb.
    destruct (int_value_inv 32 x) as (k & -> & Hk & Hkin); [lia|].
    destruct (int_value_inv 32 y) as (j & -> & Hj & Hjin); [lia|].
    rewrite Hk, Hj in *.
    assert (int_value_check 32 = true) as Hcheck
      by (vm_compute; reflexivity).
    unfold int_value_check in Hcheck.
    rewrite forallb_forall in Hcheck. specialize (Hcheck k Hkin).
    rewrite forallb_forall in Hcheck. specialize (Hcheck j Hjin).
    rewrite (proj2 (Z.leb_le _ _) Hb) in Hcheck.
    by apply Z.eqb_eq in Hcheck.
  - intros x y Hx Hy Heq.
    destruct (int_value_inv 32 x Hx) as (k & -> & Hk & _).
    destruct (int_value_inv 32 y Hy) as (j & -> & Hj & _).
    by rewrite Hk, Hj in Heq; subst.
Qed.

Lemma drift64_masses :
  ∀ t, t ∈ [2; 1; 1; 2; 1; 1; 1; 1; 2; 1]%Z →
       atom_type_to_mass drift64 !! t
       = Some (if decide (t = 1%Z) then 1%float else 4%float).
Proof.
  intros t Ht.
  repeat (apply elem_of_cons in Ht as [->|Ht]; [reflexivity|]).
  by apply elem_of_nil in Ht.
Qed.

Lemma drift64_weights :
  (weight (int_value 32)
     (@momentum_terms float float_PyNum
        (λ t, if decide (t = 1%Z) then 1%float else 4%float)
        [2; 1; 1; 2; 1; 1; 1; 1; 2; 1]%Z
        [1; -1; 2; 0; 1; 1; -2; 1; 1; -1]%float) ≤ 32)%Z
  ∧ (weight (int_value 32)
       (@momentum_terms float float_PyNum
          (λ t, if decide (t = 1%Z) then 1%float else 4%float)
          [2; 1; 1; 2; 1; 1; 1; 1; 2; 1]%Z
          [1; 1; 1; 1; 1; 1; 1; 1; 1; 1]%float) ≤ 32)%Z
  ∧ (weight (int_value 32)
       (@momentum_terms float float_PyNum
          (λ t, if decide (t = 1%Z) then 1%float else 4%float)
          [2; 1; 1; 2; 1; 1; 1; 1; 2; 1]%Z
          [-1; 0; 3; 1; -2; 0; 1; 1; -1; 2]%float) ≤ 32)%Z.
Proof. split_and!; vm_compute; discriminate. Qed.


(** On the ten atoms the three sums are 9, 19 and 1. *)
Lemma drift64_momentum :
  @AnalyzeFrame.get_sum_of_momentums float float_PyNum drift64
  = Ok [9; 19; 1]%float.
Proof. vm_compute. reflexivity. Qed.

(** Where additions round, the result follows the order of the pairwise
    sum: the eight products 1e16, 1, ..., 1 add up to 1e16 + 6 through
    the accumulators, and to 1e16 when accumulated in index order. *)
Lemma pairwise_order_on_rounding :
  @AnalyzeFrame.get_sum_of_momentums float float_PyNum heavy64
  = Ok [10000000000000006; 0; 0]%float
  ∧ @momentum_component float float_PyNum (λ _, 1%float)
      (replicate 8 1%Z) (1e16 :: replicate 7 1)%float
    = 1e16%float.
Proof. split; vm_compute; reflexivity. Qed.

(** ** [count_bonds] on the sample frame *)

(** C1: the sample frame has the bonds O-H (atoms 0 and 1), O-H (atoms 0
    and 2) and H-H (atoms 3 and 4).  The oxygen comes first and has the
    higher type id, so both O-H bonds are counted at (2, 1), a cell the
    output loop never reads: "H-O" is reported as 0 instead of 2. *)
Lemma count_bonds_drops_descending_type_pairs :
  @AnalyzeFrame.count_bonds Q Q_PyNum water_h2_neighbors sample
    "cut_off" (Some (3 # 2)%Q) None
  = Ok {[ "H-H" := 1; "H-O" := 0; "O-O" := 0 ]}.
Proof. vm_compute. reflexivity. Qed.

(** C2: on the same frame the reported counts sum to 1, the neighbor
    rows to 6: twice the former is 2, not 6. *)
Lemma count_bonds_sum_short :
  ∃ count_bonds_dict,
    @AnalyzeFrame.count_bonds Q Q_PyNum water_h2_neighbors sample
      "cut_off" (Some (3 # 2)%Q) None = Ok count_bonds_dict
    ∧ sum_values count_bonds_dict * 2 = 2
    ∧ sum_list (length <$> water_h2_bonds) = 6.
Proof. eexists. split_and!; vm_compute; reflexivity. Qed.

Lemma sample_bond_wf : bond_frame_wf sample.
Proof.
  assert (n_types sample = 2) as Hn by reflexivity.
  split; rewrite Hn.
  - intros a Ha. unfold sample, water_h2 in Ha. simpl in Ha.
    repeat (apply elem_of_cons in Ha as [->|Ha]; [simpl; lia|]).
    by apply elem_of_nil in Ha.
  - intros t Ht. assert (t = 1 ∨ t = 2)%Z as [-> | ->] by lia; by eexists.
  - intros p q Hp Hq Heq. unfold type_pairs in Hp, Hq. simpl in Hp, Hq.
    repeat (apply elem_of_cons in Hp as [->|Hp]);
      repeat (apply elem_of_cons in Hq as [->|Hq]);
      try (by apply elem_of_nil in Hp); try (by apply elem_of_nil in Hq);
      try reflexivity; vm_compute in Heq; discriminate.
Qed.

(** The general description of [count_bonds] at the sample frame: "H-O"
    holds the pairs i < j with atom i an H and atom j an O, of which
    there is none. *)
Lemma count_bonds_ascending_pairs_sample :
  ∃ count_bonds_dict,
    @AnalyzeFrame.count_bonds Q Q_PyNum water_h2_neighbors sample
      "cut_off" (Some (3 # 2)%Q) None = Ok count_bonds_dict
    ∧ 2 * size count_bonds_dict = n_types sample * (n_types sample + 1)
    ∧ ∀ a b, 1 ≤ a → a ≤ b → b ≤ n_types sample →
        count_bonds_dict !! bond_key sample (a, b)
        = Some (typed_pairs sample
                  (edges_from water_h2_bonds 0 (get_total_atoms sample)) a b).
Proof.
  apply (@count_bonds_ascending_pairs Q Q_PyNum water_h2_neighbors sample
           "cut_off" (Some (3 # 2)%Q) None water_h2_bonds).
  - reflexivity.
  - exact water_h2_bonds_wf.
  - exact sample_bond_wf.
Qed.

(** * Further properties of the front end *)

Section front_end_edges.
Context {num : Type} `{PyNum num}.
Implicit Types (self : Frame num) (cut_off : option num).
Implicit Types (bond_length : option (list (list num))).
Implicit Types cyn : NeighborArgs num → result (list (list nat)).
Implicit Types cym : list (list nat) → nat → result (list (list nat)).

Lemma unknown_mode cyn self mode cut_off bond_length :
  mode ≠ "bond_length" → mode ≠ "cut_off" →
  AnalyzeFrame.get_neighbor_list cyn self mode cut_off bond_length
  = Err (AssertionError "Please configure mode").
Proof.
  intros H1 H2. unfold AnalyzeFrame.get_neighbor_list.
  by rewrite !bool_decide_eq_false_2 by done.
Qed.

(** X1: a mode other than ["bond_length"] and ["cut_off"] makes
    [get_neighbor_list] fail its first assertion, and with it every
    method that starts from the neighbor list; neither compiled routine
    is reached. *)
Theorem unknown_mode_rejected cyn cym self mode cut_off bond_length :
  mode ≠ "bond_length" → mode ≠ "cut_off" →
  AnalyzeFrame.get_neighbor_list cyn self mode cut_off bond_length
  = Err (AssertionError "Please configure mode")
  ∧ AnalyzeFrame.get_mols_list cyn cym self mode cut_off bond_length
    = Err (AssertionError "Please configure mode")
  ∧ AnalyzeFrame.get_mols_dict cyn cym self mode cut_off bond_length
    = Err (AssertionError "Please configure mode")
  ∧ AnalyzeFrame.count_mols cyn cym self mode cut_off bond_length
    = Err (AssertionError "Please configure mode")
  ∧ AnalyzeFrame.count_bonds cyn self mode cut_off bond_length
    = Err (AssertionError "Please configure mode").
Proof.
  intros H1 H2.
  unfold AnalyzeFrame.get_mols_dict, AnalyzeFrame.count_mols,
    AnalyzeFrame.count_bonds, AnalyzeFrame.get_mols_list.
  by rewrite !unknown_mode by done.
Qed.

(** X2: with an empty symbol table (no atom type) [get_neighbor_list]
    raises in every mode, with an exception that does not depend on the
    search routine; in mode ["cut_off"] it is the [ValueError] of [max]
    on an empty sequence, whatever cut-off is passed or configured. *)
Theorem no_atom_type_no_search self mode cut_off bond_length :
  size (atom_symbol_to_type self) = 0 →
  ∃ e, (∀ cyn,
          AnalyzeFrame.get_neighbor_list cyn self mode cut_off bond_length
          = Err e)
       ∧ (mode = "cut_off" → e = ValueError).
Proof.
  intros HT. unfold AnalyzeFrame.get_neighbor_list. rewrite HT.
  destruct (decide (mode = "bond_length")) as [->|Hb].
  - cbn [py_assert bool_decide orb]. simpl.
    destruct (match bond_length with
              | Some b => Some b
              | None => default_bond_length (limda_default self)
              end) as [[|row M]|].
    + exists ValueError. done.
    + exists (AssertionError "Incorrect format of bond length"). done.
    + exists TypeError. done.
  - destruct (decide (mode = "cut_off")) as [->|Hc].
    + exists ValueError. done.
    + exists (AssertionError "Please configure mode").
      by rewrite !bool_decide_eq_false_2 by done.
Qed.

End front_end_edges.

Lemma unknown_mode_rejected_witness :
  @AnalyzeFrame.get_neighbor_list Q Q_PyNum water_h2_neighbors sample
    "bondlength" (Some (3 # 2)%Q) None
  = Err (AssertionError "Please configure mode")
  ∧ @AnalyzeFrame.get_mols_list Q Q_PyNum water_h2_neighbors water_h2_mols
      sample "bondlength" (Some (3 # 2)%Q) None
    = Err (AssertionError "Please configure mode")
  ∧ @AnalyzeFrame.get_mols_dict Q Q_PyNum water_h2_neighbors water_h2_mols
      sample "bondlength" (Some (3 # 2)%Q) None
    = Err (AssertionError "Please configure mode")
  ∧ @AnalyzeFrame.count_mols Q Q_PyNum water_h2_neighbors water_h2_mols
      sample "bondlength" (Some (3 # 2)%Q) None
    = Err (AssertionError "Please configure mode")
  ∧ @AnalyzeFrame.count_bonds Q Q_PyNum water_h2_neighbors
      sample "bondlength" (Some (3 # 2)%Q) None
    = Err (AssertionError "Please configure mode").
Proof.
  apply (@unknown_mode_rejected Q Q_PyNum water_h2_neighbors water_h2_mols
           sample "bondlength" (Some (3 # 2)%Q) None); discriminate.
Defined.

Lemma no_atom_type_no_search_witness :
  ∃ e, (∀ cyn,
          @AnalyzeFrame.get_neighbor_list Q Q_PyNum cyn bare "cut_off"
            (Some (3 # 2)%Q) None = Err e)
       ∧ ("cut_off" = "cut_off" → e = ValueError).
Proof.
  apply (@no_atom_type_no_search Q Q_PyNum bare "cut_off"
           (Some (3 # 2)%Q) None).
  reflexivity.
Defined.

(** * Groups of components, [get_mols_dict] *)

Section group_dict.
Implicit Types (k c : list nat) (mol : list nat).
Implicit Types d : list (list nat * list (list nat)).

Lemma sizes_dict_append k mol d :
  sizes (dict_append k mol d) = dict_incr k (sizes d).
Proof.
  induction d as [|[k' ms] d IH]; [done|].
  cbn [dict_append sizes fmap list_fmap dict_incr fst snd].
  destruct (decide (k = k')) as [->|Hne].
  - cbn [fmap list_fmap fst snd]. rewrite length_app. simpl.
    by replace (length ms + 1) with (S (length ms)) by lia.
  - cbn [fmap list_fmap fst snd]. f_equal. apply IH.
Qed.

Lemma sizes_keys d : (sizes d).*1 = d.*1.
Proof. unfold sizes. by rewrite <-list_fmap_compose. Qed.

Lemma stored_group_append k mol d c :
  stored_group c (dict_append k mol d)
  = if decide (c = k) then stored_group c d ++ [mol] else stored_group c d.
Proof.
  induction d as [|[k' ms] d IH]; simpl.
  - by destruct (decide (c = k)).
  - destruct (decide (k = k')) as [->|Hne]; simpl.
    + by destruct (decide (c = k')).
    + rewrite IH. destruct (decide (c = k')) as [->|]; [|done].
      by rewrite decide_False by done.
Qed.

Lemma elem_of_group_dict c (ms : list (list nat)) d :
  NoDup d.*1 → (c, ms) ∈ d ↔ c ∈ d.*1 ∧ stored_group c d = ms.
Proof.
  induction d as [|[k' ms'] d IH]; simpl.
  - intros _. rewrite !elem_of_nil. naive_solver.
  - intros [Hk' Hd]%NoDup_cons. rewrite !elem_of_cons, IH by done.
    destruct (decide (c = k')) as [->|Hne]; naive_solver.
Qed.

Lemma concat_dict_append k mol d :
  concat (dict_append k mol d).*2 ≡ₚ mol :: concat d.*2.
Proof.
  induction d as [|[k' ms] d IH]; [done|].
  cbn [dict_append]. destruct (decide (k = k')) as [->|Hne].
  - rewrite !fmap_cons. cbn [concat snd].
    rewrite <-(assoc_L (++)). cbn [app].
    by rewrite <-Permutation_middle.
  - rewrite !fmap_cons. cbn [concat snd]. rewrite IH.
    by rewrite <-Permutation_middle.
Qed.

End group_dict.

Lemma concat_Permutation {A : Type} (l k : list (list A)) :
  l ≡ₚ k → concat l ≡ₚ concat k.
Proof.
  induction 1 as [|x l k _ IH|x y l|l k m _ IH1 _ IH2]; simpl.
  - done.
  - by rewrite IH.
  - rewrite !(assoc_L (++)). f_equiv. apply Permutation_app_comm.
  - by etrans.
Qed.

Section render_values.
Context {K V : Type}.
Implicit Types (fmt : K → string) (d : list (K * V)).

Lemma render_values_list_to_map fmt d :
  render_values fmt d
  = list_to_map (reverse ((λ p, (fmt p.1, p.2)) <$> d)).
Proof.
  unfold render_values. induction d as [|p d IH] using rev_ind; [done|].
  by rewrite foldl_snoc, fmap_app, reverse_app, IH.
Qed.

Lemma render_values_NoDup fmt d :
  NoDup d.*1 →
  (∀ c1 c2, c1 ∈ d.*1 → c2 ∈ d.*1 → fmt c1 = fmt c2 → c1 = c2) →
  NoDup (reverse ((λ p, (fmt p.1, p.2)) <$> d)).*1.
Proof.
  intros Hd Hinj. rewrite fmap_reverse, reverse_Permutation.
  rewrite <-list_fmap_compose.
  change (NoDup ((fmt ∘ fst) <$> d)). rewrite list_fmap_compose.
  by apply NoDup_fmap_2_strong.
Qed.

Lemma render_values_lookup fmt d (s : string) (v : V) :
  NoDup d.*1 →
  (∀ c1 c2, c1 ∈ d.*1 → c2 ∈ d.*1 → fmt c1 = fmt c2 → c1 = c2) →
  render_values fmt d !! s = Some v ↔ ∃ c, (c, v) ∈ d ∧ fmt c = s.
Proof.
  intros Hd Hinj. rewrite render_values_list_to_map.
  rewrite <-elem_of_list_to_map by by apply render_values_NoDup.
  rewrite elem_of_reverse, list_elem_of_fmap. split.
  - intros ([c v'] & [= -> ->] & Hin). by exists c.
  - intros (c & Hin & <-). by exists (c, v).
Qed.

Lemma render_values_to_list fmt d :
  NoDup d.*1 →
  (∀ c1 c2, c1 ∈ d.*1 → c2 ∈ d.*1 → fmt c1 = fmt c2 → c1 = c2) →
  (map_to_list (render_values fmt d)).*2 ≡ₚ d.*2.
Proof.
  intros Hd Hinj. rewrite render_values_list_to_map.
  rewrite map_to_list_to_map by by apply render_values_NoDup.
  rewrite fmap_reverse, reverse_Permutation.
  by rewrite <-list_fmap_compose.
Qed.

End render_values.

Section get_mols_dict.
Context {num : Type} `{PyNum num}.
Implicit Types (self : Frame num) (mols : list (list nat)).
Implicit Types (cyn : NeighborArgs num → result (list (list nat))).
Implicit Types (cym : list (list nat) → nat → result (list (list nat))).

(** The counting loop runs in step with the collecting loop. *)
Lemma count_loop_sizes self mols (d : list (list nat * list (list nat))) :
  foldM (λ mols_count_tmp mol,
           AnalyzeFrame.atom_type_count self mol ≫= λ atom_type_count_tuple,
           Ok (dict_incr atom_type_count_tuple mols_count_tmp))
        (sizes d) mols
  = sizes <$> foldM (λ mols_dict_tmp mol,
                       AnalyzeFrame.atom_type_count self mol
                       ≫= λ atom_type_count_tuple,
                       Ok (dict_append atom_type_count_tuple mol
                             mols_dict_tmp))
                    d mols.
Proof.
  revert d. induction mols as [|mol mols IH]; intros d; [done|].
  cbn [foldM].
  destruct (AnalyzeFrame.atom_type_count self mol) as [c|e]; [|done].
  rewrite !bind_Ok, <-(sizes_dict_append c mol d). apply IH.
Qed.

Lemma render_loop_sizes self (m : gmap string (list (list nat)))
    (d : list (list nat * list (list nat))) :
  foldM (λ (mols_count : gmap string nat) '(atom_type_count, count),
           AnalyzeFrame.mol_str self atom_type_count ≫= λ mol_str,
           Ok (<[mol_str := count]> mols_count))
        (group_sizes m) (sizes d)
  = group_sizes
      <$> foldM (λ (mols_dict : gmap string (list (list nat)))
                   '(atom_type_count, mols),
                   AnalyzeFrame.mol_str self atom_type_count ≫= λ mol_str,
                   Ok (<[mol_str := mols]> mols_dict))
                m d.
Proof.
  revert m. induction d as [|[c ms] d IH]; intros m; [done|].
  cbn [sizes fmap list_fmap foldM fst snd].
  destruct (AnalyzeFrame.mol_str self c) as [s|e]; [|done].
  rewrite !bind_Ok. rewrite <-IH. unfold group_sizes.
  by rewrite fmap_insert.
Qed.

Lemma count_mols_sizes cyn cym self mode
    (cut_off : option num) (bond_length : option (list (list num))) :
  AnalyzeFrame.count_mols cyn cym self mode cut_off bond_length
  = group_sizes
      <$> AnalyzeFrame.get_mols_dict cyn cym self mode cut_off bond_length.
Proof.
  unfold AnalyzeFrame.count_mols, AnalyzeFrame.get_mols_dict.
  destruct (AnalyzeFrame.get_mols_list _ _ _ _ _ _) as [mols|e]; [|done].
  rewrite !bind_Ok.
  pose proof (count_loop_sizes self mols []) as Hloop.
  change (sizes []) with (@nil (list nat * nat)) in Hloop. rewrite Hloop.
  destruct (foldM (B:=list (list nat * list (list nat))) _ [] mols)
    as [d|e]; [|reflexivity].
  cbn [fmap result_fmap]. rewrite !bind_Ok.
  rewrite <-render_loop_sizes. unfold group_sizes. by rewrite fmap_empty.
Qed.

(** The two methods fail together, with the same exception. *)
Lemma get_mols_dict_raises cyn cym self mode
    (cut_off : option num) (bond_length : option (list (list num))) e :
  AnalyzeFrame.count_mols cyn cym self mode cut_off bond_length = Err e →
  AnalyzeFrame.get_mols_dict cyn cym self mode cut_off bond_length = Err e.
Proof.
  rewrite count_mols_sizes.
  destruct (AnalyzeFrame.get_mols_dict _ _ _ _ _ _) as [d|e']; [done|].
  by intros [= ->].
Qed.

(** X3: [count_mols] is [get_mols_dict] with every group replaced by its
    length -- same keys, same failures -- on every input: whatever the
    frame, the mode, the arguments and the two compiled routines do. *)
Theorem count_mols_of_mols_dict cyn cym self mode
    (cut_off : option num) (bond_length : option (list (list num))) :
  AnalyzeFrame.count_mols cyn cym self mode cut_off bond_length
  = group_sizes
      <$> AnalyzeFrame.get_mols_dict cyn cym self mode cut_off bond_length.
Proof. apply count_mols_sizes. Qed.

Lemma group_tally_snoc self mols (mol : list nat) :
  group_tally self (mols ++ [mol])
  = dict_append (composition self mol) mol (group_tally self mols).
Proof. unfold group_tally. by rewrite foldl_snoc. Qed.

Lemma sizes_group_tally self mols :
  sizes (group_tally self mols) = composition_tally self mols.
Proof.
  unfold composition_tally.
  induction mols as [|mol mols IH] using rev_ind; [done|].
  rewrite group_tally_snoc, sizes_dict_append, IH, fmap_app.
  change (composition self <$> [mol]) with [composition self mol].
  by rewrite tally_of_snoc.
Qed.

Lemma group_tally_keys self mols :
  (group_tally self mols).*1 = (composition_tally self mols).*1.
Proof. by rewrite <-sizes_group_tally, sizes_keys. Qed.

Lemma stored_group_tally self mols (c : list nat) :
  stored_group c (group_tally self mols)
  = filter (λ mol, c = composition self mol) mols.
Proof.
  induction mols as [|mol mols IH] using rev_ind; [done|].
  rewrite group_tally_snoc, stored_group_append, IH, filter_app.
  rewrite filter_cons, filter_nil.
  destruct (decide (c = composition self mol)); [done|].
  by rewrite app_nil_r.
Qed.

Lemma concat_group_tally self mols :
  concat (group_tally self mols).*2 ≡ₚ mols.
Proof.
  induction mols as [|mol mols IH] using rev_ind; [done|].
  rewrite group_tally_snoc, concat_dict_append, IH.
  by rewrite <-Permutation_cons_append.
Qed.

Lemma get_mols_dict_render cyn cym self mode
    (cut_off : option num) (bond_length : option (list (list num))) mols :
  AnalyzeFrame.get_mols_list cyn cym self mode cut_off bond_length = Ok mols →
  frame_wf self → is_partition (get_total_atoms self) mols →
  AnalyzeFrame.get_mols_dict cyn cym self mode cut_off bond_length
  = Ok (render_values (formula self) (group_tally self mols)).
Proof.
  intros Hmols Hwf Hpart. unfold AnalyzeFrame.get_mols_dict.
  rewrite Hmols, bind_Ok.
  rewrite (foldM_pure _ (λ d mol, dict_append (composition self mol) mol d)).
  - rewrite bind_Ok. fold (group_tally self mols).
    unfold render_values. apply foldM_pure. intros m [c ms] Hin.
    rewrite mol_str_spec; [done..|].
    apply (tally_keys_length self mols). rewrite <-group_tally_keys.
    apply list_elem_of_fmap. by exists (c, ms).
  - intros d mol Hmol. rewrite atom_type_count_spec; [done..|].
    intros i Hi. by eapply partition_in_range.
Qed.

(** X4: on a well-formed frame and grouping whose distinct compositions
    have distinct formula strings, [get_mols_dict] maps each formula
    string to the components having that formula, in the order of the
    grouping, and has no key without a component. *)
Theorem get_mols_dict_groups cyn cym self mode
    (cut_off : option num) (bond_length : option (list (list num))) mols :
  AnalyzeFrame.get_mols_list cyn cym self mode cut_off bond_length = Ok mols →
  frame_wf self →
  is_partition (get_total_atoms self) mols →
  formula_injective_on self mols →
  ∃ mols_dict,
    AnalyzeFrame.get_mols_dict cyn cym self mode cut_off bond_length
    = Ok mols_dict
    ∧ ∀ s group, mols_dict !! s = Some group
        ↔ group ≠ []
          ∧ group = filter (λ mol, formula self (composition self mol) = s)
                      mols.
Proof.
  intros Hmols Hwf Hpart Hinj. eexists. split.
  { by apply get_mols_dict_render. }
  intros s group.
  assert (NoDup (group_tally self mols).*1) as Hnd
    by (rewrite group_tally_keys; apply tally_of_NoDup).
  assert (∀ c1 c2, c1 ∈ (group_tally self mols).*1 →
                   c2 ∈ (group_tally self mols).*1 →
                   formula self c1 = formula self c2 → c1 = c2) as Hinj'
    by (rewrite group_tally_keys; by apply tally_injective).
  rewrite render_values_lookup by done.
  setoid_rewrite elem_of_group_dict; [|done].
  setoid_rewrite group_tally_keys. unfold composition_tally.
  setoid_rewrite tally_of_keys. setoid_rewrite stored_group_tally.
  split.
  - intros (c & [(mol & -> & Hmol)%list_elem_of_fmap <-] & <-).
    assert (filter (λ x, composition self mol = composition self x) mols
            = filter (λ x, formula self (composition self x)
                           = formula self (composition self mol)) mols)
      as ->.
    { apply filter_ext_in. intros mol' Hmol'. split.
      - by intros <-.
      - intros Heq. symmetry. by apply Hinj. }
    split; [|done].
    assert (mol ∈ filter (λ x, formula self (composition self x)
                               = formula self (composition self mol)) mols)
      as Hin by by apply list_elem_of_filter.
    intros Hnil. rewrite Hnil in Hin. by apply elem_of_nil in Hin.
  - intros [Hne ->].
    destruct (filter (λ mol, formula self (composition self mol) = s) mols)
      as [|mol rest] eqn:Hfilter; [done|].
    assert (mol ∈ filter (λ mol, formula self (composition self mol) = s)
                    mols) as [Hs Hmol]%list_elem_of_filter
      by (rewrite Hfilter; by left).
    exists (composition self mol). split; [|done]. split.
    + apply list_elem_of_fmap. by exists mol.
    + rewrite <-Hfilter. apply filter_ext_in.
      intros mol' Hmol'. rewrite <-Hs. split.
      * by intros <-.
      * intros Heq. symmetry. by apply Hinj.
Qed.

(** X5: under the same conditions the groups of [get_mols_dict] together
    hold every component of the grouping exactly once. *)
Theorem get_mols_dict_partition cyn cym self mode
    (cut_off : option num) (bond_length : option (list (list num))) mols :
  AnalyzeFrame.get_mols_list cyn cym self mode cut_off bond_length = Ok mols →
  frame_wf self →
  is_partition (get_total_atoms self) mols →
  formula_injective_on self mols →
  ∃ mols_dict,
    AnalyzeFrame.get_mols_dict cyn cym self mode cut_off bond_length
    = Ok mols_dict
    ∧ concat (map_to_list mols_dict).*2 ≡ₚ mols.
Proof.
  intros Hmols Hwf Hpart Hinj. eexists. split.
  { by apply get_mols_dict_render. }
  rewrite (concat_Permutation _ (group_tally self mols).*2).
  - apply concat_group_tally.
  - apply render_values_to_list.
    + rewrite group_tally_keys. apply tally_of_NoDup.
    + rewrite group_tally_keys. by apply tally_injective.
Qed.

End get_mols_dict.

Lemma get_mols_dict_groups_witness :
  ∃ mols_dict,
    @AnalyzeFrame.get_mols_dict Q Q_PyNum water_h2_neighbors water_h2_mols
      sample "cut_off" (Some (3 # 2)%Q) None = Ok mols_dict
    ∧ ∀ s group, mols_dict !! s = Some group
        ↔ group ≠ []
          ∧ group = filter (λ mol, formula sample (composition sample mol) = s)
                      [[0; 1; 2]; [3; 4]].
Proof.
  apply (@get_mols_dict_groups Q Q_PyNum water_h2_neighbors water_h2_mols
           sample "cut_off" (Some (3 # 2)%Q) None [[0; 1; 2]; [3; 4]]).
  - reflexivity.
  - exact sample_wf.
  - exact sample_partition.
  - exact sample_formulas_distinct.
Defined.

Lemma get_mols_dict_partition_witness :
  ∃ mols_dict,
    @AnalyzeFrame.get_mols_dict Q Q_PyNum water_h2_neighbors water_h2_mols
      sample "cut_off" (Some (3 # 2)%Q) None = Ok mols_dict
    ∧ concat (map_to_list mols_dict).*2 ≡ₚ [[0; 1; 2]; [3; 4]].
Proof.
  apply (@get_mols_dict_partition Q Q_PyNum water_h2_neighbors water_h2_mols
           sample "cut_off" (Some (3 # 2)%Q) None [[0; 1; 2]; [3; 4]]).
  - reflexivity.
  - exact sample_wf.
  - exact sample_partition.
  - exact sample_formulas_distinct.
Defined.

(** * Exceptions and wrap-around in the counting loops *)

(** A loop raises [e] when one of its items always does and the others
    either succeed or raise [e] too. *)
Lemma foldM_raises {A B : Type} (I : B → Prop) (f : B → A → result B)
    (e : exn) (b : B) (l : list A) :
  I b →
  (∀ b x, I b → x ∈ l → f b x = Err e ∨ ∃ b', f b x = Ok b' ∧ I b') →
  (∃ x, x ∈ l ∧ ∀ b, I b → f b x = Err e) →
  foldM f b l = Err e.
Proof.
  revert b. induction l as [|x l IH]; intros b Hb Hstep (y & Hy & Hbad).
  - by apply elem_of_nil in Hy.
  - cbn [foldM].
    destruct (Hstep b x Hb) as [Heq|(b' & Heq & Hb')]; [by left| |].
    { by rewrite Heq. }
    rewrite Heq, bind_Ok.
    apply elem_of_cons in Hy as [->|Hy].
    + rewrite (Hbad b Hb) in Heq. discriminate.
    + apply IH; [done| |by exists y].
      intros b'' z Hb'' Hz. apply Hstep; [done | by right].
Qed.

(** A loop whose body raises nothing but [e]. *)
Lemma foldM_cases {A B : Type} (I : B → Prop) (f : B → A → result B)
    (e : exn) (b : B) (l : list A) :
  I b →
  (∀ b x, I b → x ∈ l → f b x = Err e ∨ ∃ b', f b x = Ok b' ∧ I b') →
  foldM f b l = Err e ∨ ∃ b', foldM f b l = Ok b' ∧ I b'.
Proof.
  revert b. induction l as [|x l IH]; intros b Hb Hstep.
  - right. by exists b.
  - cbn [foldM].
    destruct (Hstep b x Hb) as [Heq|(b' & Heq & Hb')]; [by left| |].
    { left. by rewrite Heq. }
    rewrite Heq, bind_Ok. apply IH; [done|].
    intros b'' z Hb'' Hz. apply Hstep; [done | by right].
Qed.

Lemma py_index_wrapped (T : nat) (t : Z) :
  (1 - Z.of_nat T ≤ t ≤ Z.of_nat T)%Z →
  py_index T (t - 1) = Ok (slot T t) ∧ slot T t < T.
Proof.
  intros Ht. unfold py_index, slot.
  repeat case_bool_decide; split; done || lia.
Qed.

Lemma py_index_outside (T : nat) (t : Z) :
  ¬ (1 - Z.of_nat T ≤ t ≤ Z.of_nat T)%Z → py_index T (t - 1) = Err IndexError.
Proof.
  intros Ht. unfold py_index.
  by rewrite !bool_decide_eq_false_2 by lia.
Qed.

Section counting_loop.
Context {num : Type} `{PyNum num}.
Implicit Types (self : Frame num) (mol cnt : list nat).

(** One step of the counting loop: a success on an atom whose type
    indexes the counters, [IndexError] otherwise. *)
Lemma count_step_cases self cnt (i : nat) :
  length cnt = n_symbols self →
  (type_indexes self i
   ∧ count_step self cnt i = Ok (bump_wrapped self cnt i)
   ∧ length (bump_wrapped self cnt i) = n_symbols self)
  ∨ (¬ type_indexes self i ∧ count_step self cnt i = Err IndexError).
Proof.
  intros Hlen. unfold type_indexes, bump_wrapped, count_step, py_get.
  fold (type_of self i).
  destruct (type_of self i) as [t|]; simpl.
  - unfold incr_at1. rewrite Hlen.
    destruct (decide (1 - Z.of_nat (n_symbols self) ≤ t
                      ≤ Z.of_nat (n_symbols self))%Z) as [Ht|Ht].
    + left. destruct (py_index_wrapped _ _ Ht) as [-> _].
      rewrite length_alter. split_and!; [by exists t|done..].
    + right. rewrite py_index_outside by done. split; [|done].
      intros (t' & [= <-] & Ht'). done.
  - right. split; [|done]. by intros (t & [=] & _).
Qed.

Lemma bump_wrapped_lookup self mol cnt (k : nat) :
  k < n_symbols self →
  (∀ i, i ∈ mol → type_indexes self i) →
  foldl (bump_wrapped self) cnt mol !! k
  = (λ n, n + length
            (filter (λ i, type_of self i = Some (Z.of_nat (S k))
                          ∨ type_of self i
                            = Some (Z.of_nat (S k)
                                    - Z.of_nat (n_symbols self))%Z) mol))
    <$> cnt !! k.
Proof.
  intros Hk. revert cnt. induction mol as [|i mol IH]; intros cnt Hmol.
  - simpl. destruct (cnt !! k); simpl; [f_equal; lia | done].
  - cbn [foldl]. rewrite IH by (intros j Hj; apply Hmol; by right).
    destruct (Hmol i) as (t & Ht & Hrange); [by left|].
    unfold bump_wrapped. rewrite Ht, filter_cons.
    destruct (decide (slot (n_symbols self) t = k)) as [Hs|Hs].
    + rewrite <-Hs at 1. rewrite list_lookup_alter, decide_True by done.
      rewrite Hs.
      rewrite decide_True.
      * destruct (cnt !! k); simpl; [f_equal; lia | done].
      * rewrite Ht. unfold slot in Hs.
        destruct (bool_decide (1 ≤ t)%Z) eqn:Hb.
        -- left. f_equal. apply bool_decide_eq_true_1 in Hb. lia.
        -- right. f_equal. apply bool_decide_eq_false_1 in Hb. lia.
    + rewrite list_lookup_alter_ne by done.
      rewrite decide_False; [done|].
      rewrite Ht. unfold slot in Hs.
      destruct (bool_decide (1 ≤ t)%Z) eqn:Hb.
      * apply bool_decide_eq_true_1 in Hb. intros [[= ->]|[= ->]]; lia.
      * apply bool_decide_eq_false_1 in Hb. intros [[= ->]|[= ->]]; lia.
Qed.

Lemma atom_type_count_loop self mol :
  AnalyzeFrame.atom_type_count self mol
  = foldM (count_step self) (replicate (n_symbols self) 0) mol.
Proof. reflexivity. Qed.

(** When every atom of a component has a type within 1-T..T, the
    counting loop succeeds and counter k holds the atoms of type k
    together with those of type k - T. *)
Lemma atom_type_count_wraps self mol :
  (∀ i, i ∈ mol → type_indexes self i) →
  AnalyzeFrame.atom_type_count self mol = Ok (wrapped_composition self mol).
Proof.
  intros Hmol. rewrite atom_type_count_loop.
  destruct (foldM_inv (λ cnt, length cnt = n_symbols self)
              (count_step self) (bump_wrapped self)
              (replicate (n_symbols self) 0) mol) as [-> _].
  - by rewrite length_replicate.
  - intros cnt i Hlen Hi.
    destruct (count_step_cases self cnt i Hlen) as [(_ & ? & ?)|[Hbad _]];
      [done|]. destruct Hbad. by apply Hmol.
  - f_equal. apply list_eq. intros k. unfold wrapped_composition.
    rewrite list_lookup_fmap.
    destruct (decide (k < n_symbols self)) as [Hk|Hk].
    + rewrite bump_wrapped_lookup by done.
      rewrite lookup_replicate_2, lookup_seq_lt by done. done.
    + rewrite lookup_seq_ge by lia. apply lookup_ge_None_2.
      assert (∀ cnt, length (foldl (bump_wrapped self) cnt mol) = length cnt)
        as Hlen.
      { clear. induction mol as [|i mol IH]; intros cnt; [done|].
        cbn [foldl]. rewrite IH. unfold bump_wrapped.
        destruct (type_of self i); [by rewrite length_alter | done]. }
      rewrite Hlen, length_replicate. lia.
Qed.

(** The counting loop raises [IndexError] as soon as a component holds
    an atom index outside the frame or an atom whose type is outside
    1-T..T. *)
Lemma atom_type_count_raises self mol :
  (∃ i, i ∈ mol ∧ ¬ type_indexes self i) →
  AnalyzeFrame.atom_type_count self mol = Err IndexError.
Proof.
  intros (i & Hi & Hbad). rewrite atom_type_count_loop.
  apply (foldM_raises (λ cnt, length cnt = n_symbols self)).
  - by rewrite length_replicate.
  - intros cnt j Hlen _.
    destruct (count_step_cases self cnt j Hlen) as [(_ & ? & ?)|[_ ?]];
      [right; eauto | by left].
  - exists i. split; [done|]. intros cnt Hlen.
    destruct (count_step_cases self cnt i Hlen) as [(? & _)|[_ ?]]; done.
Qed.

(** No other exception leaves the counting loop. *)
Lemma atom_type_count_cases self mol :
  AnalyzeFrame.atom_type_count self mol = Err IndexError
  ∨ ∃ c, AnalyzeFrame.atom_type_count self mol = Ok c.
Proof.
  rewrite atom_type_count_loop.
  destruct (foldM_cases (λ cnt, length cnt = n_symbols self)
              (count_step self) IndexError
              (replicate (n_symbols self) 0) mol) as [?|(c & ? & _)];
    [|  |by left|right; by exists c].
  - by rewrite length_replicate.
  - intros cnt j Hlen _.
    destruct (count_step_cases self cnt j Hlen) as [(_ & ? & ?)|[_ ?]];
      [right; eauto | by left].
Qed.

Lemma wrapped_composition_length self mol :
  length (wrapped_composition self mol) = n_symbols self.
Proof. unfold wrapped_composition. by rewrite length_fmap, length_seq. Qed.

(** The first loop of [count_mols] when every type indexes the
    counters. *)
Lemma wrapped_tally_loop self (mols : list (list nat)) :
  (∀ mol i, mol ∈ mols → i ∈ mol → type_indexes self i) →
  foldM (λ mols_count_tmp mol,
           AnalyzeFrame.atom_type_count self mol ≫= λ atom_type_count_tuple,
           Ok (dict_incr atom_type_count_tuple mols_count_tmp))
        [] mols
  = Ok (tally_of (wrapped_composition self <$> mols)).
Proof.
  intros Hmols. unfold tally_of. rewrite foldl_fmap.
  apply foldM_pure. intros tmp mol Hmol.
  rewrite atom_type_count_wraps; [done|].
  intros i Hi. by eapply Hmols.
Qed.

(** [mol_str] reads the symbol table only. *)
Lemma mol_str_symbols_total self (c : list nat) :
  (∀ t, (1 ≤ t ≤ Z.of_nat (n_symbols self))%Z →
        is_Some (atom_type_to_symbol self !! t)) →
  length c = n_symbols self →
  AnalyzeFrame.mol_str self c = Ok (formula self c).
Proof.
  intros Hsym Hlen.
  change (AnalyzeFrame.mol_str (without_atoms self) c
          = Ok (formula (without_atoms self) c)).
  apply mol_str_spec; [|done]. split; [|done].
  intros a Ha. by apply elem_of_nil in Ha.
Qed.

(** One round of the rendering loop raises [KeyError] or nothing. *)
Lemma mol_str_cases self (c : list nat) :
  length c = n_symbols self →
  AnalyzeFrame.mol_str self c = Err KeyError
  ∨ ∃ s, AnalyzeFrame.mol_str self c = Ok s.
Proof.
  intros Hlen. unfold AnalyzeFrame.mol_str. fold (n_symbols self).
  destruct (foldM_cases (λ _ : string, True)
              (λ mol_str atom_type,
                 py_get c atom_type ≫= λ n,
                 if n =? 0 then Ok mol_str
                 else
                   dict_get (atom_type_to_symbol self)
                     (Z.of_nat atom_type + 1)%Z
                   ≫= λ sym, Ok (mol_str +:+ sym +:+ pretty n))
              KeyError "" (seq 0 (n_symbols self))) as [?|(s & ? & _)];
    [done| |by left|right; by exists s].
  intros s k _ Hk%elem_of_seq.
  destruct (lookup_lt_is_Some_2 c k) as [x Hx]; [lia|].
  rewrite (py_get_Ok _ _ _ Hx), bind_Ok.
  destruct (x =? 0); [right; eauto|].
  unfold dict_get. destruct (atom_type_to_symbol self !! _); [|by left].
  right. eauto.
Qed.

(** It raises [KeyError] on a non-zero counter whose type has no
    symbol. *)
Lemma mol_str_raises self (c : list nat) (k n : nat) :
  length c = n_symbols self →
  c !! k = Some n → n ≠ 0 →
  atom_type_to_symbol self !! (Z.of_nat k + 1)%Z = None →
  AnalyzeFrame.mol_str self c = Err KeyError.
Proof.
  intros Hlen Hk Hn Hsym. unfold AnalyzeFrame.mol_str. fold (n_symbols self).
  apply (foldM_raises (λ _ : string, True)); [done| |].
  - intros s j _ Hj%elem_of_seq.
    destruct (lookup_lt_is_Some_2 c j) as [x Hx]; [lia|].
    rewrite (py_get_Ok _ _ _ Hx), bind_Ok.
    destruct (x =? 0); [right; eauto|].
    unfold dict_get.
    destruct (atom_type_to_symbol self !! (Z.of_nat j + 1)%Z); [|by left].
    right. eauto.
  - exists k. split.
    + apply elem_of_seq. apply lookup_lt_Some in Hk. lia.
    + intros s _. rewrite (py_get_Ok _ _ _ Hk), bind_Ok.
      destruct (Nat.eqb_spec n 0) as [|_]; [done|].
      unfold dict_get. by rewrite Hsym.
Qed.

(** A component with an atom of type [t] has a non-zero counter for
    [t]. *)
Lemma wrapped_composition_pos self mol (i : nat) (t : Z) :
  i ∈ mol → type_of self i = Some t →
  (1 ≤ t ≤ Z.of_nat (n_symbols self))%Z →
  ∃ n, wrapped_composition self mol !! Z.to_nat (t - 1) = Some n ∧ n ≠ 0.
Proof.
  intros Hi Ht Hrange. unfold wrapped_composition.
  rewrite list_lookup_fmap, lookup_seq_lt by lia. simpl.
  eexists. split; [done|].
  assert (i ∈ filter (λ i, type_of self i
                           = Some (Z.of_nat (S (Z.to_nat (t - 1))))
                           ∨ type_of self i
                             = Some (Z.of_nat (S (Z.to_nat (t - 1)))
                                     - Z.of_nat (n_symbols self))%Z) mol)
    as Hin.
  { apply list_elem_of_filter. split; [|done].
    left. rewrite Ht. f_equal. lia. }
  intros Hz. destruct (filter _ mol); [by apply elem_of_nil in Hin|done].
Qed.

End counting_loop.

Section count_mols_errors.
Context {num : Type} `{PyNum num}.
Implicit Types (self : Frame num) (mols : list (list nat)).
Implicit Types (cyn : NeighborArgs num → result (list (list nat))).
Implicit Types (cym : list (list nat) → nat → result (list (list nat))).

(** X6: type ids wrap around in [count_mols].  When the grouping is
    returned, every type 1..T has a symbol and every atom of every
    component has a type within 1-T..T, the method does not raise, and
    the composition it renders for a component counts, under type k,
    the atoms of type k together with those of type k - T: an atom of
    type 0 is reported under the symbol of type T. *)
Theorem count_mols_wraps_type_ids cyn cym self mode
    (cut_off : option num) (bond_length : option (list (list num))) mols :
  AnalyzeFrame.get_mols_list cyn cym self mode cut_off bond_length = Ok mols →
  (∀ t, (1 ≤ t ≤ Z.of_nat (n_symbols self))%Z →
        is_Some (atom_type_to_symbol self !! t)) →
  (∀ mol i, mol ∈ mols → i ∈ mol → type_indexes self i) →
  AnalyzeFrame.count_mols cyn cym self mode cut_off bond_length
  = Ok (render (formula self) (tally_of (wrapped_composition self <$> mols)))
  ∧ ∀ mol, mol ∈ mols →
      (AnalyzeFrame.atom_type_count self mol ≫= AnalyzeFrame.mol_str self)
      = Ok (formula self (wrapped_composition self mol)).
Proof.
  intros Hmols Hsym Hidx. split.
  - unfold AnalyzeFrame.count_mols.
    rewrite Hmols, bind_Ok, wrapped_tally_loop, bind_Ok by done.
    apply render_loop. intros c Hc. rewrite tally_of_keys in Hc.
    apply list_elem_of_fmap in Hc as (mol & -> & _).
    apply mol_str_symbols_total; [done|]. apply wrapped_composition_length.
  - intros mol Hmol.
    rewrite atom_type_count_wraps, bind_Ok
      by (intros i Hi; by eapply Hidx).
    apply mol_str_symbols_total; [done|]. apply wrapped_composition_length.
Qed.

(** X7: [count_mols] and [get_mols_dict] raise [IndexError] whenever
    some component of the grouping names an atom index outside the
    frame or an atom whose type is outside 1-T..T, whatever the other
    components and the symbol table are. *)
Theorem count_mols_index_error cyn cym self mode
    (cut_off : option num) (bond_length : option (list (list num))) mols :
  AnalyzeFrame.get_mols_list cyn cym self mode cut_off bond_length = Ok mols →
  (∃ mol i, mol ∈ mols ∧ i ∈ mol ∧ ¬ type_indexes self i) →
  AnalyzeFrame.count_mols cyn cym self mode cut_off bond_length
  = Err IndexError
  ∧ AnalyzeFrame.get_mols_dict cyn cym self mode cut_off bond_length
    = Err IndexError.
Proof.
  intros Hmols (mol & i & Hmol & Hi & Hbad).
  assert (AnalyzeFrame.count_mols cyn cym self mode cut_off bond_length
          = Err IndexError) as Hcount.
  { unfold AnalyzeFrame.count_mols. rewrite Hmols, bind_Ok.
    rewrite (foldM_raises (λ _, True) _ IndexError); [done..| |].
    - intros tmp mol' _ _.
      destruct (atom_type_count_cases self mol') as [->|[c ->]];
        [by left | right; eauto].
    - exists mol. split; [done|]. intros tmp _.
      rewrite atom_type_count_raises; [done|]. by exists i. }
  split; [done|]. by apply get_mols_dict_raises.
Qed.

(** X8: [count_mols] and [get_mols_dict] raise [KeyError] when the
    counting succeeds on every component and some component holds an
    atom of a type within 1..T that has no symbol. *)
Theorem count_mols_key_error cyn cym self mode
    (cut_off : option num) (bond_length : option (list (list num))) mols :
  AnalyzeFrame.get_mols_list cyn cym self mode cut_off bond_length = Ok mols →
  (∀ mol i, mol ∈ mols → i ∈ mol → type_indexes self i) →
  (∃ mol i t, mol ∈ mols ∧ i ∈ mol ∧ type_of self i = Some t
              ∧ (1 ≤ t ≤ Z.of_nat (n_symbols self))%Z
              ∧ atom_type_to_symbol self !! t = None) →
  AnalyzeFrame.count_mols cyn cym self mode cut_off bond_length
  = Err KeyError
  ∧ AnalyzeFrame.get_mols_dict cyn cym self mode cut_off bond_length
    = Err KeyError.
Proof.
  intros Hmols Hidx (mol & i & t & Hmol & Hi & Ht & Hrange & Hsym).
  assert (AnalyzeFrame.count_mols cyn cym self mode cut_off bond_length
          = Err KeyError) as Hcount.
  { unfold AnalyzeFrame.count_mols.
    rewrite Hmols, bind_Ok, wrapped_tally_loop, bind_Ok by done.
    assert (∀ c, c ∈ (tally_of (wrapped_composition self <$> mols)).*1 →
                 length c = n_symbols self) as Hlen.
    { intros c Hc. rewrite tally_of_keys in Hc.
      apply list_elem_of_fmap in Hc as (mol' & -> & _).
      apply wrapped_composition_length. }
    apply (foldM_raises (λ _, True)); [done| |].
    - intros m [c n] _ Hin.
      destruct (mol_str_cases self c) as [->|[s ->]];
        [|by left|right; eauto].
      apply Hlen. apply list_elem_of_fmap. by exists (c, n).
    - assert (wrapped_composition self mol
              ∈ (tally_of (wrapped_composition self <$> mols)).*1) as Hc.
      { apply tally_of_keys, list_elem_of_fmap. by exists mol. }
      apply list_elem_of_fmap in Hc as ([c n] & Hceq & Hin).
      simpl in Hceq. subst c.
      exists (wrapped_composition self mol, n). split; [done|].
      intros m _.
      destruct (wrapped_composition_pos self mol i t Hi Ht Hrange)
        as (x & Hx & Hne).
      rewrite (mol_str_raises self _ (Z.to_nat (t - 1)) x); [done| |done..|].
      + apply wrapped_composition_length.
      + by replace (Z.of_nat (Z.to_nat (t - 1)) + 1)%Z with t by lia. }
  split; [done|]. by apply get_mols_dict_raises.
Qed.

End count_mols_errors.

(** On the frame with an atom of type 0 under the types H and O, that
    atom is reported as one O. *)
Lemma zero_typed_counted_as_last_type :
  @AnalyzeFrame.count_mols Q Q_PyNum apart_neighbors apart_mols
    zero_typed "cut_off" (Some (3 # 2)%Q) None
  = Ok {[ "O1" := 1; "H1" := 1 ]}.
Proof. vm_compute. reflexivity. Qed.

Lemma zero_typed_symbols :
  ∀ t, (1 ≤ t ≤ Z.of_nat (n_symbols zero_typed))%Z →
       is_Some (atom_type_to_symbol zero_typed !! t).
Proof.
  assert (n_symbols zero_typed = 2) as -> by reflexivity.
  intros t Ht. assert (t = 1 ∨ t = 2)%Z as [-> | ->] by lia; by eexists.
Qed.

Lemma zero_typed_indexes :
  ∀ mol i, mol ∈ [[0]; [1]] → i ∈ mol → type_indexes zero_typed i.
Proof.
  assert (n_symbols zero_typed = 2) as Hn by reflexivity.
  intros mol i Hmol Hi. unfold type_indexes. rewrite Hn.
  repeat (apply elem_of_cons in Hmol as [->|Hmol]);
    [| |by apply elem_of_nil in Hmol];
    apply list_elem_of_singleton in Hi as ->.
  - exists 0%Z. split; [reflexivity | lia].
  - exists 1%Z. split; [reflexivity | lia].
Qed.

Lemma count_mols_wraps_type_ids_witness :
  @AnalyzeFrame.count_mols Q Q_PyNum apart_neighbors apart_mols
    zero_typed "cut_off" (Some (3 # 2)%Q) None
  = Ok (render (formula zero_typed)
          (tally_of (wrapped_composition zero_typed <$> [[0]; [1]])))
  ∧ ∀ mol, mol ∈ [[0]; [1]] →
      (AnalyzeFrame.atom_type_count zero_typed mol
         ≫= AnalyzeFrame.mol_str zero_typed)
      = Ok (formula zero_typed (wrapped_composition zero_typed mol)).
Proof.
  apply (@count_mols_wraps_type_ids Q Q_PyNum apart_neighbors apart_mols
           zero_typed "cut_off" (Some (3 # 2)%Q) None [[0]; [1]]).
  - reflexivity.
  - exact zero_typed_symbols.
  - exact zero_typed_indexes.
Defined.

Lemma sample_overrun :
  ∃ mol i, mol ∈ [[0; 1; 2]; [3; 4; 7]] ∧ i ∈ mol ∧ ¬ type_indexes sample i.
Proof.
  exists [3; 4; 7], 7. split_and!; [set_solver..|].
  intros (t & Ht & _). discriminate Ht.
Qed.

Lemma count_mols_index_error_witness :
  @AnalyzeFrame.count_mols Q Q_PyNum water_h2_neighbors overrun_mols
    sample "cut_off" (Some (3 # 2)%Q) None = Err IndexError
  ∧ @AnalyzeFrame.get_mols_dict Q Q_PyNum water_h2_neighbors overrun_mols
      sample "cut_off" (Some (3 # 2)%Q) None = Err IndexError.
Proof.
  apply (@count_mols_index_error Q Q_PyNum water_h2_neighbors overrun_mols
           sample "cut_off" (Some (3 # 2)%Q) None [[0; 1; 2]; [3; 4; 7]]).
  - reflexivity.
  - exact sample_overrun.
Defined.

Lemma gapped_indexes :
  ∀ mol i, mol ∈ [[0]; [1]] → i ∈ mol → type_indexes gapped i.
Proof.
  assert (n_symbols gapped = 2) as Hn by reflexivity.
  intros mol i Hmol Hi. unfold type_indexes. rewrite Hn.
  repeat (apply elem_of_cons in Hmol as [->|Hmol]);
    [| |by apply elem_of_nil in Hmol];
    apply list_elem_of_singleton in Hi as ->.
  - exists 1%Z. split; [reflexivity | lia].
  - exists 2%Z. split; [reflexivity | lia].
Qed.

Lemma gapped_symbol_missing :
  ∃ mol i t, mol ∈ [[0]; [1]] ∧ i ∈ mol ∧ type_of gapped i = Some t
             ∧ (1 ≤ t ≤ Z.of_nat (n_symbols gapped))%Z
             ∧ atom_type_to_symbol gapped !! t = None.
Proof.
  exists [1], 1, 2%Z. split_and!; [set_solver..|reflexivity| | |reflexivity].
  - done.
  - vm_compute. discriminate.
Qed.

Lemma count_mols_key_error_witness :
  @AnalyzeFrame.count_mols Q Q_PyNum apart_neighbors apart_mols
    gapped "cut_off" (Some (3 # 2)%Q) None = Err KeyError
  ∧ @AnalyzeFrame.get_mols_dict Q Q_PyNum apart_neighbors apart_mols
      gapped "cut_off" (Some (3 # 2)%Q) None = Err KeyError.
Proof.
  apply (@count_mols_key_error Q Q_PyNum apart_neighbors apart_mols
           gapped "cut_off" (Some (3 # 2)%Q) None [[0]; [1]]).
  - reflexivity.
  - exact gapped_indexes.
  - exact gapped_symbol_missing.
Defined.

(** * Counting bonds: the edge index and [count_bonds] *)

Lemma sum_list_fmap_add {A : Type} (f g : A → nat) (l : list A) :
  sum_list ((λ x, f x + g x) <$> l) = sum_list (f <$> l) + sum_list (g <$> l).
Proof. induction l as [|x l IH]; csimpl; lia. Qed.

Lemma sum_list_indicator {A : Type} `{EqDecision A} (P : A → Prop)
    `{!∀ x, Decision (P x)} (q : A) (l : list A) :
  NoDup l → (∀ p, p ∈ l → P p ↔ p = q) →
  sum_list ((λ p, if decide (P p) then 1 else 0) <$> l)
  = if decide (q ∈ l) then 1 else 0.
Proof.
  induction 1 as [|x l Hx Hl IH]; intros HP.
  - by rewrite decide_False by apply not_elem_of_nil.
  - cbn [fmap list_fmap sum_list sum_list_with].
    rewrite IH by (intros p Hp; apply HP; by right).
    destruct (decide (P x)) as [HPx|HPx].
    + apply HP in HPx as ->; [|by left].
      rewrite decide_False by done. rewrite decide_True by left. done.
    + rewrite (HP x) in HPx by left.
      destruct (decide (q ∈ l)) as [Hq|Hq].
      * rewrite decide_True by (by right). done.
      * rewrite decide_False; [done|].
        intros [->|?]%elem_of_cons; done.
Qed.

Section handshake.
Implicit Types (nl : list (list nat)).

Lemma elem_of_directed_pairs nl (n a b : nat) :
  (a, b) ∈ directed_pairs nl n ↔ a < n ∧ bonded nl a b.
Proof.
  unfold directed_pairs. rewrite list_elem_of_bind. split.
  - intros (i & (j & [= -> ->] & Hj)%list_elem_of_fmap & Hi%elem_of_seq).
    split; [lia | done].
  - intros [Ha Hb]. exists a. split.
    + apply list_elem_of_fmap. by exists b.
    + apply elem_of_seq. lia.
Qed.

Lemma NoDup_directed_pairs nl (n : nat) :
  (∀ i, NoDup (neighbors_of nl i)) → NoDup (directed_pairs nl n).
Proof.
  intros Hsets. apply NoDup_bind; [| |apply NoDup_seq].
  - intros i1 i2 [a b] _ _ (j1 & [= -> _] & _)%list_elem_of_fmap
      (j2 & [= -> _] & _)%list_elem_of_fmap. done.
  - intros i _. apply NoDup_fmap_2; [|done].
    by intros j1 j2 [= ->].
Qed.

Lemma length_directed_pairs nl (k m : nat) :
  length (seq k m ≫= λ i, (λ j, (i, j)) <$> neighbors_of nl i)
  = sum_list (length <$> take m (drop k nl)).
Proof.
  revert k. induction m as [|m IH]; intros k; [done|].
  cbn [seq]. rewrite bind_cons, length_app, length_fmap, IH.
  unfold neighbors_of.
  destruct (nl !! k) as [row|] eqn:Hrow.
  - rewrite (drop_S _ _ _ Hrow). done.
  - apply lookup_ge_None_1 in Hrow.
    rewrite !drop_ge by lia. by rewrite !take_nil.
Qed.

(** Each bond is stored twice in a symmetric neighbor list, and once
    among the ascending pairs. *)
Lemma handshake (n : nat) nl :
  neighbor_list_wf n nl →
  2 * length (edges_from nl 0 n) = sum_list (length <$> nl).
Proof.
  intros [Hlen Hsets Hsym Hirr].
  transitivity (length (directed_pairs nl n)).
  2:{ unfold directed_pairs. rewrite length_directed_pairs, drop_0.
      by rewrite firstn_all2 by lia. }
  rewrite <-(filter_app_complement (λ e, e.1 < e.2) (directed_pairs nl n)).
  rewrite length_app.
  assert (filter (λ e, e.1 < e.2) (directed_pairs nl n)
          ≡ₚ edges_from nl 0 n) as ->.
  { apply NoDup_Permutation.
    - by apply NoDup_filter, NoDup_directed_pairs.
    - by apply NoDup_edges_from.
    - intros [a b]. rewrite list_elem_of_filter, elem_of_directed_pairs,
        elem_of_edges_from. simpl. intuition lia. }
  assert (prod_swap <$> filter (λ e, ¬ e.1 < e.2) (directed_pairs nl n)
          ≡ₚ edges_from nl 0 n) as Hdown.
  { apply NoDup_Permutation.
    - apply NoDup_fmap_2; [apply _|].
      by apply NoDup_filter, NoDup_directed_pairs.
    - by apply NoDup_edges_from.
    - intros [a b]. rewrite list_elem_of_fmap, elem_of_edges_from. split.
      + intros ([x y] & Heq
                & [Hge [Hx Hxy]%elem_of_directed_pairs]%list_elem_of_filter).
        simpl in Heq, Hge. injection Heq as -> ->.
        assert (x ≠ y) by (intros ->; by eapply Hirr).
        split_and!; [lia..|by apply Hsym].
      + intros (Ha & Hab & Hb). exists (b, a). split; [done|].
        apply list_elem_of_filter. simpl. split; [lia|].
        apply elem_of_directed_pairs. split; [|by apply Hsym].
        apply Hsym, bonded_lt in Hb. lia. }
  apply Permutation_length in Hdown. rewrite length_fmap in Hdown. lia.
Qed.

End handshake.

Lemma py_get_cases {A : Type} (l : list A) (i : nat) :
  py_get l i = Err IndexError ∨ ∃ x, py_get l i = Ok x.
Proof. unfold py_get. destruct (l !! i); eauto. Qed.

Lemma py_index_cases (n : nat) (i : Z) :
  py_index n i = Err IndexError ∨ ∃ r, py_index n i = Ok r.
Proof. unfold py_index. repeat case_bool_decide; eauto. Qed.

Lemma incr_at_cases (M : list (list nat)) (a b : Z) :
  incr_at M a b = Err IndexError ∨ ∃ M', incr_at M a b = Ok M'.
Proof.
  unfold incr_at.
  destruct (py_index_cases (length M) a) as [->|[r ->]]; [by left|].
  rewrite bind_Ok.
  destruct (py_get_cases M r) as [->|[row ->]]; [by left|].
  rewrite bind_Ok.
  destruct (py_index_cases (length row) b) as [->|[c ->]]; [by left|].
  right. eauto.
Qed.

Lemma length_filter_all {A : Type} (P : A → Prop) `{!∀ x, Decision (P x)}
    (l : list A) :
  length (filter P l) = length l ↔ ∀ x, x ∈ l → P x.
Proof.
  induction l as [|x l IH].
  - split; [|done]. intros _ y Hy. by apply elem_of_nil in Hy.
  - rewrite filter_cons. pose proof (length_filter P l) as Hle.
    destruct (decide (P x)) as [HPx|HPx]; simpl.
    + split.
      * intros Heq y [->|Hy]%elem_of_cons; [done|]. apply IH; [lia|done].
      * intros Hall. f_equal. apply IH. intros y Hy. apply Hall. by right.
    + split; [lia|]. intros Hall. destruct HPx. apply Hall. by left.
Qed.

Section bond_counts.
Context {num : Type} `{PyNum num}.
Implicit Types (self : Frame num) (nl : list (list nat)).
Implicit Types (cy : NeighborArgs num → result (list (list nat))).
Implicit Types (es : list (nat * nat)).

(** X9: on a symmetric, self-loop-free neighbor list every bond enters
    the edge index once: twice the number of edges [get_edge_index]
    returns is the sum of the neighbor-row lengths. *)
Theorem get_edge_index_half_degrees cy self (cut_off : num) nl :
  AnalyzeFrame.get_neighbor_list cy self "cut_off" (Some cut_off) None
  = Ok nl →
  neighbor_list_wf (get_total_atoms self) nl →
  ∃ sources destinations,
    AnalyzeFrame.get_edge_index cy self cut_off = Ok (sources, destinations)
    ∧ 2 * length sources = sum_list (length <$> nl)
    ∧ 2 * length destinations = sum_list (length <$> nl).
Proof.
  intros Hnl Hwf. pose proof (handshake _ _ Hwf) as Hhalf.
  exists (edges_from nl 0 (get_total_atoms self)).*1,
         (edges_from nl 0 (get_total_atoms self)).*2.
  split_and!.
  - unfold AnalyzeFrame.get_edge_index. rewrite Hnl, bind_Ok.
    by rewrite edge_atom_loop by (destruct Hwf as [-> _ _ _]; lia).
  - by rewrite length_fmap.
  - by rewrite length_fmap.
Qed.

(** X10: when the search returns fewer rows than the frame has atoms,
    [get_edge_index] raises [IndexError]: the rows it could read give
    no partial result. *)
Theorem get_edge_index_short_neighbor_list cy self (cut_off : num) nl :
  AnalyzeFrame.get_neighbor_list cy self "cut_off" (Some cut_off) None
  = Ok nl →
  length nl < get_total_atoms self →
  AnalyzeFrame.get_edge_index cy self cut_off = Err IndexError.
Proof.
  intros Hnl Hshort. unfold AnalyzeFrame.get_edge_index.
  rewrite Hnl, bind_Ok.
  apply (foldM_raises (λ _, True)); [done| |].
  - intros e i _ _.
    destruct (py_get_cases nl i) as [->|[row ->]]; [by left|].
    right. rewrite bind_Ok. eauto.
  - exists (length nl). split; [apply elem_of_seq; lia|].
    intros e _. unfold py_get. by rewrite lookup_ge_None_2 by lia.
Qed.

(** The counting loop of [count_bonds] raises nothing but
    [IndexError]. *)
Lemma bond_row_cases self (i : nat) (ti : Z) (M : list (list nat))
    (row : list nat) :
  foldM (λ count_bonds_list atom_j_idx,
           if i <? atom_j_idx then
             py_get (a_type <$> atoms self) atom_j_idx ≫= λ atom_j_type,
             incr_at count_bonds_list (ti - 1)%Z (atom_j_type - 1)%Z
           else Ok count_bonds_list)
        M row = Err IndexError
  ∨ ∃ M', foldM (λ count_bonds_list atom_j_idx,
                   if i <? atom_j_idx then
                     py_get (a_type <$> atoms self) atom_j_idx
                     ≫= λ atom_j_type,
                     incr_at count_bonds_list (ti - 1)%Z (atom_j_type - 1)%Z
                   else Ok count_bonds_list)
                M row = Ok M'.
Proof.
  destruct (foldM_cases (λ _ : list (list nat), True)
              (λ count_bonds_list atom_j_idx,
                 if i <? atom_j_idx then
                   py_get (a_type <$> atoms self) atom_j_idx
                   ≫= λ atom_j_type,
                   incr_at count_bonds_list (ti - 1)%Z (atom_j_type - 1)%Z
                 else Ok count_bonds_list)
              IndexError M row) as [?|(M' & ? & _)];
    [done| |by left|right; eauto].
  intros M' j _ _. destruct (i <? j); [|right; eauto].
  destruct (py_get_cases (a_type <$> atoms self) j) as [->|[tj ->]];
    [by left|].
  rewrite bind_Ok.
  destruct (incr_at_cases M' (ti - 1) (tj - 1)) as [->|[M'' ->]];
    [by left | right; eauto].
Qed.

Lemma bond_step_cases self nl (i : nat) (M : list (list nat)) :
  (py_get (a_type <$> atoms self) i ≫= λ atom_i_type,
   py_get nl i ≫= λ neighbors,
   foldM (λ count_bonds_list atom_j_idx,
            if i <? atom_j_idx then
              py_get (a_type <$> atoms self) atom_j_idx ≫= λ atom_j_type,
              incr_at count_bonds_list
                (atom_i_type - 1)%Z (atom_j_type - 1)%Z
            else Ok count_bonds_list)
         M neighbors) = Err IndexError
  ∨ ∃ M', (py_get (a_type <$> atoms self) i ≫= λ atom_i_type,
           py_get nl i ≫= λ neighbors,
           foldM (λ count_bonds_list atom_j_idx,
                    if i <? atom_j_idx then
                      py_get (a_type <$> atoms self) atom_j_idx
                      ≫= λ atom_j_type,
                      incr_at count_bonds_list
                        (atom_i_type - 1)%Z (atom_j_type - 1)%Z
                    else Ok count_bonds_list)
                 M neighbors) = Ok M' ∧ True.
Proof.
  destruct (py_get_cases (a_type <$> atoms self) i) as [->|[ti ->]];
    [by left|].
  rewrite bind_Ok.
  destruct (py_get_cases nl i) as [->|[row ->]]; [by left|].
  rewrite bind_Ok.
  destruct (bond_row_cases self i ti M row) as [->|[M' ->]];
    [by left | right; eauto].
Qed.

(** X11: when the search returns fewer rows than the frame has atoms,
    [count_bonds] raises [IndexError], in either mode and whatever the
    atom types and the rows are: its counting loop raises nothing
    else. *)
Theorem count_bonds_short_neighbor_list cy self mode
    (cut_off : option num) (bond_length : option (list (list num))) nl :
  AnalyzeFrame.get_neighbor_list cy self mode cut_off bond_length = Ok nl →
  length nl < get_total_atoms self →
  AnalyzeFrame.count_bonds cy self mode cut_off bond_length = Err IndexError.
Proof.
  intros Hnl Hshort. unfold AnalyzeFrame.count_bonds.
  rewrite Hnl, bind_Ok.
  rewrite (foldM_raises (λ _, True) _ IndexError); [done..| |].
  - intros M i _ _. apply bond_step_cases.
  - exists (length nl). split; [apply elem_of_seq; lia|].
    intros M _.
    destruct (py_get_cases (a_type <$> atoms self) (length nl))
      as [->|[ti ->]]; [done|].
    rewrite bind_Ok. unfold py_get. by rewrite lookup_ge_None_2 by lia.
Qed.

(** X12: a neighbor index past the end of the frame is not checked by
    the search's callers.  [get_edge_index] takes it as a destination;
    [count_bonds] raises [IndexError] when it reads that atom's type,
    provided the index follows an atom that lists it. *)
Theorem neighbor_index_past_the_end cy self (cut_off : num) nl (i j : nat) :
  AnalyzeFrame.get_neighbor_list cy self "cut_off" (Some cut_off) None
  = Ok nl →
  get_total_atoms self ≤ length nl →
  i < get_total_atoms self → bonded nl i j → get_total_atoms self ≤ j →
  (∃ sources destinations,
     AnalyzeFrame.get_edge_index cy self cut_off = Ok (sources, destinations)
     ∧ (i, j) ∈ zip sources destinations)
  ∧ AnalyzeFrame.count_bonds cy self "cut_off" (Some cut_off) None
    = Err IndexError.
Proof.
  intros Hnl Hlen Hi Hij Hj. split.
  - exists (edges_from nl 0 (get_total_atoms self)).*1,
           (edges_from nl 0 (get_total_atoms self)).*2.
    split.
    + unfold AnalyzeFrame.get_edge_index. rewrite Hnl, bind_Ok.
      by rewrite edge_atom_loop by lia.
    + rewrite zip_fst_snd. apply elem_of_edges_from.
      split_and!; [lia..|done].
  - unfold AnalyzeFrame.count_bonds. rewrite Hnl, bind_Ok.
    rewrite (foldM_raises (λ _, True) _ IndexError); [done..| |].
    + intros M k _ _. apply bond_step_cases.
    + exists i. split; [apply elem_of_seq; lia|].
      intros M _.
      destruct (py_get_cases (a_type <$> atoms self) i) as [->|[ti ->]];
        [done|].
      rewrite bind_Ok.
      destruct (nl !! i) as [row|] eqn:Hrow.
      2:{ unfold py_get. by rewrite Hrow. }
      rewrite (py_get_Ok _ _ _ Hrow), bind_Ok.
      apply (foldM_raises (λ _, True)); [done| |].
      * intros M' k _ _.
        destruct (i <? k); [|right; eauto].
        destruct (py_get_cases (a_type <$> atoms self) k) as [->|[tk ->]];
          [by left|].
        rewrite bind_Ok.
        destruct (incr_at_cases M' (ti - 1) (tk - 1)) as [->|[M'' ->]];
          [by left | right; eauto].
      * exists j. split.
        { unfold bonded, neighbors_of in Hij. by rewrite Hrow in Hij. }
        intros M' _.
        destruct (Nat.ltb_spec i j) as [_|?]; [|lia].
        unfold py_get. rewrite lookup_ge_None_2; [done|].
        rewrite length_fmap. unfold get_total_atoms in Hj. lia.
Qed.

Lemma count_bonds_render cy self mode
    (cut_off : option num) (bond_length : option (list (list num))) nl :
  AnalyzeFrame.get_neighbor_list cy self mode cut_off bond_length = Ok nl →
  neighbor_list_wf (get_total_atoms self) nl →
  bond_frame_wf self →
  AnalyzeFrame.count_bonds cy self mode cut_off bond_length
  = Ok (render (bond_key self)
          ((λ p, (p, typed_pairs self
                       (edges_from nl 0 (get_total_atoms self)) p.1 p.2))
             <$> type_pairs (n_types self))).
Proof.
  intros Hnl [Hlen Hsets Hsym Hirr] Hwf.
  assert (∀ i j, bonded nl i j → j < get_total_atoms self) as Hrange.
  { intros i j Hij%Hsym%bonded_lt. lia. }
  unfold AnalyzeFrame.count_bonds. rewrite Hnl, bind_Ok.
  fold (n_types self).
  destruct (bond_atom_loop self nl
              (replicate (n_types self) (replicate (n_types self) 0))
              0 (get_total_atoms self) Hwf (zero_matrix_square _) Hlen
              Hrange) as [-> HM]; [lia|].
  rewrite bind_Ok, (bond_dict_loop self _ Hwf HM). do 2 f_equal.
  apply list_fmap_ext. intros k [a b] Hk. simpl. f_equal.
  apply list_elem_of_lookup_2, elem_of_type_pairs in Hk.
  rewrite cell_of_pairs, cell_of_zero; [|done|apply zero_matrix_square|].
  - simpl. by replace (S (a - 1)) with a by lia;
      replace (S (b - 1)) with b by lia.
  - intros [i j] (Hi & _ & Hij)%elem_of_edges_from. simpl.
    split; [lia | by eapply Hrange].
Qed.

(** The counters read by the output loop add up to the pairs whose
    types ascend. *)
Lemma typed_pairs_sum self es :
  bond_frame_wf self →
  (∀ e, e ∈ es → e.1 < get_total_atoms self ∧ e.2 < get_total_atoms self) →
  sum_list ((λ p, typed_pairs self es p.1 p.2) <$> type_pairs (n_types self))
  = length (ascending_pairs self es).
Proof.
  intros Hwf. induction es as [|e es IH]; intros Hes.
  - unfold typed_pairs, ascending_pairs. simpl.
    induction (type_pairs (n_types self)) as [|p l IHl]; [done|].
    csimpl. by rewrite IHl.
  - destruct (Hes e) as [H1 H2]; [by left|].
    destruct (bond_type_of self e.1 Hwf H1) as (t1 & Ht1 & Hr1).
    destruct (bond_type_of self e.2 Hwf H2) as (t2 & Ht2 & Hr2).
    transitivity
      (sum_list ((λ p, (if decide (type_of self e.1 = Some (Z.of_nat p.1)
                                   ∧ type_of self e.2 = Some (Z.of_nat p.2))
                        then 1 else 0)
                       + typed_pairs self es p.1 p.2)
                   <$> type_pairs (n_types self))).
    { f_equal. apply list_fmap_ext. intros k p _. unfold typed_pairs.
      rewrite filter_cons. by destruct (decide _). }
    rewrite sum_list_fmap_add, IH
      by (intros e' He'; apply Hes; by right).
    rewrite (sum_list_indicator _ (Z.to_nat t1, Z.to_nat t2))
      by (apply type_pairs_NoDup
          || (intros [a b] _; rewrite Ht1, Ht2; simpl; split;
              [intros [[= ->] [= ->]]; f_equal; lia
              |intros [= -> ->]; split; f_equal; lia])).
    unfold ascending_pairs. rewrite filter_cons.
    assert (type_ascending self e = bool_decide (t1 ≤ t2)%Z) as ->
      by (unfold type_ascending; by rewrite Ht1, Ht2).
    destruct (decide ((Z.to_nat t1, Z.to_nat t2)
                      ∈ type_pairs (n_types self))) as [Hin|Hout].
    + apply elem_of_type_pairs in Hin.
      rewrite decide_True; [done|]. apply bool_decide_pack. lia.
    + rewrite decide_False; [done|].
      intros Hle%bool_decide_unpack. apply Hout, elem_of_type_pairs. lia.
Qed.

(** X13: on a well-formed frame and neighbor list the counts
    [count_bonds] reports add up to the number of bonded pairs i < j
    whose types ascend (type of i ≤ type of j).  Twice their sum is at
    most the sum of the neighbor-row lengths, and equal to it exactly
    when no bond has its lower-indexed atom in the higher type. *)
Theorem count_bonds_sum_ascending cy self mode
    (cut_off : option num) (bond_length : option (list (list num))) nl :
  AnalyzeFrame.get_neighbor_list cy self mode cut_off bond_length = Ok nl →
  neighbor_list_wf (get_total_atoms self) nl →
  bond_frame_wf self →
  ∃ count_bonds_dict,
    AnalyzeFrame.count_bonds cy self mode cut_off bond_length
    = Ok count_bonds_dict
    ∧ sum_values count_bonds_dict
      = length (ascending_pairs self
                  (edges_from nl 0 (get_total_atoms self)))
    ∧ 2 * sum_values count_bonds_dict ≤ sum_list (length <$> nl)
    ∧ (2 * sum_values count_bonds_dict = sum_list (length <$> nl)
       ↔ ∀ i j, i < j → bonded nl i j →
                Is_true (type_ascending self (i, j))).
Proof.
  intros Hnl Hnlwf Hwf. eexists. split; [by apply count_bonds_render|].
  pose proof (handshake _ _ Hnlwf) as Hhalf.
  assert (∀ i j, bonded nl i j → j < get_total_atoms self) as Hrange.
  { destruct Hnlwf as [Hlen _ Hsym _].
    intros i j Hij%Hsym%bonded_lt. lia. }
  assert (sum_values
            (render (bond_key self)
               ((λ p, (p, typed_pairs self
                            (edges_from nl 0 (get_total_atoms self))
                            p.1 p.2))
                  <$> type_pairs (n_types self)))
          = length (ascending_pairs self
                      (edges_from nl 0 (get_total_atoms self)))) as Hsum.
  { assert (((λ p : nat * nat,
                (p, typed_pairs self
                      (edges_from nl 0 (get_total_atoms self)) p.1 p.2))
               <$> type_pairs (n_types self)).*1
            = type_pairs (n_types self)) as Hkeys.
    { rewrite <-list_fmap_compose. apply list_fmap_id. }
    rewrite render_sum.
    - rewrite <-list_fmap_compose. apply typed_pairs_sum; [done|].
      intros [i j] (Hi & _ & Hij)%elem_of_edges_from. simpl.
      split; [lia | by eapply Hrange].
    - rewrite Hkeys. apply type_pairs_NoDup.
    - rewrite Hkeys. by destruct Hwf. }
  rewrite Hsum. unfold ascending_pairs.
  pose proof (length_filter (λ e, Is_true (type_ascending self e))
                (edges_from nl 0 (get_total_atoms self))) as Hle.
  split_and!; [done|lia|].
  rewrite <-Hhalf.
  transitivity (length (filter (λ e, Is_true (type_ascending self e))
                          (edges_from nl 0 (get_total_atoms self)))
                = length (edges_from nl 0 (get_total_atoms self)));
    [lia|].
  rewrite length_filter_all. split.
  - intros Hall i j Hij Hb. apply (Hall (i, j)).
    apply elem_of_edges_from. split; [|done].
    apply bonded_lt in Hb. destruct Hnlwf as [Hlen _ _ _]. lia.
  - intros Hall [i j] (_ & Hij & Hb)%elem_of_edges_from. by apply Hall.
Qed.

(** X14: when, in addition, every bond has its lower-indexed atom in
    the lower or equal type (atoms listed in ascending type, say),
    [count_bonds] is the bond-type histogram: one key for each of the
    T(T+1)/2 unordered type pairs, holding the number of bonds that join
    the two types. *)
Theorem count_bonds_type_sorted cy self mode
    (cut_off : option num) (bond_length : option (list (list num))) nl :
  AnalyzeFrame.get_neighbor_list cy self mode cut_off bond_length = Ok nl →
  neighbor_list_wf (get_total_atoms self) nl →
  bond_frame_wf self →
  (∀ i j, i < j → bonded nl i j → Is_true (type_ascending self (i, j))) →
  ∃ count_bonds_dict,
    AnalyzeFrame.count_bonds cy self mode cut_off bond_length
    = Ok count_bonds_dict
    ∧ 2 * size count_bonds_dict = n_types self * (n_types self + 1)
    ∧ ∀ a b, 1 ≤ a → a ≤ b → b ≤ n_types self →
        count_bonds_dict !! bond_key self (a, b)
        = Some (bonds_between self
                  (edges_from nl 0 (get_total_atoms self)) a b).
Proof.
  intros Hnl Hnlwf Hwf Hasc.
  destruct (count_bonds_ascending_pairs cy self mode cut_off bond_length nl
              Hnl Hnlwf Hwf) as (d & Hd & Hsize & Hlookup).
  exists d. split_and!; [done..|].
  intros a b Ha Hab Hb. rewrite Hlookup by done. f_equal.
  unfold typed_pairs, bonds_between. f_equal. apply filter_ext_in.
  intros [i j] (_ & Hij & Hbond)%elem_of_edges_from. simpl.
  split; [by left|]. intros [?|[Hi Hj]]; [done|].
  specialize (Hasc i j Hij Hbond). unfold type_ascending in Hasc.
  simpl in Hasc. rewrite Hi, Hj in Hasc.
  apply bool_decide_unpack in Hasc.
  assert (a = b) as -> by lia. done.
Qed.

End bond_counts.

Lemma get_edge_index_half_degrees_witness :
  ∃ sources destinations,
    @AnalyzeFrame.get_edge_index Q Q_PyNum water_h2_neighbors
      sample (3 # 2)%Q = Ok (sources, destinations)
    ∧ 2 * length sources = sum_list (length <$> water_h2_bonds)
    ∧ 2 * length destinations = sum_list (length <$> water_h2_bonds).
Proof.
  apply (@get_edge_index_half_degrees Q Q_PyNum water_h2_neighbors
           sample (3 # 2)%Q water_h2_bonds).
  - reflexivity.
  - exact water_h2_bonds_wf.
Defined.

Lemma get_edge_index_short_neighbor_list_witness :
  @AnalyzeFrame.get_edge_index Q Q_PyNum short_neighbors sample (3 # 2)%Q
  = Err IndexError.
Proof.
  apply (@get_edge_index_short_neighbor_list Q Q_PyNum short_neighbors
           sample (3 # 2)%Q [[1; 2]; [0]; [0]]).
  - reflexivity.
  - unfold get_total_atoms. simpl. lia.
Defined.

Lemma count_bonds_short_neighbor_list_witness :
  @AnalyzeFrame.count_bonds Q Q_PyNum short_neighbors sample
    "cut_off" (Some (3 # 2)%Q) None
  = Err IndexError.
Proof.
  apply (@count_bonds_short_neighbor_list Q Q_PyNum short_neighbors
           sample "cut_off" (Some (3 # 2)%Q) None [[1; 2]; [0]; [0]]).
  - reflexivity.
  - unfold get_total_atoms. simpl. lia.
Defined.

Lemma count_bonds_sum_ascending_witness :
  ∃ count_bonds_dict,
    @AnalyzeFrame.count_bonds Q Q_PyNum water_h2_neighbors sample
      "cut_off" (Some (3 # 2)%Q) None = Ok count_bonds_dict
    ∧ sum_values count_bonds_dict
      = length (ascending_pairs sample
                  (edges_from water_h2_bonds 0 (get_total_atoms sample)))
    ∧ 2 * sum_values count_bonds_dict
      ≤ sum_list (length <$> water_h2_bonds)
    ∧ (2 * sum_values count_bonds_dict = sum_list (length <$> water_h2_bonds)
       ↔ ∀ i j, i < j → bonded water_h2_bonds i j →
                Is_true (type_ascending sample (i, j))).
Proof.
  apply (@count_bonds_sum_ascending Q Q_PyNum water_h2_neighbors sample
           "cut_off" (Some (3 # 2)%Q) None water_h2_bonds).
  - reflexivity.
  - exact water_h2_bonds_wf.
  - exact sample_bond_wf.
Defined.

Lemma sorted_water_bonds_wf : neighbor_list_wf 5 sorted_water_bonds.
Proof.
  split.
  - reflexivity.
  - intros [|[|[|[|[|i]]]]]; unfold neighbors_of; simpl;
      repeat (constructor; [set_solver|]); constructor.
  - intros i j. unfold bonded, neighbors_of.
    destruct i as [|[|[|[|[|i]]]]]; simpl;
      rewrite ?elem_of_cons, ?elem_of_nil;
      intros Hj; destruct_or?; subst; simpl; set_solver.
  - intros [|[|[|[|[|i]]]]]; unfold bonded, neighbors_of; simpl; set_solver.
Qed.

Lemma sorted_water_bond_wf : bond_frame_wf sorted_water.
Proof.
  assert (n_types sorted_water = 2) as Hn by reflexivity.
  split; rewrite Hn.
  - intros a Ha. unfold sorted_water in Ha. simpl in Ha.
    repeat (apply elem_of_cons in Ha as [->|Ha]; [simpl; lia|]).
    by apply elem_of_nil in Ha.
  - intros t Ht. assert (t = 1 ∨ t = 2)%Z as [-> | ->] by lia; by eexists.
  - intros p q Hp Hq Heq. unfold type_pairs in Hp, Hq. simpl in Hp, Hq.
    repeat (apply elem_of_cons in Hp as [->|Hp]);
      repeat (apply elem_of_cons in Hq as [->|Hq]);
      try (by apply elem_of_nil in Hp); try (by apply elem_of_nil in Hq);
      try reflexivity; vm_compute in Heq; discriminate.
Qed.

Lemma sorted_water_ascending :
  ∀ i j, i < j → bonded sorted_water_bonds i j →
         Is_true (type_ascending sorted_water (i, j)).
Proof.
  intros i j Hij. unfold bonded, neighbors_of.
  destruct i as [|[|[|[|[|i]]]]]; simpl;
    rewrite ?elem_of_cons, ?elem_of_nil;
    intros Hj; destruct_or?; subst; try lia; try done.
Qed.

(** With the atoms in ascending type both O-H bonds are reported. *)
Lemma sorted_water_counts :
  @AnalyzeFrame.count_bonds Q Q_PyNum sorted_water_neighbors sorted_water
    "cut_off" (Some (3 # 2)%Q) None
  = Ok {[ "H-H" := 1; "H-O" := 2; "O-O" := 0 ]}.
Proof. vm_compute. reflexivity. Qed.

Lemma count_bonds_type_sorted_witness :
  ∃ count_bonds_dict,
    @AnalyzeFrame.count_bonds Q Q_PyNum sorted_water_neighbors sorted_water
      "cut_off" (Some (3 # 2)%Q) None = Ok count_bonds_dict
    ∧ 2 * size count_bonds_dict
      = n_types sorted_water * (n_types sorted_water + 1)
    ∧ ∀ a b, 1 ≤ a → a ≤ b → b ≤ n_types sorted_water →
        count_bonds_dict !! bond_key sorted_water (a, b)
        = Some (bonds_between sorted_water
                  (edges_from sorted_water_bonds 0
                     (get_total_atoms sorted_water)) a b).
Proof.
  apply (@count_bonds_type_sorted Q Q_PyNum sorted_water_neighbors
           sorted_water "cut_off" (Some (3 # 2)%Q) None sorted_water_bonds).
  - reflexivity.
  - exact sorted_water_bonds_wf.
  - exact sorted_water_bond_wf.
  - exact sorted_water_ascending.
Defined.

Lemma dangling_bond : bonded dangling_bonds 0 9.
Proof. unfold bonded, neighbors_of. simpl. set_solver. Qed.

Lemma neighbor_index_past_the_end_witness :
  (∃ sources destinations,
     @AnalyzeFrame.get_edge_index Q Q_PyNum dangling_neighbors sample
       (3 # 2)%Q = Ok (sources, destinations)
     ∧ (0, 9) ∈ zip sources destinations)
  ∧ @AnalyzeFrame.count_bonds Q Q_PyNum dangling_neighbors sample
      "cut_off" (Some (3 # 2)%Q) None
    = Err IndexError.
Proof.
  apply (@neighbor_index_past_the_end Q Q_PyNum dangling_neighbors sample
           (3 # 2)%Q dangling_bonds 0 9).
  - reflexivity.
  - unfold get_total_atoms. simpl. lia.
  - unfold get_total_atoms. simpl. lia.
  - exact dangling_bond.
  - unfold get_total_atoms. simpl. lia.
Defined.

(** * What the front end and the momentum sum raise on their own *)

Lemma mapM_raises {A B : Type} (f : A → result B) (e : exn) (l : list A) :
  (∀ x, x ∈ l → f x = Err e ∨ ∃ y, f x = Ok y) →
  (∃ x, x ∈ l ∧ f x = Err e) →
  mapM f l = Err e.
Proof.
  induction l as [|x l IH]; intros Hf (z & Hz & Hbad).
  - by apply elem_of_nil in Hz.
  - transitivity (f x ≫= λ y, mapM f l ≫= λ k, Ok (y :: k)); [done|].
    destruct (Hf x) as [->|[y Hy]]; [by left|done|].
    rewrite Hy, bind_Ok.
    apply elem_of_cons in Hz as [->|Hz]; [congruence|].
    rewrite IH; [done| |by exists z].
    intros x' Hx'. apply Hf. by right.
Qed.

Section reach.
Context {num : Type} `{PyNum num}.
Implicit Types (self : Frame num) (M : list (list num)).

(** [max] of numbers raises nothing and returns one of them, whether or
    not they are comparable. *)
Lemma py_max_member (x : num) (l : list num) :
  ∃ m, py_max (Some <$> x :: l) = Ok (Some m) ∧ m ∈ x :: l.
Proof.
  cbn [fmap list_fmap py_max].
  revert x. induction l as [|y l IH]; intros x.
  - exists x. split; [done | by left].
  - cbn [fmap list_fmap foldM py_gt]. rewrite bind_Ok.
    destruct (nlt x y); rewrite bind_Ok.
    + destruct (IH y) as (m & -> & Hm). exists m. split; [done|].
      by right.
    + destruct (IH x) as (m & -> & Hm). exists m. split; [done|].
      apply elem_of_cons in Hm as [->|Hm]; [by left | by do 2 right].
Qed.

Lemma mapM_py_max_member M :
  Forall (λ row, row ≠ []) M →
  ∃ ms, mapM py_max (map (map Some) M) = Ok (Some <$> ms)
        ∧ length ms = length M
        ∧ ∀ m, m ∈ ms → entry_of M m.
Proof.
  induction 1 as [|row M Hrow _ (ms & Hms & Hlen & Hin)].
  - exists []. split_and!; [done..|]. intros m Hm.
    by apply elem_of_nil in Hm.
  - destruct row as [|x row]; [done|].
    destruct (py_max_member x row) as (m & Hm & Hmin).
    exists (m :: ms). split_and!.
    + transitivity (py_max (Some <$> x :: row) ≫= λ y,
                    mapM py_max (map (map Some) M) ≫= λ k, Ok (y :: k));
        [reflexivity|].
      by rewrite Hm, bind_Ok, Hms.
    + simpl. by rewrite Hlen.
    + intros m' [->|Hm']%elem_of_cons.
      * exists (x :: row). split; [by left | done].
      * destruct (Hin m' Hm') as (r & Hr & Hmr). exists r.
        split; [by right | done].
Qed.

Lemma matrix_max_member M :
  M ≠ [] → Forall (λ row, row ≠ []) M →
  ∃ m, (mapM py_max (map (map Some) M) ≫= py_max) = Ok (Some m)
       ∧ entry_of M m.
Proof.
  intros HM Hrows.
  destruct (mapM_py_max_member M Hrows) as (ms & -> & Hlen & Hin).
  rewrite bind_Ok. destruct ms as [|r ms].
  { destruct M; [done | simpl in Hlen; lia]. }
  destruct (py_max_member r ms) as (m & Hm & Hmin).
  exists m. split; [done | by apply Hin].
Qed.

Lemma py_min_member (x : num) (l : list num) :
  ∃ c, py_min (x :: l) = Ok c ∧ c ∈ x :: l.
Proof.
  cbn [py_min]. eexists. split; [done|].
  revert x. induction l as [|y l IH]; intros x; [by left|].
  cbn [fold_left]. destruct (nlt y x).
  - right. apply IH.
  - specialize (IH x). apply elem_of_cons in IH as [->|IH];
      [by left | by do 2 right].
Qed.

(** X15: with resolved thresholds of the right shape and at least one
    atom type, the front end raises on its own only for an empty cell
    ([ValueError] of [min]); otherwise it hands the frame to the search,
    once, with the threshold matrix, the cell, and a mesh length clamped
    from some entry of the matrix and some cell length.  No assumption
    on the numbers: incomparable values (NaN) do not make it raise. *)
Theorem get_neighbor_list_reaches_search
    (cy : NeighborArgs num → result (list (list nat))) self mode
    (cut_off : option num) (bond_length : option (list (list num))) M :
  threshold_matrix self mode cut_off bond_length M →
  0 < n_types self →
  (cell self = [] →
   AnalyzeFrame.get_neighbor_list cy self mode cut_off bond_length
   = Err ValueError)
  ∧ (cell self ≠ [] →
     ∃ m c, entry_of M m ∧ c ∈ cell self
       ∧ AnalyzeFrame.get_neighbor_list cy self mode cut_off bond_length
         = cy {| arg_atoms_type := a_type <$> atoms self;
                 arg_atoms_pos :=
                   [a_x <$> atoms self; a_y <$> atoms self;
                    a_z <$> atoms self];
                 arg_mesh_length := clamped_mesh_length m c;
                 arg_atom_num := get_total_atoms self;
                 arg_bond_length := map (map Some) M;
                 arg_cell := cell self |}).
Proof.
  intros HM HT.
  destruct (threshold_matrix_nonempty _ _ _ _ _ HT HM) as [Hne Hrows].
  destruct (matrix_max_member M Hne Hrows) as (m & Hm & Hentry).
  rewrite (threshold_matrix_resolved cy _ _ _ _ _ HM), Hm. split.
  - intros Hcell. by rewrite Hcell.
  - intros Hcell. destruct (cell self) as [|x l] eqn:Hc; [done|].
    destruct (py_min_member x l) as (c & Hmin & Hin).
    exists m, c. split_and!; [done..|].
    rewrite bind_Ok. cbn [py_add]. rewrite bind_Ok, Hmin, bind_Ok.
    reflexivity.
Qed.

(** X16: [get_sum_of_momentums] raises [KeyError] as soon as one atom
    has a type without a mass, whatever the velocities. *)
Theorem get_sum_of_momentums_missing_mass self :
  (∃ a, a ∈ atoms self ∧ atom_type_to_mass self !! a_type a = None) →
  AnalyzeFrame.get_sum_of_momentums self = Err KeyError.
Proof.
  intros (a & Ha & Hmass). unfold AnalyzeFrame.get_sum_of_momentums.
  rewrite (mapM_raises _ KeyError); [done| |].
  - intros t _. unfold dict_get.
    destruct (atom_type_to_mass self !! t); eauto.
  - exists (a_type a). split.
    + apply list_elem_of_fmap. by exists a.
    + unfold dict_get. by rewrite Hmass.
Qed.

End reach.

Lemma sample_thresholds :
  threshold_matrix sample "cut_off" (Some (3 # 2)%Q) None
    (replicate (n_types sample) (replicate (n_types sample) (3 # 2)%Q)).
Proof. by constructor. Qed.

Lemma get_neighbor_list_reaches_search_witness :
  (cell sample = [] →
   @AnalyzeFrame.get_neighbor_list Q Q_PyNum water_h2_neighbors sample
     "cut_off" (Some (3 # 2)%Q) None
   = Err ValueError)
  ∧ (cell sample ≠ [] →
     ∃ m c,
       entry_of (replicate (n_types sample)
                   (replicate (n_types sample) (3 # 2)%Q)) m
       ∧ c ∈ cell sample
       ∧ @AnalyzeFrame.get_neighbor_list Q Q_PyNum water_h2_neighbors sample
           "cut_off" (Some (3 # 2)%Q) None
         = water_h2_neighbors
             {| arg_atoms_type := a_type <$> atoms sample;
                arg_atoms_pos :=
                  [a_x <$> atoms sample; a_y <$> atoms sample;
                   a_z <$> atoms sample];
                arg_mesh_length := @clamped_mesh_length Q Q_PyNum m c;
                arg_atom_num := get_total_atoms sample;
                arg_bond_length :=
                  map (map Some)
                    (replicate (n_types sample)
                       (replicate (n_types sample) (3 # 2)%Q));
                arg_cell := cell sample |}).
Proof.
  apply (@get_neighbor_list_reaches_search Q Q_PyNum water_h2_neighbors
           sample "cut_off" (Some (3 # 2)%Q) None).
  - exact sample_thresholds.
  - unfold n_types. vm_compute. lia.
Defined.

Lemma gapped_mass_missing :
  ∃ a, a ∈ atoms gapped ∧ atom_type_to_mass gapped !! a_type a = None.
Proof.
  exists (@atom_of Q Q_PyNum 2%Z 1%Q 0%Q 0%Q). split; [|reflexivity].
  unfold gapped. simpl. set_solver.
Qed.

Lemma get_sum_of_momentums_missing_mass_witness :
  @AnalyzeFrame.get_sum_of_momentums Q Q_PyNum gapped = Err KeyError.
Proof.
  apply (@get_sum_of_momentums_missing_mass Q Q_PyNum gapped).
  exact gapped_mass_missing.
Defined.

(** * The earlier class and the current one fail together *)

Lemma foldM_alike {A B1 B2 : Type} (f1 : B1 → A → result B1)
    (f2 : B2 → A → result B2) (l : list A) :
  (∀ b1 b2 x, x ∈ l → alike (f1 b1 x) (f2 b2 x)) →
  ∀ b1 b2, alike (foldM f1 b1 l) (foldM f2 b2 l).
Proof.
  induction l as [|x l IH]; intros Hstep b1 b2; [done|].
  cbn [foldM]. pose proof (Hstep b1 b2 x) as Hx.
  destruct (f1 b1 x) as [b1'|e1], (f2 b2 x) as [b2'|e2];
    try (by destruct Hx; left); try (by apply Hx; left).
  rewrite !bind_Ok. apply IH. intros c1 c2 y Hy. apply Hstep. by right.
Qed.

Lemma alike_Err {A B : Type} (r1 : result A) (r2 : result B) (e : exn) :
  alike r1 r2 → r1 = Err e ↔ r2 = Err e.
Proof.
  destruct r1 as [a|e1], r2 as [b|e2]; simpl; try done.
  intros ->. split; by intros [= ->].
Qed.

Section raise_alike.
Context {num : Type} `{PyNum num}.
Implicit Types (self : Frame num).
Implicit Types (cyn : NeighborArgs num → result (list (list nat))).
Implicit Types (cym : list (list nat) → nat → result (list (list nat))).

(** The separator changes the string, not the look-ups. *)
Lemma mol_str_alike self (c : list nat) :
  alike (AnalizeFrame.mol_str self c) (AnalyzeFrame.mol_str self c).
Proof.
  unfold AnalizeFrame.mol_str, AnalyzeFrame.mol_str.
  apply foldM_alike. intros s1 s2 k _.
  destruct (py_get c k) as [n|e]; [|done]. rewrite !bind_Ok.
  destruct (n =? 0); [done|].
  destruct (bool_decide (s1 = ""));
    by destruct (dict_get (atom_type_to_symbol self) (Z.of_nat k + 1)%Z).
Qed.

(** X17: on every input -- whatever the frame, the arguments and the
    compiled routines -- the earlier [count_mols] raises an exception
    exactly when the current one raises it; the space in the keys is the
    only difference between the two methods. *)
Theorem count_mols_old_new_raise_alike cyn cym self mode
    (cut_off : option num) (bond_length : option (list (list num)))
    (e : exn) :
  AnalizeFrame.count_mols cyn cym self mode cut_off bond_length = Err e
  ↔ AnalyzeFrame.count_mols cyn cym self mode cut_off bond_length = Err e.
Proof.
  apply alike_Err.
  unfold AnalizeFrame.count_mols, AnalyzeFrame.count_mols.
  rewrite get_mols_list_same.
  destruct (AnalyzeFrame.get_mols_list _ _ _ _ _ _) as [mols|e0]; [|done].
  rewrite !bind_Ok.
  change (AnalizeFrame.atom_type_count self)
    with (AnalyzeFrame.atom_type_count self).
  destruct (foldM (B:=list (list nat * nat)) _ [] mols) as [tally|e0];
    [|done].
  rewrite !bind_Ok. apply foldM_alike. intros m1 m2 [c n] _.
  pose proof (mol_str_alike self c) as Hc.
  by destruct (AnalizeFrame.mol_str self c), (AnalyzeFrame.mol_str self c).
Qed.

End raise_alike.
